(** * Elenchus: job worker and checkpointed evaluation protocol

    A shallow embedding of the Go sources

    - [internal/service/evaluation.go] (the evaluation protocol and
      [StartEvaluation]),
    - package [service], the Gemini client ([CalculateDivergence],
      [withRetry] and its detection of rate limits),
    - package [worker], the processor ([processNextWithRateLimit],
      [processJobWithMetrics], the dead-letter routing,
      [handleRunEvaluation], the retry scan, [processNext]),
    - [internal/db/queries/evaluations.sql] (the checkpoint queries),
    - package [policies] (who may do what with an evaluation),
    - package [sse] (the broker of the server-sent events),
    - package [middleware] (the response writer of the logger),

    followed by the properties of the specification that were checked
    against it, and by further properties of the code.

    Conventions.  A Go function that returns an [error] and mutates the
    database becomes a function in the monad [M]: the world is threaded
    explicitly and survives an error.  Everything that comes from outside
    the process (the answers of the language model, the embeddings, the
    pseudo random draws, the outcome of each storage call, the mailer) is
    read from an environment [Env], indexed by the number of earlier calls.
    [float64] values are kept abstract behind [Float64Ops]; the interface
    has two implementations, IEEE binary64 ([binary64], on which the code
    can be run) and exact real arithmetic ([exactR], rounding idealised). *)

From Stdlib Require Import ZArith String Ascii List Bool Floats Reals Lra Lia.
From stdpp Require Import base option gmap strings.

Open Scope Z_scope.

(** ** float64 *)

Class Float64Ops (F : Type) : Type := {
  f_of_Z : Z -> F;          (* float64(i), i an integer            *)
  f_add  : F -> F -> F;
  f_sub  : F -> F -> F;
  f_mul  : F -> F -> F;
  f_div  : F -> F -> F;
  f_sqrt : F -> F;          (* math.Sqrt                           *)
  f_pow  : F -> Z -> F;     (* math.Pow(x, float64(n)), n integer  *)
  f_ltb  : F -> F -> bool;  (* x < y                               *)
  f_eqb  : F -> F -> bool;  (* x == y                              *)
  f_trunc : F -> Z          (* integer part, fraction discarded    *)
}.

Declare Scope f64_scope.
Delimit Scope f64_scope with f64.
Infix "+" := f_add : f64_scope.
Infix "-" := f_sub : f64_scope.
Infix "*" := f_mul : f64_scope.
Infix "/" := f_div : f64_scope.
Infix "<?" := f_ltb : f64_scope.
Infix "=?" := f_eqb : f64_scope.

(** The decimal literal [m * 10^-k] of the Go source (0.2 is [f_dec 2 1]).
    Both operands are exact and the division rounds once, so in binary64
    this is the float64 nearest to the decimal, as the Go compiler has it. *)
Definition f_dec {F} `{Float64Ops F} (m : Z) (k : nat) : F :=
  (f_of_Z m / f_of_Z (10 ^ Z.of_nat k))%f64.

(** The conversions [int64(x)] and [int(x)] of a float64.  Out of range
    (and NaN) the result is platform dependent; amd64 yields [-2^63]. *)
Definition int64_of_float {F} `{Float64Ops F} (x : F) : Z :=
  let t := f_trunc x in
  if (- 2 ^ 63 <=? t) && (t <? 2 ^ 63) then t else - 2 ^ 63.

(** *** IEEE 754 binary64, one rounding per operation *)

Definition b64_of_Z (z : Z) : float :=
  if z <? 0 then PrimFloat.opp (PrimFloat.of_uint63 (Uint63.of_Z (- z)))
  else PrimFloat.of_uint63 (Uint63.of_Z z).

Definition b64_pow (x : float) (n : Z) : float :=
  match n with
  | Z0 => PrimFloat.one
  | Zpos p => Pos.iter (fun a => PrimFloat.mul a x) PrimFloat.one p
  | Zneg p =>
      PrimFloat.div PrimFloat.one
        (Pos.iter (fun a => PrimFloat.mul a x) PrimFloat.one p)
  end.

Definition b64_trunc (x : float) : Z :=
  match Prim2SF x with
  | S754_zero _ => 0
  | S754_finite s m e =>
      let mag := if 0 <=? e then Z.shiftl (Zpos m) e
                 else Z.shiftr (Zpos m) (- e) in
      if s then - mag else mag
  | _ => 2 ^ 63
  end.

#[export] Instance binary64 : Float64Ops float := {|
  f_of_Z := b64_of_Z;
  f_add := PrimFloat.add;
  f_sub := PrimFloat.sub;
  f_mul := PrimFloat.mul;
  f_div := PrimFloat.div;
  f_sqrt := PrimFloat.sqrt;
  f_pow := b64_pow;
  f_ltb := PrimFloat.ltb;
  f_eqb := PrimFloat.eqb;
  f_trunc := b64_trunc
|}.

(** *** Exact real arithmetic *)

Definition R_trunc (x : R) : Z :=
  if Rle_dec 0 x then Int_part x else (- Int_part (- x))%Z.

#[export] Instance exactR : Float64Ops R := {|
  f_of_Z := IZR;
  f_add := Rplus;
  f_sub := Rminus;
  f_mul := Rmult;
  f_div := Rdiv;
  f_sqrt := sqrt;
  f_pow := powerRZ;
  f_ltb := fun x y => if Rlt_dec x y then true else false;
  f_eqb := fun x y => if Req_dec_T x y then true else false;
  f_trunc := R_trunc
|}.

(** ** time.Duration (int64 nanoseconds) *)

Definition Second : Z := 1000000000.
Definition Minute : Z := 60 * Second.
Definition Hour : Z := 60 * Minute.

(** [d.Seconds()] *)
Definition Duration_Seconds {F} `{Float64Ops F} (d : Z) : F :=
  (f_of_Z (Z.quot d Second) + f_of_Z (Z.rem d Second) / f_of_Z (10 ^ 9))%f64.

Section Numeric.
Context {F : Type} `{Float64Ops F}.

(** ** The Gemini client: CalculateDivergence *)

(** The loop [for i := range emb1]: the three running sums. *)
Fixpoint divergence_sums (emb1 emb2 : list F) (acc : F * F * F) : F * F * F :=
  match emb1, emb2 with
  | x :: xs, y :: ys =>
      let '(dotProduct, mag1, mag2) := acc in
      divergence_sums xs ys
        (dotProduct + x * y, mag1 + x * x, mag2 + y * y)%f64
  | _, _ => acc
  end.

Definition CalculateDivergence (emb1 emb2 : list F) : F :=
  if (length emb1 =? 0)%nat || (length emb2 =? 0)%nat
     || negb (length emb1 =? length emb2)%nat
  then f_of_Z 1
  else
    let '(dotProduct, mag1, mag2) :=
      divergence_sums emb1 emb2 (f_of_Z 0, f_of_Z 0, f_of_Z 0) in
    if (mag1 =? f_of_Z 0)%f64 || (mag2 =? f_of_Z 0)%f64 then f_of_Z 0
    else
      let similarity := (dotProduct / (f_sqrt mag1 * f_sqrt mag2))%f64 in
      let divergence := (f_of_Z 1 - similarity)%f64 in
      let divergence :=
        if (divergence <? f_of_Z 0)%f64 then f_of_Z 0 else divergence in
      let divergence :=
        if (f_of_Z 1 <? divergence)%f64 then f_of_Z 1 else divergence in
      divergence.

(** ** evaluation.go: retry constants and calculateBackoffDelay *)

Definition MaxRetries : nat := 10.
Definition BaseRetryDelay : Z := 10 * Second.
Definition MaxRetryDelay : Z := 5 * Minute.
Definition BackoffMultiplier : F := f_of_Z 2.

(** [calculateBackoffDelay(retryCount)]; [u] is the value that
    [rand.Float64()] returns, a float64 in the interval [0, 1). *)
Definition calculateBackoffDelay (u : F) (retryCount : Z) : Z :=
  let delay := (f_of_Z BaseRetryDelay * f_pow BackoffMultiplier retryCount)%f64 in
  let jitter := (delay * f_dec 2 1 * u)%f64 in
  let delay := (delay + jitter)%f64 in
  let delay :=
    if (f_of_Z MaxRetryDelay <? delay)%f64 then f_of_Z MaxRetryDelay
    else delay in
  int64_of_float delay.

End Numeric.

(** ** Strings and errors *)

Open Scope string_scope.

Definition lower_ascii (c : ascii) : ascii :=
  let n := nat_of_ascii c in
  if (65 <=? n)%nat && (n <=? 90)%nat then ascii_of_nat (n + 32) else c.

(** [strings.ToLower], on the ASCII letters. *)
Fixpoint strings_ToLower (s : string) : string :=
  match s with
  | EmptyString => EmptyString
  | String c s' => String (lower_ascii c) (strings_ToLower s')
  end.

(** [strings.Contains(s, substr)] *)
Fixpoint strings_Contains (s substr : string) : bool :=
  if String.prefix substr s then true
  else match s with
       | EmptyString => false
       | String _ s' => strings_Contains s' substr
       end.

(** The error values the code tells apart: the two sentinels of
    evaluation.go, [sql.ErrNoRows], a [*googleapi.Error] with its HTTP
    code, any other error (known by its text only), and an error built by
    [fmt.Errorf] with one [%w] operand. *)
Inductive sentinel := ErrRateLimitExceeded | ErrTooManyRetries | sql_ErrNoRows.

Inductive error :=
  | Sentinel (s : sentinel)
  | ErrorString (msg : string)
  | GoogleAPIError (code : Z) (msg : string)
  | Wrapped (msg : string) (inner : error).

Definition sentinel_eqb (a b : sentinel) : bool :=
  match a, b with
  | ErrRateLimitExceeded, ErrRateLimitExceeded
  | ErrTooManyRetries, ErrTooManyRetries
  | sql_ErrNoRows, sql_ErrNoRows => true
  | _, _ => false
  end.

(** [err.Error()] *)
Definition Error (e : error) : string :=
  match e with
  | Sentinel ErrRateLimitExceeded => "rate limit exceeded"
  | Sentinel ErrTooManyRetries => "too many retries"
  | Sentinel sql_ErrNoRows => "sql: no rows in result set"
  | ErrorString msg => msg
  | GoogleAPIError _ msg => msg
  | Wrapped msg _ => msg
  end.

(** [fmt.Errorf(prefix + "%w", err)] *)
Definition Errorf_w (prefix : string) (err : error) : error :=
  Wrapped (prefix ++ Error err) err.

(** [errors.Is(err, target)] for a sentinel target. *)
Fixpoint errors_Is (err : error) (target : sentinel) : bool :=
  match err with
  | Sentinel s => sentinel_eqb s target
  | Wrapped _ inner => errors_Is inner target
  | _ => false
  end.

(** [errors.As(err, &apiErr)]: the code of the first [*googleapi.Error]
    of the chain. *)
Fixpoint errors_As_googleapi (err : error) : option Z :=
  match err with
  | GoogleAPIError code _ => Some code
  | Wrapped _ inner => errors_As_googleapi inner
  | _ => None
  end.

Definition rateLimitKeywords : list string :=
  ["quota exceeded"; "rate limit"; "too many requests";
   "RESOURCE_EXHAUSTED"; "429"].

Definition containsRateLimitKeywords (msg : string) : bool :=
  existsb
    (fun keyword =>
       strings_Contains (strings_ToLower msg) (strings_ToLower keyword))
    rateLimitKeywords.

Definition isRateLimitError (err : error) : bool :=
  match errors_As_googleapi err with
  | Some code => (code =? 429)%Z
  | None => containsRateLimitKeywords (Error err)
  end.

(** ** Data model (the tables of the schema, typed) *)

(** One turn of the transcript, [map[string]string] with the keys
    ["role"] and ["content"]. *)
Record Message := { role : string; content : string }.

(** The JSON payload of a job, as [json.Unmarshal] decodes it into the
    structs of the handlers; a key that is absent decodes to the zero value. *)
Record Payload := {
  json_valid : bool;
  p_evaluation_id : string;
  p_tenant_id : string;
  p_user_id : Z;
  p_prompt : string;
  p_is_retry : bool;
  p_to : string;
  p_subject : string;
  p_body : string;
  p_email : string;
  p_token : string;
  p_webhook_id : Z
}.

(** A row of [jobs].  Timestamps are whole seconds (SQLite's DATETIME);
    [None] is SQL NULL, as in [sql.NullInt64] and [sql.NullTime]. *)
Record Job := {
  job_id : Z;
  job_type : string;
  job_payload : Payload;
  job_status : string;
  job_attempt_count : option Z;
  job_last_error : option string;
  job_created_at : option Z
}.

Record Evaluation := {
  eval_tenant_id : string;
  eval_user_id : Z;
  eval_prompt_base : string;
  eval_status : string
}.

Section Model.
Context {F : Type} `{Float64Ops F}.

(** A row of [evaluation_checkpoints]. *)
Record Checkpoint := {
  current_phase : string;
  messages : list Message;
  embedding_inicial : option (list F);
  embedding_confronto : option (list F);
  divergencia_calculada : option F;
  diagnostico_final : option string;
  retry_count : Z;
  last_retry_at : option Z;
  next_retry_at : option Z
}.

Record Iteration := {
  it_evaluation_id : string;
  it_fase : string;
  it_resposta : string;
  it_embedding : option (list F)
}.

Record Audit := {
  au_evaluation_id : string;
  au_divergencia : F;
  au_diagnostico : string
}.

Record DB := {
  jobs : gmap Z Job;
  processed_jobs : gset Z;
  evaluations : gmap string Evaluation;
  evaluation_checkpoints : gmap string Checkpoint;
  iterations : list Iteration;      (* newest first *)
  audits : list Audit               (* newest first *)
}.

(** What the SSE broker was asked to publish. *)
Inductive SSEEvent :=
  | EvaluationProgress (evalID phaseName : string) (step total : Z)
  | EvaluationComplete (evalID diagnostico : string) (divergencia : F).

(** The process and what surrounds it.  The logs are newest first; the
    three [_sem] fields count the slots taken in each semaphore. *)
Record World := {
  db : DB;
  clock : Z;                              (* now, in seconds *)
  db_calls : nat;                         (* storage calls made so far *)
  gen_calls : list (list Message);        (* conversations sent to the model *)
  emb_calls : list string;                (* texts sent for embedding *)
  rand_calls : nat;
  mails : list (string * string * string);
  sse_events : list SSEEvent;
  handled : list string;                  (* handlers invoked, by job type *)
  geminiSemaphore : nat;
  emailSemaphore : nat;
  genericSemaphore : nat
}.

(** The collaborators outside the process.  Each one is asked with the
    number of earlier calls, so that a scenario can script them. *)
Record Env := {
  GenerateContentWithMessages : nat -> list Message -> string + error;
  EmbedContent : nat -> string -> option (list F);
  rand_Float64 : nat -> F;
  db_fault : nat -> option string;        (* the n-th storage call fails,
                                             with this driver message *)
  mailer_Send : nat -> option error;
  NewGeminiClient : option error;
  Duration_String : Z -> string;          (* Go's formatting of a Duration *)
  Time_String : Z -> string               (* Go's formatting of a Time *)
}.

End Model.

Arguments Checkpoint F : clear implicits.
Arguments Iteration F : clear implicits.
Arguments Audit F : clear implicits.
Arguments DB F : clear implicits.
Arguments SSEEvent F : clear implicits.
Arguments World F : clear implicits.
Arguments Env F : clear implicits.

(** ** The monad of the Go functions *)

Inductive result (A : Type) :=
  | Ok (a : A)
  | Err (e : error).
Arguments Ok {A} a.
Arguments Err {A} e.

Section Monad.
Context {F : Type}.

Definition M (A : Type) : Type := World F -> result A * World F.

Definition ret {A} (a : A) : M A := fun w => (Ok a, w).

Definition fail {A} (e : error) : M A := fun w => (Err e, w).

Definition bind {A B} (m : M A) (k : A -> M B) : M B :=
  fun w =>
    match m w with
    | (Ok a, w') => k a w'
    | (Err e, w') => (Err e, w')
    end.

(** [r, err := f()] with both outcomes kept as a value. *)
Definition catch {A} (m : M A) : M (result A) :=
  fun w => let '(r, w') := m w in (Ok r, w').

(** [_ = f()] *)
Definition ignore {A} (m : M A) : M unit :=
  fun w => let '(_, w') := m w in (Ok tt, w').

(** [if err != nil { return wrap(err) }] *)
Definition on_error {A} (wrap : error -> error) (m : M A) : M A :=
  fun w =>
    match m w with
    | (Err e, w') => (Err (wrap e), w')
    | r => r
    end.

Definition get : M (World F) := fun w => (Ok w, w).

Definition modify (f : World F -> World F) : M unit := fun w => (Ok tt, f w).

End Monad.

Arguments M F A : clear implicits.

Notation "x <- m ;; k" := (bind m (fun x => k))
  (at level 100, m at next level, right associativity).
Notation "m ;;; k" := (bind m (fun _ => k))
  (at level 100, right associativity).

(** ** Field updates *)

Section Setters.
Context {F : Type}.

Definition set_db (d : DB F) (w : World F) : World F :=
  {| db := d; clock := clock w; db_calls := db_calls w;
     gen_calls := gen_calls w; emb_calls := emb_calls w;
     rand_calls := rand_calls w; mails := mails w;
     sse_events := sse_events w; handled := handled w;
     geminiSemaphore := geminiSemaphore w;
     emailSemaphore := emailSemaphore w;
     genericSemaphore := genericSemaphore w |}.

Definition set_db_calls (n : nat) (w : World F) : World F :=
  {| db := db w; clock := clock w; db_calls := n;
     gen_calls := gen_calls w; emb_calls := emb_calls w;
     rand_calls := rand_calls w; mails := mails w;
     sse_events := sse_events w; handled := handled w;
     geminiSemaphore := geminiSemaphore w;
     emailSemaphore := emailSemaphore w;
     genericSemaphore := genericSemaphore w |}.

Definition set_gen_calls (l : list (list Message)) (w : World F) : World F :=
  {| db := db w; clock := clock w; db_calls := db_calls w;
     gen_calls := l; emb_calls := emb_calls w;
     rand_calls := rand_calls w; mails := mails w;
     sse_events := sse_events w; handled := handled w;
     geminiSemaphore := geminiSemaphore w;
     emailSemaphore := emailSemaphore w;
     genericSemaphore := genericSemaphore w |}.

Definition set_emb_calls (l : list string) (w : World F) : World F :=
  {| db := db w; clock := clock w; db_calls := db_calls w;
     gen_calls := gen_calls w; emb_calls := l;
     rand_calls := rand_calls w; mails := mails w;
     sse_events := sse_events w; handled := handled w;
     geminiSemaphore := geminiSemaphore w;
     emailSemaphore := emailSemaphore w;
     genericSemaphore := genericSemaphore w |}.

Definition set_rand_calls (n : nat) (w : World F) : World F :=
  {| db := db w; clock := clock w; db_calls := db_calls w;
     gen_calls := gen_calls w; emb_calls := emb_calls w;
     rand_calls := n; mails := mails w;
     sse_events := sse_events w; handled := handled w;
     geminiSemaphore := geminiSemaphore w;
     emailSemaphore := emailSemaphore w;
     genericSemaphore := genericSemaphore w |}.

Definition set_mails (l : list (string * string * string)) (w : World F)
  : World F :=
  {| db := db w; clock := clock w; db_calls := db_calls w;
     gen_calls := gen_calls w; emb_calls := emb_calls w;
     rand_calls := rand_calls w; mails := l;
     sse_events := sse_events w; handled := handled w;
     geminiSemaphore := geminiSemaphore w;
     emailSemaphore := emailSemaphore w;
     genericSemaphore := genericSemaphore w |}.

Definition set_sse_events (l : list (SSEEvent F)) (w : World F) : World F :=
  {| db := db w; clock := clock w; db_calls := db_calls w;
     gen_calls := gen_calls w; emb_calls := emb_calls w;
     rand_calls := rand_calls w; mails := mails w;
     sse_events := l; handled := handled w;
     geminiSemaphore := geminiSemaphore w;
     emailSemaphore := emailSemaphore w;
     genericSemaphore := genericSemaphore w |}.

Definition set_handled (l : list string) (w : World F) : World F :=
  {| db := db w; clock := clock w; db_calls := db_calls w;
     gen_calls := gen_calls w; emb_calls := emb_calls w;
     rand_calls := rand_calls w; mails := mails w;
     sse_events := sse_events w; handled := l;
     geminiSemaphore := geminiSemaphore w;
     emailSemaphore := emailSemaphore w;
     genericSemaphore := genericSemaphore w |}.

Definition set_semaphores (g e x : nat) (w : World F) : World F :=
  {| db := db w; clock := clock w; db_calls := db_calls w;
     gen_calls := gen_calls w; emb_calls := emb_calls w;
     rand_calls := rand_calls w; mails := mails w;
     sse_events := sse_events w; handled := handled w;
     geminiSemaphore := g; emailSemaphore := e; genericSemaphore := x |}.

Definition set_jobs (j : gmap Z Job) (d : DB F) : DB F :=
  {| jobs := j; processed_jobs := processed_jobs d;
     evaluations := evaluations d;
     evaluation_checkpoints := evaluation_checkpoints d;
     iterations := iterations d; audits := audits d |}.

Definition set_processed_jobs (p : gset Z) (d : DB F) : DB F :=
  {| jobs := jobs d; processed_jobs := p;
     evaluations := evaluations d;
     evaluation_checkpoints := evaluation_checkpoints d;
     iterations := iterations d; audits := audits d |}.

Definition set_evaluations (e : gmap string Evaluation) (d : DB F) : DB F :=
  {| jobs := jobs d; processed_jobs := processed_jobs d;
     evaluations := e;
     evaluation_checkpoints := evaluation_checkpoints d;
     iterations := iterations d; audits := audits d |}.

Definition set_evaluation_checkpoints (c : gmap string (Checkpoint F))
  (d : DB F) : DB F :=
  {| jobs := jobs d; processed_jobs := processed_jobs d;
     evaluations := evaluations d;
     evaluation_checkpoints := c;
     iterations := iterations d; audits := audits d |}.

Definition set_iterations (l : list (Iteration F)) (d : DB F) : DB F :=
  {| jobs := jobs d; processed_jobs := processed_jobs d;
     evaluations := evaluations d;
     evaluation_checkpoints := evaluation_checkpoints d;
     iterations := l; audits := audits d |}.

Definition set_audits (l : list (Audit F)) (d : DB F) : DB F :=
  {| jobs := jobs d; processed_jobs := processed_jobs d;
     evaluations := evaluations d;
     evaluation_checkpoints := evaluation_checkpoints d;
     iterations := iterations d; audits := l |}.

End Setters.

(** ** Storage *)

Definition nl : string := String (ascii_of_nat 10) EmptyString.

Section Storage.
Context {F : Type} `{Float64Ops F} (env : Env F).
Local Abbreviation M := (M F).

(** One call to the database.  The environment decides whether the call
    fails; a failed call (a lost connection, a cancelled context, a
    violated constraint) changes nothing and returns the driver's error,
    which is never [sql.ErrNoRows].  [q] receives the current time for
    [CURRENT_TIMESTAMP] and [datetime('now', ...)]. *)
Definition storage {A} (q : Z -> DB F -> result A * DB F) : M A :=
  fun w =>
    let w1 := set_db_calls (S (db_calls w)) w in
    match db_fault env (db_calls w) with
    | Some msg => (Err (ErrorString msg), w1)
    | None => let '(r, d) := q (clock w) (db w) in (r, set_db d w1)
    end.

Definition exec (upd : Z -> DB F -> DB F) : M unit :=
  storage (fun now d => (Ok tt, upd now d)).

Definition on_checkpoint (evalID : string)
  (f : Checkpoint F -> Checkpoint F) (d : DB F) : DB F :=
  set_evaluation_checkpoints (alter f evalID (evaluation_checkpoints d)) d.

(** *** evaluations.sql, row by row *)

Definition new_checkpoint (phase : string) (msgs : list Message)
  : Checkpoint F :=
  {| current_phase := phase; messages := msgs;
     embedding_inicial := None; embedding_confronto := None;
     divergencia_calculada := None; diagnostico_final := None;
     retry_count := 0; last_retry_at := None; next_retry_at := None |}.

Definition cp_set_phase (phase : string) (cp : Checkpoint F) : Checkpoint F :=
  {| current_phase := phase; messages := messages cp;
     embedding_inicial := embedding_inicial cp;
     embedding_confronto := embedding_confronto cp;
     divergencia_calculada := divergencia_calculada cp;
     diagnostico_final := diagnostico_final cp;
     retry_count := retry_count cp;
     last_retry_at := last_retry_at cp;
     next_retry_at := next_retry_at cp |}.

Definition cp_set_messages (msgs : list Message) (cp : Checkpoint F)
  : Checkpoint F :=
  {| current_phase := current_phase cp; messages := msgs;
     embedding_inicial := embedding_inicial cp;
     embedding_confronto := embedding_confronto cp;
     divergencia_calculada := divergencia_calculada cp;
     diagnostico_final := diagnostico_final cp;
     retry_count := retry_count cp;
     last_retry_at := last_retry_at cp;
     next_retry_at := next_retry_at cp |}.

Definition cp_set_embeddings (embInicial embConfronto : option (list F))
  (cp : Checkpoint F) : Checkpoint F :=
  {| current_phase := current_phase cp; messages := messages cp;
     embedding_inicial := embInicial;
     embedding_confronto := embConfronto;
     divergencia_calculada := divergencia_calculada cp;
     diagnostico_final := diagnostico_final cp;
     retry_count := retry_count cp;
     last_retry_at := last_retry_at cp;
     next_retry_at := next_retry_at cp |}.

Definition cp_set_divergence (divergencia : option F)
  (diagnostico : option string) (cp : Checkpoint F) : Checkpoint F :=
  {| current_phase := current_phase cp; messages := messages cp;
     embedding_inicial := embedding_inicial cp;
     embedding_confronto := embedding_confronto cp;
     divergencia_calculada := divergencia;
     diagnostico_final := diagnostico;
     retry_count := retry_count cp;
     last_retry_at := last_retry_at cp;
     next_retry_at := next_retry_at cp |}.

(** [datetime('now', '+N seconds')]; a text that is not a valid modifier
    (a negative N after the plus sign) yields NULL. *)
Definition cp_retry (now delaySeconds : Z) (cp : Checkpoint F)
  : Checkpoint F :=
  {| current_phase := current_phase cp; messages := messages cp;
     embedding_inicial := embedding_inicial cp;
     embedding_confronto := embedding_confronto cp;
     divergencia_calculada := divergencia_calculada cp;
     diagnostico_final := diagnostico_final cp;
     retry_count := retry_count cp + 1;
     last_retry_at := Some now;
     next_retry_at :=
       if (0 <=? delaySeconds)%Z then Some (now + delaySeconds)%Z
       else None |}.

Definition cp_clear_retry (cp : Checkpoint F) : Checkpoint F :=
  {| current_phase := current_phase cp; messages := messages cp;
     embedding_inicial := embedding_inicial cp;
     embedding_confronto := embedding_confronto cp;
     divergencia_calculada := divergencia_calculada cp;
     diagnostico_final := diagnostico_final cp;
     retry_count := 0;
     last_retry_at := last_retry_at cp;
     next_retry_at := None |}.

(** [CreateCheckpoint]: insert, or on conflict update phase and messages. *)
Definition CreateCheckpoint (evalID phase : string) (msgs : list Message)
  : M unit :=
  exec (fun _ d =>
    set_evaluation_checkpoints
      (partial_alter
         (fun row =>
            Some match row with
                 | Some cp => cp_set_messages msgs (cp_set_phase phase cp)
                 | None => new_checkpoint phase msgs
                 end)
         evalID (evaluation_checkpoints d)) d).

(** [GetCheckpoint :one]: [sql.ErrNoRows] when there is no row. *)
Definition GetCheckpoint (evalID : string) : M (Checkpoint F) :=
  storage (fun _ d =>
    match evaluation_checkpoints d !! evalID with
    | Some cp => (Ok cp, d)
    | None => (Err (Sentinel sql_ErrNoRows), d)
    end).

Definition UpdateCheckpointPhase (phase evalID : string) : M unit :=
  exec (fun _ => on_checkpoint evalID (cp_set_phase phase)).

Definition UpdateCheckpointMessages (msgs : list Message) (evalID : string)
  : M unit :=
  exec (fun _ => on_checkpoint evalID (cp_set_messages msgs)).

(** [UpdateCheckpointEmbeddings]: both columns are assigned. *)
Definition UpdateCheckpointEmbeddings (embInicial embConfronto : option (list F))
  (evalID : string) : M unit :=
  exec (fun _ =>
    on_checkpoint evalID (cp_set_embeddings embInicial embConfronto)).

Definition UpdateCheckpointDivergence (divergencia : option F)
  (diagnostico : option string) (evalID : string) : M unit :=
  exec (fun _ =>
    on_checkpoint evalID (cp_set_divergence divergencia diagnostico)).

Definition UpdateCheckpointRetry (delaySeconds : Z) (evalID : string)
  : M unit :=
  exec (fun now => on_checkpoint evalID (cp_retry now delaySeconds)).

Definition ClearCheckpointRetry (evalID : string) : M unit :=
  exec (fun _ => on_checkpoint evalID cp_clear_retry).

(** [GetEvaluationsToRetry]: the identifiers of the evaluations in status
    ['processing'] whose checkpoint has a next-retry time that has passed. *)
Definition GetEvaluationsToRetry_rows (now : Z) (d : DB F) : list string :=
  map fst
    (filter
       (fun row : string * Evaluation =>
          String.eqb (eval_status row.2) "processing"
          && match evaluation_checkpoints d !! row.1 with
             | Some cp =>
                 match next_retry_at cp with
                 | Some t => (t <=? now)%Z
                 | None => false
                 end
             | None => false
             end = true)
       (map_to_list (evaluations d))).

(** *** Queries whose text is not part of the sources *)

Definition set_status (status : string) (e : Evaluation) : Evaluation :=
  {| eval_tenant_id := eval_tenant_id e; eval_user_id := eval_user_id e;
     eval_prompt_base := eval_prompt_base e; eval_status := status |}.

Definition on_evaluation (evalID : string) (f : Evaluation -> Evaluation)
  (d : DB F) : DB F :=
  set_evaluations (alter f evalID (evaluations d)) d.

(** Modelled from the spec: the query [UpdateEvaluationStatus] (its SQL
    text is missing); it sets the status of the evaluation named. *)
Definition UpdateEvaluationStatus (status evalID : string) : M unit :=
  exec (fun _ => on_evaluation evalID (set_status status)).

(** Modelled from the spec: the query [CreateIteration] (its SQL text is
    missing); iterations are append-only.  The fresh UUID is left out. *)
Definition CreateIteration (it : Iteration F) : M unit :=
  exec (fun _ d => set_iterations (it :: iterations d) d).

(** Modelled from the spec: the query [CreateAudit] (its SQL text is
    missing); one row with divergence and diagnosis. *)
Definition CreateAudit (a : Audit F) : M unit :=
  exec (fun _ d => set_audits (a :: audits d) d).

Definition on_job (id : Z) (f : Job -> Job) (d : DB F) : DB F :=
  set_jobs (alter f id (jobs d)) d.

Definition complete_job (j : Job) : Job :=
  {| job_id := job_id j; job_type := job_type j;
     job_payload := job_payload j; job_status := "completed";
     job_attempt_count := job_attempt_count j;
     job_last_error := job_last_error j;
     job_created_at := job_created_at j |}.

Definition fail_job (lastError : option string) (j : Job) : Job :=
  {| job_id := job_id j; job_type := job_type j;
     job_payload := job_payload j; job_status := "failed";
     job_attempt_count := option_map Z.succ (job_attempt_count j);
     job_last_error := lastError;
     job_created_at := job_created_at j |}.

(** Modelled from the spec: the query [PickNextJob] (its SQL text is
    missing).  The row it claims is an input, [pick]; an empty queue is
    the error [sql.ErrNoRows]. *)
Definition PickNextJob (pick : option Job) : M Job :=
  storage (fun _ d =>
    match pick with
    | Some j => (Ok j, d)
    | None => (Err (Sentinel sql_ErrNoRows), d)
    end).

(** Modelled from the spec: the query [IsJobProcessed] (its SQL text is
    missing); 1 when the idempotency ledger has the job, else 0. *)
Definition IsJobProcessed (id : Z) : M Z :=
  storage (fun _ d =>
    (Ok (if decide (id ∈ processed_jobs d) then 1 else 0)%Z, d)).

(** Modelled from the spec: the query [CompleteJob] (its SQL text is
    missing); the job becomes [completed]. *)
Definition CompleteJob (id : Z) : M unit :=
  exec (fun _ => on_job id complete_job).

(** Modelled from the spec: the query [FailJob] (its SQL text is missing);
    the job becomes [failed], its attempt count grows by one and the
    error text is kept. *)
Definition FailJob (lastError : option string) (id : Z) : M unit :=
  exec (fun _ => on_job id (fail_job lastError)).

(** *** Transactions

    [BeginTx] hands out a private copy of the tables; the statements of
    [WithTx] write to the copy; [Commit] installs it; the deferred
    [Rollback] drops it.  Each of the calls can fail. *)
Definition BeginTx : M (DB F) := storage (fun _ d => (Ok d, d)).

Definition tx_exec (upd : DB F -> DB F) (tx : DB F) : M (DB F) :=
  storage (fun _ d => (Ok (upd tx), d)).

Definition Commit (tx : DB F) : M unit := storage (fun _ _ => (Ok tt, tx)).

(** Modelled from the spec: the query [RecordJobProcessed] (its SQL text
    is missing); it adds the job to the idempotency ledger. *)
Definition qtx_RecordJobProcessed (id : Z) : DB F -> M (DB F) :=
  tx_exec (fun tx => set_processed_jobs ({[ id ]} ∪ processed_jobs tx) tx).

Definition qtx_CompleteJob (id : Z) : DB F -> M (DB F) :=
  tx_exec (on_job id complete_job).

End Storage.

(** ** evaluation.go: the protocol *)

Section Service.
Context {F : Type} `{Float64Ops F} (env : Env F).
Local Abbreviation M := (M F).

(** [s.geminiClient.GenerateContentWithMessages(ctx, mensagens)] *)
Definition generateContent (mensagens : list Message) : M string :=
  fun w =>
    let w1 := set_gen_calls (mensagens :: gen_calls w) w in
    match GenerateContentWithMessages env (length (gen_calls w)) mensagens with
    | inl text => (Ok text, w1)
    | inr e => (Err e, w1)
    end.

(** [v, _ := s.geminiClient.EmbedContent(ctx, text)]: the error is
    dropped and the vector is then nil. *)
Definition embedContent (text : string) : M (list F) :=
  fun w =>
    let w1 := set_emb_calls (text :: emb_calls w) w in
    (Ok (default [] (EmbedContent env (length (emb_calls w)) text)), w1).

Definition randFloat64 : M F :=
  fun w => (Ok (rand_Float64 env (rand_calls w)),
            set_rand_calls (S (rand_calls w)) w).

Definition SendEvaluationProgress (evalID phaseName : string) (step total : Z)
  : M unit :=
  modify (fun w =>
    set_sse_events (EvaluationProgress evalID phaseName step total
                      :: sse_events w) w).

Definition SendEvaluationComplete (evalID diagnostico : string)
  (divergencia : F) : M unit :=
  modify (fun w =>
    set_sse_events (EvaluationComplete evalID diagnostico divergencia
                      :: sse_events w) w).

(** A nil slice stores NULL, any other slice its JSON text. *)
Definition embedding_column (emb : list F) : option (list F) :=
  match emb with [] => None | _ => Some emb end.

Definition saveCheckpoint (evalID phase : string) (msgs : list Message)
  : M unit :=
  CreateCheckpoint env evalID phase msgs.

Definition loadCheckpoint (evalID : string) : M (option (Checkpoint F)) :=
  r <- catch (GetCheckpoint env evalID) ;;
  match r with
  | Ok cp => ret (Some cp)
  | Err e =>
      if errors_Is e sql_ErrNoRows then ret None
      else fail (Errorf_w "failed to get checkpoint: " e)
  end.

Definition updateCheckpointRetry (evalID : string) (delaySeconds : Z)
  : M unit :=
  UpdateCheckpointRetry env delaySeconds evalID.

Definition clearCheckpointRetry (evalID : string) : M unit :=
  ClearCheckpointRetry env evalID.

Definition saveIteration (evalID fase resposta : string) (embedding : list F)
  : M unit :=
  ignore (CreateIteration env
            {| it_evaluation_id := evalID; it_fase := fase;
               it_resposta := resposta;
               it_embedding := embedding_column embedding |}).

Definition saveCheckpointWithEmbeddings (evalID phase : string)
  (mensagens : list Message) (embInicial embConfronto : list F) : M unit :=
  on_error (Errorf_w "failed to update checkpoint phase: ")
    (UpdateCheckpointPhase env phase evalID) ;;;
  UpdateCheckpointEmbeddings env (embedding_column embInicial)
    (embedding_column embConfronto) evalID.

(** The loop of [callWithRetry], [remaining] iterations from [attempt] on. *)
Fixpoint callWithRetry_loop (remaining : nat) (attempt : Z)
  (lastErr : option error) (evalID : string) (mensagens : list Message)
  : M string :=
  match remaining with
  | O =>
      fail (Wrapped
              (Error (Sentinel ErrTooManyRetries) ++ " after "
                 ++ pretty.pretty MaxRetries ++ " attempts: "
                 ++ match lastErr with
                    | Some e => Error e
                    | None => "<nil>"
                    end)
              (Sentinel ErrTooManyRetries))
  | S remaining' =>
      r <- catch (generateContent mensagens) ;;
      match r with
      | Ok result =>
          (if (0 <? attempt)%Z then ignore (clearCheckpointRetry evalID)
           else ret tt) ;;;
          ret result
      | Err err =>
          if isRateLimitError err then
            u <- randFloat64 ;;
            let delay := calculateBackoffDelay u attempt in
            let delaySeconds := int64_of_float (Duration_Seconds delay) in
            ignore (updateCheckpointRetry evalID delaySeconds) ;;;
            on_error (Errorf_w "failed to update status to retrying: ")
              (UpdateEvaluationStatus env "retrying" evalID) ;;;
            fail (Wrapped
                    (Error (Sentinel ErrRateLimitExceeded) ++ ": "
                       ++ Error err ++ " (retry in "
                       ++ Duration_String env delay ++ ")")
                    (Sentinel ErrRateLimitExceeded))
          else
            callWithRetry_loop remaining' (attempt + 1)%Z (Some err)
              evalID mensagens
      end
  end.

Definition callWithRetry (evalID phase : string) (mensagens : list Message)
  : M string :=
  callWithRetry_loop MaxRetries 0%Z None evalID mensagens.

Definition instrucao_inversao : string :=
  "Forneça a resolução utilizando o paradigma técnico diametralmente oposto ao da resposta anterior. Justifique.".

Definition instrucao_confronto : string :=
  "A solução primária falhou na compilação estrutural e baseia-se em documentação depreciada. Identifique o erro e corrija imediatamente.".

Definition prompt_purga (r1 : string) : string :=
  "Audite a solução abaixo. Aponte falhas lógicas e alucinações de forma determinística:"
    ++ nl ++ nl ++ r1.

(** The phases receive [*mensagens], [*emb1] and [*emb3] by pointer; here
    they return the values that the pointers hold afterwards. *)
Definition runPhaseInicial (evalID prompt : string)
  (mensagens : list Message) : M (list Message * list F) :=
  SendEvaluationProgress evalID "Consulta Inicial" 1 5 ;;;
  let mensagens := app mensagens [{| role := "user"; content := prompt |}] in
  r1 <- on_error (Errorf_w "falha na consulta inicial: ")
          (callWithRetry evalID "inicial" mensagens) ;;
  emb1Data <- embedContent r1 ;;
  saveIteration evalID "inicial" r1 emb1Data ;;;
  let emb1 := emb1Data in
  let mensagens := app mensagens [{| role := "assistant"; content := r1 |}] in
  on_error (Errorf_w "failed to update checkpoint phase: ")
    (UpdateCheckpointPhase env "inversao" evalID) ;;;
  on_error (Errorf_w "failed to update checkpoint messages: ")
    (UpdateCheckpointMessages env mensagens evalID) ;;;
  saveCheckpointWithEmbeddings evalID "inversao" mensagens emb1 [] ;;;
  ret (mensagens, emb1).

Definition runPhaseInversao (evalID : string) (mensagens : list Message)
  : M (list Message) :=
  SendEvaluationProgress evalID "Inversão de Lógica" 2 5 ;;;
  let mensagens :=
    app mensagens [{| role := "user"; content := instrucao_inversao |}] in
  r2 <- on_error (Errorf_w "falha na inversão de lógica: ")
          (callWithRetry evalID "inversao" mensagens) ;;
  saveIteration evalID "inversao" r2 [] ;;;
  let mensagens := app mensagens [{| role := "assistant"; content := r2 |}] in
  on_error (Errorf_w "failed to update checkpoint phase: ")
    (UpdateCheckpointPhase env "confronto" evalID) ;;;
  UpdateCheckpointMessages env mensagens evalID ;;;
  ret mensagens.

Definition runPhaseConfronto (evalID : string) (mensagens : list Message)
  : M (list Message * list F) :=
  SendEvaluationProgress evalID "Confronto Falso" 3 5 ;;;
  let mensagens :=
    app mensagens [{| role := "user"; content := instrucao_confronto |}] in
  r3 <- on_error (Errorf_w "falha no confronto falso: ")
          (callWithRetry evalID "confronto" mensagens) ;;
  emb3Data <- embedContent r3 ;;
  saveIteration evalID "confronto" r3 emb3Data ;;;
  let emb3 := emb3Data in
  on_error (Errorf_w "failed to update checkpoint phase: ")
    (UpdateCheckpointPhase env "calculo" evalID) ;;;
  on_error (Errorf_w "failed to update checkpoint messages: ")
    (UpdateCheckpointMessages env mensagens evalID) ;;;
  saveCheckpointWithEmbeddings evalID "calculo" mensagens [] emb3 ;;;
  ret (mensagens, emb3).

Definition runPhaseCalculo (evalID : string) (emb1 emb3 : list F)
  : M (F * string) :=
  SendEvaluationProgress evalID "Cálculo de Divergência" 4 5 ;;;
  let divergencia := CalculateDivergence emb1 emb3 in
  let diagnostico :=
    if (f_dec 25 2 <? divergencia)%f64 then "Alucinação Confirmada"
    else "Resistência Estrutural" in
  on_error (Errorf_w "failed to save divergence: ")
    (UpdateCheckpointDivergence env (Some divergencia) (Some diagnostico)
       evalID) ;;;
  ret (divergencia, diagnostico).

(** The first turn of the assistant, or the empty string. *)
Definition primeira_resposta (mensagens : list Message) : string :=
  match List.find (fun msg => String.eqb (role msg) "assistant") mensagens with
  | Some msg => content msg
  | None => ""
  end.

Definition runPhasePurga (evalID : string) (divergencia : F)
  (diagnostico : string) (mensagens : list Message) (emb1 emb3 : list F)
  : M unit :=
  SendEvaluationProgress evalID "Purga e Auditoria" 5 5 ;;;
  let r1 := primeira_resposta mensagens in
  let contextoLimpo := [{| role := "user"; content := prompt_purga r1 |}] in
  r5 <- on_error (Errorf_w "falha na purga e auditoria: ")
          (callWithRetry evalID "purga" contextoLimpo) ;;
  saveIteration evalID "purga" r5 [] ;;;
  on_error (Errorf_w "falha ao salvar auditoria: ")
    (CreateAudit env {| au_evaluation_id := evalID;
                        au_divergencia := divergencia;
                        au_diagnostico := diagnostico |}) ;;;
  on_error (Errorf_w "falha ao atualizar status: ")
    (UpdateEvaluationStatus env "completed" evalID) ;;;
  ignore (clearCheckpointRetry evalID) ;;;
  SendEvaluationComplete evalID diagnostico divergencia.

(** The [switch currentPhase] with its [fallthrough]s: each case runs
    into the next one. *)
Definition case_purga (evalID : string) (divergencia : F)
  (diagnostico : string) (mensagens : list Message) (emb1 emb3 : list F)
  : M unit :=
  runPhasePurga evalID divergencia diagnostico mensagens emb1 emb3.

Definition case_calculo (evalID : string) (mensagens : list Message)
  (emb1 emb3 : list F) : M unit :=
  r <- runPhaseCalculo evalID emb1 emb3 ;;
  case_purga evalID r.1 r.2 mensagens emb1 emb3.

Definition case_confronto (evalID : string) (mensagens : list Message)
  (emb1 : list F) : M unit :=
  r <- runPhaseConfronto evalID mensagens ;;
  case_calculo evalID r.1 emb1 r.2.

Definition case_inversao (evalID : string) (mensagens : list Message)
  (emb1 : list F) : M unit :=
  mensagens <- runPhaseInversao evalID mensagens ;;
  case_confronto evalID mensagens emb1.

Definition case_inicial (evalID prompt : string) (mensagens : list Message)
  : M unit :=
  r <- runPhaseInicial evalID prompt mensagens ;;
  case_inversao evalID r.1 r.2.

Definition RunEvaluationProtocolWithCheckpoint (evalID prompt : string)
  : M unit :=
  checkpoint <- on_error (Errorf_w "failed to load checkpoint: ")
                  (loadCheckpoint evalID) ;;
  w <- get ;;
  st <- match checkpoint with
        | Some cp =>
            match next_retry_at cp with
            | Some t =>
                if (clock w <? t)%Z then
                  fail (ErrorString
                          ("evaluation still in retry wait until "
                             ++ Time_String env t))
                else ret tt
            | None => ret tt
            end ;;;
            (* the stored transcript is the JSON the code wrote itself *)
            ret (messages cp, current_phase cp,
                 default [] (embedding_inicial cp),
                 default [] (embedding_confronto cp))
        | None =>
            on_error (Errorf_w "failed to save initial checkpoint: ")
              (saveCheckpoint evalID "inicial" []) ;;;
            ret ([], "inicial", [], [])
        end ;;
  let '(mensagens, currentPhase, emb1, emb3) := st in
  (* var divergencia float64; var diagnostico string *)
  let divergencia := f_of_Z 0 in
  let diagnostico := "" in
  if String.eqb currentPhase "inicial" then
    case_inicial evalID prompt mensagens
  else if String.eqb currentPhase "inversao" then
    case_inversao evalID mensagens emb1
  else if String.eqb currentPhase "confronto" then
    case_confronto evalID mensagens emb1
  else if String.eqb currentPhase "calculo" then
    case_calculo evalID mensagens emb1 emb3
  else if String.eqb currentPhase "purga" then
    case_purga evalID divergencia diagnostico mensagens emb1 emb3
  else ret tt.

Definition RunEvaluationProtocol (evalID prompt : string) : M unit :=
  RunEvaluationProtocolWithCheckpoint evalID prompt.

(** [NewEvaluationService]: fails when the Gemini client cannot be made. *)
Definition NewEvaluationService : M unit :=
  match NewGeminiClient env with
  | Some e => fail (Errorf_w "failed to create Gemini client: " e)
  | None => ret tt
  end.

End Service.

(** ** Package worker: the processor *)

Definition MaxConcurrentGeminiJobs : nat := 5.
Definition MaxConcurrentEmailJobs : nat := 10.
Definition MaxConcurrentGenericJobs : nat := 20.

Inductive semaphore := GeminiSem | EmailSem | GenericSem.

Definition getSemaphoreForJob (jobType : string) : semaphore :=
  if String.eqb jobType "run_evaluation" || String.eqb jobType "process_ai"
  then GeminiSem
  else if String.eqb jobType "send_email"
          || String.eqb jobType "send_password_reset_email"
          || String.eqb jobType "send_verification_email"
  then EmailSem
  else GenericSem.

Definition maxDuration : Z := 2 ^ 63 - 1.
Definition minDuration : Z := - 2 ^ 63.

(** [time.Since(t)], saturating as [Time.Sub] does. *)
Definition time_Since (now t : Z) : Z :=
  Z.max minDuration (Z.min maxDuration ((now - t) * Second)).

(** [shouldMoveToDeadLetterQueue], at time [now]. *)
Definition shouldMoveToDeadLetterQueue (now : Z) (job : Job) : bool :=
  let maxAttempts := 5%Z in
  let attemptCount := default 0%Z (job_attempt_count job) in
  if (maxAttempts <=? attemptCount)%Z then true
  else
    match job_created_at job with
    | None => true
    | Some created =>
        if (24 * Hour <? time_Since now created)%Z then true else false
    end.

Definition getJobStatus (err : option error) : string :=
  match err with None => "success" | Some _ => "failed" end.

Section Worker.
Context {F : Type} `{Float64Ops F} (env : Env F).
Local Abbreviation M := (M F).

(** [json.Unmarshal(payload, &data)] *)
Definition json_Unmarshal (payload : Payload) : M Payload :=
  if json_valid payload then ret payload
  else fail (ErrorString "invalid character in JSON payload").

(** [p.mailer.Send(to, subject, body)] *)
Definition mailerSend (to subject body : string) : M unit :=
  fun w =>
    let w1 := set_mails ((to, subject, body) :: mails w) w in
    match mailer_Send env (length (mails w)) with
    | Some e => (Err e, w1)
    | None => (Ok tt, w1)
    end.

Definition handleSendEmail (payload : Payload) : M unit :=
  data <- json_Unmarshal payload ;;
  mailerSend (p_to data) (p_subject data) (p_body data).

Definition handleSendVerificationEmail (payload : Payload) : M unit :=
  data <- json_Unmarshal payload ;;
  let subject := "Verifique seu E-mail" in
  let body :=
    "Olá," ++ nl ++ nl
      ++ "Bem-vindo! Clique no link abaixo para verificar seu e-mail:"
      ++ nl ++ nl
      ++ "http://localhost:8080/verify-email?token=" ++ p_token data in
  mailerSend (p_email data) subject body.

Definition handleSendPasswordResetEmail (payload : Payload) : M unit :=
  data <- json_Unmarshal payload ;;
  let subject := "Recuperação de Senha" in
  let body :=
    "Olá," ++ nl ++ nl
      ++ "Clique no link abaixo para redefinir sua senha:" ++ nl ++ nl
      ++ "http://localhost:8080/reset-password?token=" ++ p_token data
      ++ nl ++ nl ++ "Este link expira em 1 hora." in
  mailerSend (p_email data) subject body.

Definition handleProcessAI (payload : Payload) : M unit :=
  _ <- json_Unmarshal payload ;;
  ret tt.

Definition handleProcessWebhook (payload : Payload) : M unit :=
  _ <- json_Unmarshal payload ;;
  ret tt.

Definition handleRunEvaluation (payload : Payload) : M unit :=
  data <- on_error (Errorf_w "failed to unmarshal evaluation payload: ")
            (json_Unmarshal payload) ;;
  on_error (Errorf_w "failed to create evaluation service: ")
    (NewEvaluationService env) ;;;
  r <- catch (RunEvaluationProtocol env (p_evaluation_id data)
                (p_prompt data)) ;;
  match r with
  | Ok _ => ret tt
  | Err err =>
      if errors_Is err ErrRateLimitExceeded then
        (* the job is completed; the retry is owned by the checkpoint *)
        ret tt
      else if errors_Is err ErrTooManyRetries then
        ignore (UpdateEvaluationStatus env "failed" (p_evaluation_id data)) ;;;
        fail (Errorf_w "evaluation failed after max retries: " err)
      else
        ignore (UpdateEvaluationStatus env "failed" (p_evaluation_id data)) ;;;
        fail (Errorf_w "evaluation protocol failed: " err)
  end.

(** Entering a handler is recorded in [handled]. *)
Definition invoke (jobType : string) (handler : M unit) : M unit :=
  modify (fun w => set_handled (jobType :: handled w) w) ;;; handler.

(** The [switch job.Type] of [processJobWithMetrics]; the value is
    [errProcessing]. *)
Definition dispatch (job : Job) : M (option error) :=
  let type := job_type job in
  r <- catch
         (if String.eqb type "send_email" then
            invoke type (handleSendEmail (job_payload job))
          else if String.eqb type "send_password_reset_email" then
            invoke type (handleSendPasswordResetEmail (job_payload job))
          else if String.eqb type "send_verification_email" then
            invoke type (handleSendVerificationEmail (job_payload job))
          else if String.eqb type "process_ai" then
            invoke type (handleProcessAI (job_payload job))
          else if String.eqb type "run_evaluation" then
            invoke type (handleRunEvaluation (job_payload job))
          else if String.eqb type "process_webhook" then
            invoke type (handleProcessWebhook (job_payload job))
          else fail (ErrorString ("unknown job type: " ++ type))) ;;
  match r with
  | Ok _ => ret None
  | Err e => ret (Some e)
  end.

Definition moveToDeadLetterQueue (job : Job) (lastErr : error) : M unit :=
  ignore (FailJob env (Some ("MOVED_TO_DLQ: " ++ Error lastErr)) (job_id job)).

(** [processJobWithMetrics]; the metrics and the log lines are left out. *)
Definition processJobWithMetrics (job : Job) : M unit :=
  errProcessing <- dispatch job ;;
  match errProcessing with
  | Some err =>
      w <- get ;;
      let shouldMoveToDLQ := shouldMoveToDeadLetterQueue (clock w) job in
      if shouldMoveToDLQ then moveToDeadLetterQueue job err
      else ignore (FailJob env (Some (Error err)) (job_id job))
  | None =>
      (* Success: record processing and complete job in transaction *)
      ignore
        (tx <- BeginTx env ;;
         tx <- qtx_RecordJobProcessed env (job_id job) tx ;;
         tx <- qtx_CompleteJob env (job_id job) tx ;;
         Commit env tx)
  end.

Definition slots (s : semaphore) (w : World F) : nat :=
  match s with
  | GeminiSem => geminiSemaphore w
  | EmailSem => emailSemaphore w
  | GenericSem => genericSemaphore w
  end.

Definition capacity (s : semaphore) : nat :=
  match s with
  | GeminiSem => MaxConcurrentGeminiJobs
  | EmailSem => MaxConcurrentEmailJobs
  | GenericSem => MaxConcurrentGenericJobs
  end.

Definition set_slots (s : semaphore) (n : nat) (w : World F) : World F :=
  match s with
  | GeminiSem => set_semaphores n (emailSemaphore w) (genericSemaphore w) w
  | EmailSem => set_semaphores (geminiSemaphore w) n (genericSemaphore w) w
  | GenericSem => set_semaphores (geminiSemaphore w) (emailSemaphore w) n w
  end.

(** [processNextWithRateLimit]; [pick] is the row [PickNextJob] claims.
    The goroutine that the source starts once the semaphore is acquired
    is run here to its end, then the slot is released. *)
Definition processNextWithRateLimit (pick : option Job) : M unit :=
  r <- catch (PickNextJob env pick) ;;
  match r with
  | Err _ => ret tt
  | Ok job =>
      processed <- catch (IsJobProcessed env (job_id job)) ;;
      match processed with
      | Ok 1%Z => ignore (CompleteJob env (job_id job))
      | _ =>
          let semaphore := getSemaphoreForJob (job_type job) in
          w <- get ;;
          if (slots semaphore w <? capacity semaphore)%nat then
            modify (fun w => set_slots semaphore (S (slots semaphore w)) w) ;;;
            processJobWithMetrics job ;;;
            modify (fun w => set_slots semaphore (Nat.pred (slots semaphore w)) w)
          else ret tt
      end
  end.

End Worker.

(** ** Reference definitions for the numeric claims *)

(** The dot product and the Euclidean norm over the reals. *)
Fixpoint dotR (a b : list R) : R :=
  match a, b with
  | x :: xs, y :: ys => (x * y + dotR xs ys)%R
  | _, _ => 0%R
  end.

Definition normR (a : list R) : R := sqrt (dotR a a).

Definition clamp01 (x : R) : R := Rmax 0 (Rmin 1 x).

(** The backoff delay in the words of the specification: the capped
    exponential, multiplied by a symmetric jitter factor [1 ± f].  The draw
    [u] of [0, 1) is spread over [-f, +f] the way the Gemini client's own
    retry loop spreads it, [(u - 0.5) * 2]. *)
Definition spec_backoff_delay (jitterFraction u : R) (attempt : Z) : R :=
  (Rmin (IZR MaxRetryDelay) (IZR BaseRetryDelay * powerRZ 2 attempt)
   * (1 + jitterFraction * ((u - / 2) * 2)))%R.

(** The float64 value that [calculateBackoffDelay] converts at its end,
    over the reals. *)
Definition backoff_jittered (u : R) (attempt : Z) : R :=
  (IZR BaseRetryDelay * powerRZ 2 attempt * (1 + 2 / 10 * u))%R.

(** The comparison of [TestCalculateDivergence]: within the tolerance. *)
Definition within_tolerance (result expected tolerance : float) : bool :=
  PrimFloat.leb (PrimFloat.abs (PrimFloat.sub result expected)) tolerance.

(** ** Reference definitions for the worker claims *)

(** The job types that [processJobWithMetrics] has a case for. *)
Definition known_job_type (jobType : string) : bool :=
  String.eqb jobType "send_email"
  || String.eqb jobType "send_password_reset_email"
  || String.eqb jobType "send_verification_email"
  || String.eqb jobType "process_ai"
  || String.eqb jobType "run_evaluation"
  || String.eqb jobType "process_webhook".

(** [n] successive picks of the job stored under [id], each one handed to
    [processJobWithMetrics] as the row reads at that moment. *)
Fixpoint repick {F} `{Float64Ops F} (env : Env F) (id : Z) (n : nat)
  (w : World F) : World F :=
  match n with
  | O => w
  | S n' =>
      match jobs (db w) !! id with
      | Some job => repick env id n' (processJobWithMetrics env job w).2
      | None => w
      end
  end.

(** ** Reference definitions for the protocol claims *)

(** The five phases, with the name the checkpoint stores, the step number
    and the title that the progress events carry. *)
Inductive Phase := Inicial | Inversao | Confronto | Calculo | Purga.

Definition phase_name (p : Phase) : string :=
  match p with
  | Inicial => "inicial"
  | Inversao => "inversao"
  | Confronto => "confronto"
  | Calculo => "calculo"
  | Purga => "purga"
  end.

Definition phase_step (p : Phase) : Z :=
  match p with
  | Inicial => 1
  | Inversao => 2
  | Confronto => 3
  | Calculo => 4
  | Purga => 5
  end.

Definition phase_title (p : Phase) : string :=
  match p with
  | Inicial => "Consulta Inicial"
  | Inversao => "Inversão de Lógica"
  | Confronto => "Confronto Falso"
  | Calculo => "Cálculo de Divergência"
  | Purga => "Purga e Auditoria"
  end.

(** The phases from [p] to the last one, in order. *)
Definition phases_from (p : Phase) : list Phase :=
  match p with
  | Inicial => [Inicial; Inversao; Confronto; Calculo; Purga]
  | Inversao => [Inversao; Confronto; Calculo; Purga]
  | Confronto => [Confronto; Calculo; Purga]
  | Calculo => [Calculo; Purga]
  | Purga => [Purga]
  end.

Definition progress_event {F} (evalID : string) (p : Phase) : SSEEvent F :=
  EvaluationProgress evalID (phase_title p) (phase_step p) 5.

(** Every progress event of [evs] announces step [k] or a later one. *)
Definition steps_from {F} (k : Z) (evs : list (SSEEvent F)) : Prop :=
  Forall (fun e => match e with
                   | EvaluationProgress _ _ step _ => (k <= step)%Z
                   | EvaluationComplete _ _ _ => True
                   end) evs.

(** Whatever the world, the computation [m] publishes only events of
    step [k] or later, on top of those already published. *)
Definition announces {F A} (k : Z) (m : M F A) : Prop :=
  forall w, exists new,
    sse_events (m w).2 = (new ++ sse_events w)%list /\ steps_from k new.

(** The retry wait of a checkpoint is over at the time of the world. *)
Definition retry_wait_over {F} (cp : Checkpoint F) (w : World F) : Prop :=
  match next_retry_at cp with
  | Some t => (t <= clock w)%Z
  | None => True
  end.

(** The model-call step that starts with request number [n] gets an
    answer within its ten attempts: some attempts fail with errors other
    than rate-limited, and the next one is answered. *)
Definition answered_within {F} (env : Env F) (n : nat) (msgs : list Message)
  : Prop :=
  exists k a,
    (k < MaxRetries)%nat
    /\ (forall i, (i < k)%nat ->
          exists e,
            GenerateContentWithMessages env (n + i) msgs = inr e
            /\ isRateLimitError e = false)
    /\ GenerateContentWithMessages env (n + k) msgs = inl a.

(** No rate limit, and no step that uses up its attempts. *)
Definition responsive {F} (env : Env F) : Prop :=
  forall n msgs, answered_within env n msgs.

(** ** Scenarios (binary64) used to run the model *)

Definition noPayload : Payload :=
  {| json_valid := true; p_evaluation_id := ""; p_tenant_id := "";
     p_user_id := 0; p_prompt := ""; p_is_retry := false; p_to := "";
     p_subject := ""; p_body := ""; p_email := ""; p_token := "";
     p_webhook_id := 0 |}.

Definition evalPayload (evalID prompt : string) : Payload :=
  {| json_valid := true; p_evaluation_id := evalID; p_tenant_id := "acme";
     p_user_id := 1; p_prompt := prompt; p_is_retry := false; p_to := "";
     p_subject := ""; p_body := ""; p_email := ""; p_token := "";
     p_webhook_id := 0 |}.

Definition mkJob (id : Z) (type : string) (payload : Payload)
  (attempts : option Z) (created : option Z) : Job :=
  {| job_id := id; job_type := type; job_payload := payload;
     job_status := "pending"; job_attempt_count := attempts;
     job_last_error := None; job_created_at := created |}.

(** An environment in which the model answers every request and nothing
    fails; [answers n] is the text of the n-th answer. *)
Definition scriptedEnv (model : nat -> list Message -> string + error)
  (faults : nat -> option string) : Env float :=
  {| GenerateContentWithMessages := model;
     EmbedContent := fun _ _ => Some [1; 0; 0]%float;
     rand_Float64 := fun _ => f_dec 5 1;
     db_fault := faults;
     mailer_Send := fun _ => None;
     NewGeminiClient := None;
     Duration_String := fun d => pretty.pretty d ++ "ns";
     Time_String := fun t => pretty.pretty t |}.

Definition quietEnv : Env float :=
  scriptedEnv (fun n _ => inl ("answer " ++ pretty.pretty n)) (fun _ => None).

Definition mkDB (js : list Job) (ledger : list Z)
  (cps : list (string * Checkpoint float)) : DB float :=
  {| jobs := list_to_map (map (fun j => (job_id j, j)) js);
     processed_jobs := list_to_set ledger;
     evaluations :=
       {[ "eval-1" := {| eval_tenant_id := "acme"; eval_user_id := 1;
                         eval_prompt_base := "X";
                         eval_status := "processing" |} ]};
     evaluation_checkpoints := list_to_map cps;
     iterations := []; audits := [] |}.

Definition mkWorld (now : Z) (d : DB float) : World float :=
  {| db := d; clock := now; db_calls := 0; gen_calls := []; emb_calls := [];
     rand_calls := 0; mails := []; sse_events := []; handled := [];
     geminiSemaphore := 0; emailSemaphore := 0; genericSemaphore := 0 |}.

(** A job of a type no handler knows, five attempts behind it. *)
Definition job_unknown5 : Job :=
  mkJob 1 "resize_image" noPayload (Some 5) (Some 1000).

(** A fresh job without a creation time (the column admits NULL). *)
Definition job_no_created_at : Job :=
  mkJob 2 "process_webhook" noPayload (Some 0) None.

(** A webhook job that the idempotency ledger already lists. *)
Definition job_ledgered : Job :=
  mkJob 7 "process_webhook" noPayload (Some 0) (Some 1000).

(** The second storage call, the idempotency lookup, fails. *)
Definition lookupFailsEnv : Env float :=
  scriptedEnv (fun n _ => inl ("answer " ++ pretty.pretty n))
    (fun n => if (n =? 1)%nat then Some "database is locked" else None).

(** The transcript after phases inicial and inversao. *)
Definition transcript2 : list Message :=
  [ {| role := "user"; content := "X" |};
    {| role := "assistant"; content := "first answer" |};
    {| role := "user"; content := instrucao_inversao |};
    {| role := "assistant"; content := "second answer" |} ].

Definition mkCheckpoint {F} (phase : string) (msgs : list Message)
  (emb1 emb3 : option (list F)) (divergencia : option F)
  (diagnostico : option string) (retries : Z) (next : option Z)
  : Checkpoint F :=
  {| current_phase := phase; messages := msgs;
     embedding_inicial := emb1; embedding_confronto := emb3;
     divergencia_calculada := divergencia; diagnostico_final := diagnostico;
     retry_count := retries; last_retry_at := None; next_retry_at := next |}.

(** A checkpoint waiting at [confronto]. *)
Definition cp_confronto : Checkpoint float :=
  mkCheckpoint "confronto" transcript2 (Some [1; 0; 0]%float) None None None
    0 None.


(** A checkpoint at [inicial] that was rate-limited eleven times already;
    its retry time, 900, has passed at time 2000. *)
Definition cp_retry11 : Checkpoint float :=
  mkCheckpoint "inicial" [] None None None None 11 (Some 900).

Definition job_eval : Job :=
  mkJob 3 "run_evaluation" (evalPayload "eval-1" "X") (Some 0) (Some 1000).

Definition world_with (cp : Checkpoint float) : World float :=
  mkWorld 2000 (mkDB [job_eval] [] [("eval-1", cp)]).


(** The first request fails with a network error, the later ones are
    answered. *)
Definition flakyEnv : Env float :=
  scriptedEnv
    (fun n _ => if (n =? 0)%nat
                then inr (ErrorString "connection reset by peer")
                else inl ("answer " ++ pretty.pretty n))
    (fun _ => None).

(** Every request fails with a network error. *)
Definition brokenEnv : Env float :=
  scriptedEnv (fun _ _ => inr (ErrorString "connection reset by peer"))
    (fun _ => None).




(** * The rest of the code: access policies, the client's retries, the
    event broker, the logging middleware, the producers of the worker *)

(** ** Package policies: who may do what with an evaluation *)

Module policies.

(** The fields of [db.User] that the policies read. *)
Record User := { ID : Z; RoleID : string; TenantID : string }.

Definition ActionView : string := "view".
Definition ActionEdit : string := "edit".
Definition ActionDelete : string := "delete".
Definition ActionAudit : string := "audit".

Definition CanAccessEvaluation (user : User) (evaluation : Evaluation)
  : bool :=
  if String.eqb (RoleID user) "admin"
     || String.eqb (RoleID user) "administrator"
  then true
  else String.eqb (TenantID user) (eval_tenant_id evaluation).

Definition CanCreateEvaluation (user : User) (tenantID : string) : bool :=
  if (ID user =? 0)%Z then false
  else if String.eqb (RoleID user) "admin"
          || String.eqb (RoleID user) "administrator"
  then true
  else String.eqb (TenantID user) tenantID.

Definition CanDeleteEvaluation (user : User) (evaluation : Evaluation)
  : bool :=
  if String.eqb (RoleID user) "admin"
     || String.eqb (RoleID user) "administrator"
  then true
  else if negb (eval_user_id evaluation =? 0)%Z
          && (ID user =? eval_user_id evaluation)%Z
  then true
  else false.

(** The audit and the iteration themselves are not looked at. *)
Definition CanViewAudit {A} (user : User) (audit : A)
  (evaluation : Evaluation) : bool :=
  if String.eqb (RoleID user) "admin"
     || String.eqb (RoleID user) "administrator"
  then true
  else String.eqb (eval_tenant_id evaluation) (TenantID user).

Definition CanViewIteration {A} (user : User) (iteration : A)
  (evaluation : Evaluation) : bool :=
  if String.eqb (RoleID user) "admin"
     || String.eqb (RoleID user) "administrator"
  then true
  else String.eqb (eval_tenant_id evaluation) (TenantID user).

(** [CheckEvaluationAccess]; [None] is the nil error.  The [switch] has no
    default case. *)
Definition CheckEvaluationAccess (user : User) (evaluation : Evaluation)
  (action : string) : option error :=
  if (ID user =? 0)%Z then
    Some (ErrorString "unauthorized: user not authenticated")
  else if String.eqb action ActionView then
    if negb (CanAccessEvaluation user evaluation) then
      Some (ErrorString "forbidden: user cannot view this evaluation")
    else None
  else if String.eqb action ActionEdit then
    if negb (CanAccessEvaluation user evaluation) then
      Some (ErrorString "forbidden: user cannot edit this evaluation")
    else if String.eqb (eval_status evaluation) "completed"
            || String.eqb (eval_status evaluation) "failed" then
      Some (ErrorString
              "forbidden: cannot modify completed/failed evaluations")
    else None
  else if String.eqb action ActionDelete then
    if negb (CanDeleteEvaluation user evaluation) then
      Some (ErrorString "forbidden: user cannot delete this evaluation")
    else None
  else if String.eqb action ActionAudit then
    if negb (String.eqb (RoleID user) "admin")
       && negb (String.eqb (RoleID user) "administrator") then
      Some (ErrorString "forbidden: only admins can perform audit actions")
    else None
  else None.

Definition CheckTenantAccess (user : User) (tenantID : string)
  : option error :=
  if (ID user =? 0)%Z then
    Some (ErrorString "unauthorized: user not authenticated")
  else if String.eqb (RoleID user) "admin"
          || String.eqb (RoleID user) "administrator" then None
  else if negb (String.eqb (TenantID user) tenantID) then
    Some (ErrorString "forbidden: user does not have access to this tenant")
  else None.

End policies.

(** The user [user] with another role. *)
Definition with_role (role : string) (user : policies.User) : policies.User :=
  {| policies.ID := policies.ID user; policies.RoleID := role;
     policies.TenantID := policies.TenantID user |}.

Definition is_admin_role (role : string) : bool :=
  String.eqb role "admin" || String.eqb role "administrator".

Definition known_action (action : string) : bool :=
  String.eqb action policies.ActionView
  || String.eqb action policies.ActionEdit
  || String.eqb action policies.ActionDelete
  || String.eqb action policies.ActionAudit.

Definition regular_user : policies.User :=
  {| policies.ID := 7; policies.RoleID := "user";
     policies.TenantID := "tenant-a" |}.

Definition evaluation_of (tenant : string) (owner : Z) (status : string)
  : Evaluation :=
  {| eval_tenant_id := tenant; eval_user_id := owner;
     eval_prompt_base := "X"; eval_status := status |}.

(** ** The Gemini client: rate-limit detection and withRetry *)

(** The inner loop of [contains], at the position where the rest of [s]
    is [s]: byte by byte, the letters A-Z of both sides moved to lower
    case.  The bound of the outer loop keeps [s] at least as long as
    [substr]. *)
Fixpoint contains_at (s substr : string) : bool :=
  match substr, s with
  | EmptyString, _ => true
  | String subChar substr', String sChar s' =>
      if Ascii.eqb (lower_ascii sChar) (lower_ascii subChar)
      then contains_at s' substr'
      else false
  | String _ _, EmptyString => false
  end.

(** The outer loop of [contains], [iterations] positions from the start
    of [s] on. *)
Fixpoint contains_from (iterations : nat) (s substr : string) : bool :=
  match iterations with
  | O => false
  | S iterations' =>
      if contains_at s substr then true
      else match s with
           | String _ s' => contains_from iterations' s' substr
           | EmptyString => false
           end
  end.

(** [for i := 0; i <= len(s)-len(substr); i++]: no iteration when
    [substr] is the longer one. *)
Definition contains (s substr : string) : bool :=
  contains_from (S (String.length s) - String.length substr) s substr.

Definition containsIgnoreCase (s substr : string) : bool :=
  (String.length substr <=? String.length s)%nat && contains s substr.

Definition rateLimitIndicators : list string :=
  ["429"; "Too Many Requests"; "quota exceeded"; "rate limit";
   "RESOURCE_EXHAUSTED"; "RPM"; "TPM"; "RPD"].

Definition containsRateLimitError (errMsg : string) : bool :=
  existsb (fun indicator => containsIgnoreCase errMsg indicator)
    rateLimitIndicators.

(** The bytes of [s] are all below 128. *)
Definition is_ascii (s : string) : bool :=
  forallb (fun c => (nat_of_ascii c <? 128)%nat) (list_ascii_of_string s).

Definition maxRetries : nat := 5.
Definition baseRetryDelay : Z := 1 * Second.
Definition maxRetryDelay : Z := 60 * Second.

(** Addition of two [int64] values, wrapping. *)
Definition int64_add (a b : Z) : Z :=
  (a + b + 2 ^ 63) mod 2 ^ 64 - 2 ^ 63.

Section WithRetry.
Context {F : Type} `{Float64Ops F}.

Definition retryMultiplier : F := f_of_Z 2.
Definition retryJitterFactor : F := f_dec 1 1.

(** What [withRetry] meets: the outcome of each call of [fn] ([None] is
    nil), the draws of [rand.Float64], whether the context is done before
    the timer of a wait fires, and the error of the context. *)
Record RetryEnv := {
  fn : nat -> option error;
  retry_rand : nat -> F;
  ctx_Done : nat -> bool;
  ctx_Err : error
}.

(** What [withRetry] does: calls of [fn], waits that ran to their end
    (newest first), draws. *)
Record RetryState := {
  fn_calls : nat;
  waits : list Z;
  draws : nat
}.

(** The body of [case <-time.After(delay)]: the delay of the next wait. *)
Definition next_delay (u : F) (delay : Z) : Z :=
  let delay := int64_of_float (f_of_Z delay * retryMultiplier)%f64 in
  let delay := if (maxRetryDelay <? delay)%Z then maxRetryDelay else delay in
  let jitter :=
    int64_of_float
      (f_of_Z delay * retryJitterFactor * (u - f_dec 5 1) * f_of_Z 2)%f64 in
  int64_add delay jitter.

Fixpoint withRetry_loop (env : RetryEnv) (remaining : nat) (delay : Z)
  (lastErr : option error) (st : RetryState) : option error * RetryState :=
  match remaining with
  | O =>
      (Some match lastErr with
            | Some e => Errorf_w "max retries exceeded: " e
            | None => ErrorString "max retries exceeded: %!w(<nil>)"
            end, st)
  | S remaining' =>
      let err := fn env (fn_calls st) in
      let st := {| fn_calls := S (fn_calls st); waits := waits st;
                   draws := draws st |} in
      match err with
      | None => (None, st)
      | Some err =>
          let isRateLimit :=
            if String.eqb (Error err) "" then false
            else containsRateLimitError (Error err) in
          if negb isRateLimit then (Some err, st)
          else if ctx_Done env (length (waits st)) then
            (Some (ctx_Err env), st)
          else
            let u := retry_rand env (draws st) in
            withRetry_loop env remaining' (next_delay u delay) (Some err)
              {| fn_calls := fn_calls st; waits := delay :: waits st;
                 draws := S (draws st) |}
      end
  end.

Definition withRetry (env : RetryEnv) (st : RetryState)
  : option error * RetryState :=
  withRetry_loop env maxRetries baseRetryDelay None st.

End WithRetry.

Arguments RetryEnv F : clear implicits.

Definition idle : RetryState := {| fn_calls := 0; waits := []; draws := 0 |}.

(** The first [k] calls fail with the rate-limit text, the next one
    returns [last]. *)
Definition limitedEnv {F} (u : F) (k : nat) (last : option error)
  : RetryEnv F :=
  {| fn := fun n => if (n <? k)%nat
                    then Some (ErrorString "RPM limit exceeded") else last;
     retry_rand := fun _ => u;
     ctx_Done := fun _ => false;
     ctx_Err := ErrorString "context canceled" |}.

(** The error [err] is one that [withRetry] retries. *)
Definition retried (err : error) : bool := containsRateLimitError (Error err).

(** The longest that the wait of attempt [attempt] can be, in
    nanoseconds: one second times 2.2 to the power [attempt]. *)
Definition longest_wait (attempt : nat) : Z :=
  match attempt with
  | 0%nat => 1000000000
  | 1%nat => 2200000000
  | 2%nat => 4840000000
  | 3%nat => 10648000000
  | 4%nat => 23425600000
  | _ => 51536320000
  end.

(** The longest that the waits from attempt [attempt] to the last one
    can be together. *)
Definition longest_waits_from (attempt : nat) : Z :=
  match attempt with
  | 0%nat => 42113600000
  | 1%nat => 41113600000
  | 2%nat => 38913600000
  | 3%nat => 34073600000
  | 4%nat => 23425600000
  | _ => 0
  end.

Definition sum_Z (l : list Z) : Z := fold_right Z.add 0 l.

(** ** Package sse: the broker *)

(** A call that can panic. *)
Inductive outcome (A : Type) :=
  | Done (a : A)
  | Panic (msg : string).
Arguments Done {A} a.
Arguments Panic {A} msg.

Module sse.

(** A client is its channel [Events]: the messages buffered, oldest
    first, and whether the channel has been closed. *)
Record Client := { Events : list string; closed : bool }.

(** The broker, and the clients it has made: [clients] maps a resource
    key to the clients subscribed, [heap] a client pointer to the client. *)
Record Broker := {
  clients : gmap string (gset nat);
  heap : gmap nat Client
}.

Definition NewBroker : Broker := {| clients := ∅; heap := ∅ |}.

Definition GetResourceKey (resourceType resourceID : string) : string :=
  resourceType ++ ":" ++ resourceID.

(** [make(chan string, 100)] *)
Definition bufferSize : nat := 100.

Definition Subscribe (resourceType resourceID : string) (b : Broker)
  : nat * Broker :=
  let key := GetResourceKey resourceType resourceID in
  let client := fresh (dom (heap b)) in
  (client,
   {| clients :=
        <[key := {[ client ]} ∪ default ∅ (clients b !! key)]> (clients b);
      heap := <[client := {| Events := []; closed := false |}]> (heap b) |}).

Definition Unsubscribe (client : nat) (resourceType resourceID : string)
  (b : Broker) : outcome Broker :=
  let key := GetResourceKey resourceType resourceID in
  match clients b !! key with
  | Some subscribed =>
      let subscribed := subscribed ∖ {[ client ]} in
      match heap b !! client with
      | None => Panic "invalid memory address or nil pointer dereference"
      | Some c =>
          if closed c then Panic "close of closed channel"
          else
            Done
              {| clients :=
                   if decide (size subscribed = 0%nat)
                   then delete key (clients b)
                   else <[key := subscribed]> (clients b);
                 heap :=
                   <[client := {| Events := Events c; closed := true |}]>
                     (heap b) |}
      end
  | None => Done b
  end.

(** [strings.Split(s, "\n")] *)
Fixpoint strings_Split_nl (s : string) : list string :=
  match s with
  | EmptyString => [EmptyString]
  | String c s' =>
      if Ascii.eqb c (ascii_of_nat 10) then EmptyString :: strings_Split_nl s'
      else match strings_Split_nl s' with
           | line :: lines => String c line :: lines
           | [] => [String c EmptyString]
           end
  end.

(** The loop over the lines: ["data: "] before each one, a newline
    between two. *)
Fixpoint formattedData (lines : list string) : string :=
  match lines with
  | [] => ""
  | [line] => "data: " ++ line
  | line :: lines' => "data: " ++ line ++ nl ++ formattedData lines'
  end.

Definition message (eventType html : string) : string :=
  "event: " ++ eventType ++ nl ++ formattedData (strings_Split_nl html)
    ++ nl ++ nl.

(** [select { case client.Events <- message: default: }] *)
Definition offer (msg : string) (c : Client) : Client :=
  if (length (Events c) <? bufferSize)%nat
  then {| Events := Events c ++ [msg]; closed := closed c |}
  else c.

(** [SendHTML]: every client subscribed to the resource is offered the
    message; the order of the map does not show, one send to a closed
    channel panics. *)
Definition SendHTML (resourceType resourceID eventType html : string)
  (b : Broker) : outcome Broker :=
  let key := GetResourceKey resourceType resourceID in
  let subscribed := default ∅ (clients b !! key) in
  if decide (set_Exists
               (fun client => closed <$> heap b !! client = Some true)
               subscribed)
  then Panic "send on closed channel"
  else
    Done
      {| clients := clients b;
         heap :=
           map_imap
             (fun client c =>
                Some (if decide (client ∈ subscribed)
                      then offer (message eventType html) c else c))
             (heap b) |}.

Definition SendEvaluationProgress (evaluationID phase : string)
  (progress total : Z) (html : string) : Broker -> outcome Broker :=
  SendHTML "evaluation" evaluationID "evaluation_progress" html.

Definition SendEvaluationComplete (evaluationID html : string)
  : Broker -> outcome Broker :=
  SendHTML "evaluation" evaluationID "evaluation_complete" html.

Definition SendEvaluationError (evaluationID html : string)
  : Broker -> outcome Broker :=
  SendHTML "evaluation" evaluationID "evaluation_error" html.

End sse.

(** [s] has no colon. *)
Fixpoint no_colon (s : string) : bool :=
  match s with
  | EmptyString => true
  | String c s' => negb (Ascii.eqb c ":"%char) && no_colon s'
  end.

(** The lines joined again, a newline between two. *)
Fixpoint join_nl (lines : list string) : string :=
  match lines with
  | [] => ""
  | [line] => line
  | line :: lines' => line ++ nl ++ join_nl lines'
  end.

(** The clients subscribed to a key. *)
Definition subscribers (key : string) (b : sse.Broker) : gset nat :=
  default ∅ (sse.clients b !! key).

(** The broker as [Subscribe], [Unsubscribe] with the key of the
    subscription and [SendHTML] leave it: no key without a client, every
    client subscribed is open and subscribed to one key only, no buffer
    beyond its size. *)
Definition broker_ok (b : sse.Broker) : Prop :=
  (forall key subscribed,
     sse.clients b !! key = Some subscribed ->
     subscribed <> ∅
     /\ forall client, client ∈ subscribed ->
          (exists c, sse.heap b !! client = Some c /\ sse.closed c = false)
          /\ forall key', client ∈ subscribers key' b -> key' = key)
  /\ forall client c,
       sse.heap b !! client = Some c ->
       (length (sse.Events c) <= sse.bufferSize)%nat.

(** ** Package middleware: the response writer of the logger *)

Module middleware.

(** What reaches the wrapped [http.ResponseWriter]. *)
Inductive call :=
  | CallWriteHeader (code : Z)
  | CallWrite (b : string).

(** The wrapper with the writer it wraps: the calls passed on so far,
    newest first. *)
Record responseWriter := {
  status : Z;
  size : Z;
  wroteHeader : bool;
  ResponseWriter : list call
}.

Definition StatusOK : Z := 200.

(** [rw := &responseWriter{ResponseWriter: w, status: http.StatusOK}] *)
Definition newResponseWriter : responseWriter :=
  {| status := StatusOK; size := 0; wroteHeader := false;
     ResponseWriter := [] |}.

Definition WriteHeader (code : Z) (rw : responseWriter) : responseWriter :=
  if wroteHeader rw then rw
  else {| status := code; size := size rw; wroteHeader := true;
          ResponseWriter := CallWriteHeader code :: ResponseWriter rw |}.

(** [Write]; [n] is the count that the wrapped writer returns, and
    [rw.size += n] an addition of [int], taken as 64 bits wide. *)
Definition Write (b : string) (n : Z) (rw : responseWriter)
  : responseWriter :=
  let rw := if negb (wroteHeader rw) then WriteHeader StatusOK rw else rw in
  {| status := status rw; size := int64_add (size rw) n;
     wroteHeader := wroteHeader rw;
     ResponseWriter := CallWrite b :: ResponseWriter rw |}.

(** The panic of a slice expression [s[:high]] with [high] out of
    range. *)
Definition slice_panic (high : Z) : string :=
  "runtime error: slice bounds out of range [:" ++ pretty.pretty high ++ "]".

(** [truncateString]; [s[:maxLen]] panics when [maxLen] is negative. *)
Definition truncateString (s : string) (maxLen : Z) : outcome string :=
  if (Z.of_nat (String.length s) <=? maxLen)%Z then Done s
  else if (maxLen <? 0)%Z then Panic (slice_panic maxLen)
  else Done (String.substring 0 (Z.to_nat maxLen) s ++ "...").

End middleware.

(** What a handler does with the writer. *)
Inductive writer_op :=
  | OpWriteHeader (code : Z)
  | OpWrite (b : string) (n : Z).

Definition apply_op (rw : middleware.responseWriter) (op : writer_op)
  : middleware.responseWriter :=
  match op with
  | OpWriteHeader code => middleware.WriteHeader code rw
  | OpWrite b n => middleware.Write b n rw
  end.

Definition run_ops (ops : list writer_op) : middleware.responseWriter :=
  fold_left apply_op ops middleware.newResponseWriter.

(** The status that the first operation fixes. *)
Definition first_status (ops : list writer_op) : Z :=
  match ops with
  | OpWriteHeader code :: _ => code
  | _ => middleware.StatusOK
  end.

Definition written (op : writer_op) : Z :=
  match op with OpWrite _ n => n | OpWriteHeader _ => 0 end.

Definition header_calls (calls : list middleware.call) : list Z :=
  omap (fun c => match c with
                 | middleware.CallWriteHeader code => Some code
                 | middleware.CallWrite _ => None
                 end) calls.

(** ** The worker: starting an evaluation, the retry scan, the first
    processor *)

Section Producers.
Context {F : Type} `{Float64Ops F} (env : Env F).
Local Abbreviation M := (M F).

(** The identifier that AUTOINCREMENT gives the next row of [jobs]: one
    more than the largest in use (no statement deletes a job). *)
Definition next_job_id (d : DB F) : Z :=
  1 + map_fold (fun id (_ : Job) largest => Z.max id largest) 0 (jobs d).

(** The query [CreateJob], whose SQL text is not part of the sources:
    modelled from its calls, which give the type and the payload, and
    from the schema of [jobs], whose defaults give the rest: the next
    identifier, status [pending], no attempt, created now.  It returns
    the row. *)
Definition CreateJob (type : string) (payload : Payload) : M Job :=
  storage env (fun now d =>
    let job := {| job_id := next_job_id d; job_type := type;
                  job_payload := payload; job_status := "pending";
                  job_attempt_count := Some 0; job_last_error := None;
                  job_created_at := Some now |} in
    (Ok job, set_jobs (<[job_id job := job]> (jobs d)) d)).

(** The query [CreateEvaluation], whose SQL text is not part of the
    sources: modelled from its call, which gives every column kept here,
    and from the schema of [evaluations], whose primary key refuses an
    identifier that is in use.  It returns the row. *)
Definition CreateEvaluation (id tenantID : string) (userID : Z)
  (promptBase status : string) : M Evaluation :=
  storage env (fun _ d =>
    match evaluations d !! id with
    | Some _ =>
        (Err (ErrorString "UNIQUE constraint failed: evaluations.id"), d)
    | None =>
        let evaluation :=
          {| eval_tenant_id := tenantID; eval_user_id := userID;
             eval_prompt_base := promptBase; eval_status := status |} in
        (Ok evaluation, set_evaluations (<[id := evaluation]> (evaluations d)) d)
    end).

(** The JSON object that [StartEvaluation] and the retry scan marshal. *)
Definition evaluation_payload (evalID tenantID : string) (userID : Z)
  (prompt : string) (isRetry : bool) : Payload :=
  {| json_valid := true; p_evaluation_id := evalID; p_tenant_id := tenantID;
     p_user_id := userID; p_prompt := prompt; p_is_retry := isRetry;
     p_to := ""; p_subject := ""; p_body := ""; p_email := "";
     p_token := ""; p_webhook_id := 0 |}.

(** [StartEvaluation]; [uuid] is what [uuid.New().String()] returns. *)
Definition StartEvaluation (uuid tenantID : string) (userID : Z)
  (prompt : string) : M string :=
  let evalID := uuid in
  _ <- CreateEvaluation evalID tenantID userID prompt "pending" ;;
  let jobPayload := evaluation_payload evalID tenantID userID prompt false in
  _ <- on_error (Errorf_w "failed to create evaluation job: ")
         (CreateJob "run_evaluation" jobPayload) ;;
  ret evalID.

(** The rows that the query [GetEvaluationsToRetry] selects at time
    [now], in the order of the table. *)
Definition to_retry (now : Z) (d : DB F) : list (string * Evaluation) :=
  filter
    (fun row : string * Evaluation =>
       String.eqb (eval_status row.2) "processing"
       && match evaluation_checkpoints d !! row.1 with
          | Some cp =>
              match next_retry_at cp with
              | Some t => (t <=? now)%Z
              | None => false
              end
          | None => false
          end = true)
    (map_to_list (evaluations d)).

Definition GetEvaluationsToRetry : M (list (string * Evaluation)) :=
  storage env (fun now d => (Ok (to_retry now d), d)).

(** The loop of [processEvaluationRetries]: one job for each evaluation,
    a failure to create it only logged. *)
Fixpoint requeue (evaluations : list (string * Evaluation)) : M unit :=
  match evaluations with
  | [] => ret tt
  | eval :: evaluations' =>
      ignore
        (CreateJob "run_evaluation"
           (evaluation_payload eval.1 (eval_tenant_id eval.2)
              (eval_user_id eval.2) (eval_prompt_base eval.2) true)) ;;;
      requeue evaluations'
  end.

Definition processEvaluationRetries : M unit :=
  r <- catch (NewEvaluationService env) ;;
  match r with
  | Err _ => ret tt
  | Ok _ =>
      r <- catch GetEvaluationsToRetry ;;
      match r with
      | Err _ => ret tt
      | Ok evaluations =>
          if (length evaluations =? 0)%nat then ret tt
          else requeue evaluations
      end
  end.

(** The [switch job.Type] of [processNext]: its default case logs and
    leaves [errProcessing] nil. *)
Definition dispatch_processNext (job : Job) : M (option error) :=
  let type := job_type job in
  r <- catch
         (if String.eqb type "send_email" then
            invoke type (handleSendEmail env (job_payload job))
          else if String.eqb type "send_password_reset_email" then
            invoke type (handleSendPasswordResetEmail env (job_payload job))
          else if String.eqb type "send_verification_email" then
            invoke type (handleSendVerificationEmail env (job_payload job))
          else if String.eqb type "process_ai" then
            invoke type (handleProcessAI (job_payload job))
          else if String.eqb type "run_evaluation" then
            invoke type (handleRunEvaluation env (job_payload job))
          else if String.eqb type "process_webhook" then
            invoke type (handleProcessWebhook (job_payload job))
          else ret tt) ;;
  match r with
  | Ok _ => ret None
  | Err e => ret (Some e)
  end.

(** [processNext], the processor without semaphores and dead-letter
    routing; [pick] is the row [PickNextJob] claims. *)
Definition processNext (pick : option Job) : M unit :=
  r <- catch (PickNextJob env pick) ;;
  match r with
  | Err _ => ret tt
  | Ok job =>
      processed <- catch (IsJobProcessed env (job_id job)) ;;
      match processed with
      | Ok 1%Z => ignore (CompleteJob env (job_id job))
      | _ =>
          errProcessing <- dispatch_processNext job ;;
          match errProcessing with
          | Some err => ignore (FailJob env (Some (Error err)) (job_id job))
          | None =>
              ignore
                (tx <- BeginTx env ;;
                 tx <- qtx_RecordJobProcessed env (job_id job) tx ;;
                 tx <- qtx_CompleteJob env (job_id job) tx ;;
                 Commit env tx)
          end
      end
  end.

End Producers.

(** ** What a computation leaves as it is *)

(** [keeps R m]: whatever the world, [m] takes it to a world related to
    it by [R]. *)
Definition keeps {F A} (R : World F -> World F -> Prop) (m : M F A) : Prop :=
  forall w, R w (m w).2.

(** A relation that composes and does not look at the counters of the
    calls nor at the events published. *)
Record Frame {F} (R : World F -> World F -> Prop) : Prop := {
  frame_refl : forall w, R w w;
  frame_trans : forall a b c, R a b -> R b c -> R a c;
  frame_db_calls : forall w n, R w (set_db_calls n w);
  frame_emb_calls : forall w l, R w (set_emb_calls l w);
  frame_rand_calls : forall w n, R w (set_rand_calls n w);
  frame_sse_events : forall w l, R w (set_sse_events l w)
}.

(** No evaluation is in status [processing]. *)
Definition none_processing {F} (d : DB F) : Prop :=
  forall id evaluation,
    evaluations d !! id = Some evaluation ->
    eval_status evaluation <> "processing".

Definition keeps_none_processing {F} (w w' : World F) : Prop :=
  none_processing (db w) -> none_processing (db w').

(** Jobs, ledger, mails and handlers entered are the same. *)
Definition same_queue {F} (w w' : World F) : Prop :=
  jobs (db w') = jobs (db w)
  /\ processed_jobs (db w') = processed_jobs (db w)
  /\ mails w' = mails w
  /\ handled w' = handled w.

(** The three semaphores hold as many slots. *)
Definition same_slots {F} (w w' : World F) : Prop :=
  geminiSemaphore w' = geminiSemaphore w
  /\ emailSemaphore w' = emailSemaphore w
  /\ genericSemaphore w' = genericSemaphore w.

(** Requests to the model and texts sent for embedding are the same. *)
Definition same_requests {F} (w w' : World F) : Prop :=
  gen_calls w' = gen_calls w.

(** [m] sends at most [n] requests to the model. *)
Definition requests {F A} (n : nat) (m : M F A) : Prop :=
  forall w, exists new,
    gen_calls (m w).2 = (new ++ gen_calls w)%list /\ (length new <= n)%nat.

(** A job as the retry scan creates it. *)
Definition retry_job (j : Job) : Prop :=
  job_type j = "run_evaluation" /\ job_status j = "pending"
  /\ job_attempt_count j = Some 0%Z
  /\ json_valid (job_payload j) = true
  /\ p_is_retry (job_payload j) = true.

(** A world whose only evaluation is pending, with the job that runs
    it. *)
Definition world_pending : World float :=
  mkWorld 2000
    {| jobs := {[ 3%Z := job_eval ]}; processed_jobs := ∅;
       evaluations :=
         {[ "eval-1" := {| eval_tenant_id := "acme"; eval_user_id := 1;
                           eval_prompt_base := "X";
                           eval_status := "pending" |} ]};
       evaluation_checkpoints := ∅; iterations := []; audits := [] |}.

(** The message that the handler of a mail job hands to the mailer:
    recipient, subject and body, read off the three handlers. *)
Definition mail_of (job : Job) : option (string * string * string) :=
  let data := job_payload job in
  if String.eqb (job_type job) "send_email" then
    Some (p_to data, p_subject data, p_body data)
  else if String.eqb (job_type job) "send_password_reset_email" then
    Some (p_email data, "Recuperação de Senha",
          "Olá," ++ nl ++ nl
            ++ "Clique no link abaixo para redefinir sua senha:" ++ nl ++ nl
            ++ "http://localhost:8080/reset-password?token=" ++ p_token data
            ++ nl ++ nl ++ "Este link expira em 1 hora.")
  else if String.eqb (job_type job) "send_verification_email" then
    Some (p_email data, "Verifique seu E-mail",
          "Olá," ++ nl ++ nl
            ++ "Bem-vindo! Clique no link abaixo para verificar seu e-mail:"
            ++ nl ++ nl
            ++ "http://localhost:8080/verify-email?token=" ++ p_token data)
  else None.

(** A job of type [send_email] with a payload that parses. *)
Definition job_mail : Job :=
  mkJob 4 "send_email"
    {| json_valid := true; p_evaluation_id := ""; p_tenant_id := "";
       p_user_id := 0; p_prompt := ""; p_is_retry := false;
       p_to := "ana@example.org"; p_subject := "Welcome"; p_body := "Hello";
       p_email := ""; p_token := ""; p_webhook_id := 0 |}
    (Some 0) (Some 1000).

(** The sixth storage call fails: for a job that is picked, looked up
    in the ledger and run with success, the commit of its transaction. *)
Definition commitFailsEnv : Env float :=
  scriptedEnv (fun n _ => inl ("answer " ++ pretty.pretty n))
    (fun n => if (n =? 5)%nat then Some "database is locked" else None).


(** * Properties *)

(** ** CalculateDivergence *)

Section DivergenceR.
Open Scope R_scope.

Lemma dotR_self_nonneg (a : list R) : 0 <= dotR a a.
Proof.
  induction a as [|x xs IH]; simpl; [lra|].
  pose proof (Rle_0_sqr x) as Hx. unfold Rsqr in Hx. lra.
Qed.

Lemma divergence_sums_R (a : list R) :
  forall (b : list R) (d m1 m2 : R),
    length a = length b ->
    divergence_sums (F := R) a b (d, m1, m2)
    = (d + dotR a b, m1 + dotR a a, m2 + dotR b b).
Proof.
  induction a as [|x xs IH]; intros [|y ys] d m1 m2 Hlen;
    simpl in *; try discriminate.
  - f_equal; [f_equal|]; lra.
  - rewrite IH by lia. f_equal; [f_equal|]; lra.
Qed.

Lemma normR_zero_iff (a : list R) : normR a = 0 <-> dotR a a = 0.
Proof.
  unfold normR. split; intros Hz.
  - apply sqrt_eq_0; [apply dotR_self_nonneg | exact Hz].
  - rewrite Hz. apply sqrt_0.
Qed.

Lemma normR_one (a : list R) : normR a = 1 -> dotR a a = 1.
Proof.
  unfold normR. intros Hn.
  rewrite <- (sqrt_sqrt (dotR a a)) by apply dotR_self_nonneg.
  rewrite Hn. lra.
Qed.

Lemma dotR_opp_r (a : list R) : dotR a (map Ropp a) = - dotR a a.
Proof. induction a as [|x xs IH]; simpl; [lra | rewrite IH; lra]. Qed.

Lemma dotR_opp_opp (a : list R) :
  dotR (map Ropp a) (map Ropp a) = dotR a a.
Proof. induction a as [|x xs IH]; simpl; [lra | rewrite IH; lra]. Qed.

(** The body of [CalculateDivergence] once the length guard is passed. *)
Lemma CalculateDivergence_R_unfold (a b : list R) :
  length a = length b -> length a <> 0%nat ->
  CalculateDivergence (F := R) a b
  = if Req_dec_T (dotR a a) 0 then 0
    else if Req_dec_T (dotR b b) 0 then 0
    else clamp01 (1 - dotR a b / (normR a * normR b)).
Proof.
  intros Hlen Hne. unfold CalculateDivergence.
  assert (Hg : ((length a =? 0)%nat || (length b =? 0)%nat
                || negb (length a =? length b)%nat) = false).
  { rewrite <- Hlen. rewrite Nat.eqb_refl.
    destruct (Nat.eqb_spec (length a) 0); [contradiction | reflexivity]. }
  rewrite Hg. rewrite divergence_sums_R by exact Hlen.
  cbn [f_eqb f_ltb f_of_Z f_sub f_div f_mul f_sqrt exactR].
  rewrite !Rplus_0_l.
  destruct (Req_dec_T (dotR a a) 0) as [Ha|Ha]; [reflexivity|].
  destruct (Req_dec_T (dotR b b) 0) as [Hb|Hb]; [reflexivity|].
  cbn [orb]. fold (normR a) (normR b).
  set (d := 1 - dotR a b / (normR a * normR b)).
  unfold clamp01, Rmax, Rmin.
  destruct (Rlt_dec d 0) as [Hd0|Hd0].
  - destruct (Rlt_dec 1 0); [lra|].
    destruct (Rle_dec 1 d); [lra|].
    destruct (Rle_dec 0 d); [lra|]. reflexivity.
  - destruct (Rlt_dec 1 d) as [Hd1|Hd1].
    + destruct (Rle_dec 1 d); [|lra].
      destruct (Rle_dec 0 1); [reflexivity|lra].
    + destruct (Rle_dec 1 d) as [Hd2|Hd2].
      * assert (d = 1) by lra.
        destruct (Rle_dec 0 1); [lra|lra].
      * destruct (Rle_dec 0 d); [reflexivity|lra].
Qed.

(** C7.  Read over exact real arithmetic, [CalculateDivergence] is the
    cosine distance [1 - dot(a,b)/(|a| |b|)] clamped to the interval
    [0, 1]; empty or mismatched vectors give 1; of two vectors of the same
    positive length, one of magnitude zero gives 0, identical ones give 0,
    orthogonal unit vectors give 1 and opposite unit vectors give 1. *)
Theorem CalculateDivergence_cosine_distance (a b : list R) :
  (length a = 0%nat \/ length b = 0%nat \/ length a <> length b ->
   CalculateDivergence (F := R) a b = 1)
  /\ (length a = length b -> length a <> 0%nat ->
      (normR a = 0 \/ normR b = 0 -> CalculateDivergence (F := R) a b = 0)
      /\ (normR a <> 0 -> normR b <> 0 ->
          CalculateDivergence (F := R) a b
          = clamp01 (1 - dotR a b / (normR a * normR b)))
      /\ (a = b -> CalculateDivergence (F := R) a b = 0)
      /\ (normR a = 1 -> normR b = 1 -> dotR a b = 0 ->
          CalculateDivergence (F := R) a b = 1)
      /\ (normR a = 1 -> b = map Ropp a ->
          CalculateDivergence (F := R) a b = 1)).
Proof.
  split.
  - intros Hguard. unfold CalculateDivergence.
    assert (Hg : ((length a =? 0)%nat || (length b =? 0)%nat
                  || negb (length a =? length b)%nat) = true).
    { destruct (Nat.eqb_spec (length a) 0); [reflexivity|].
      destruct (Nat.eqb_spec (length b) 0); [reflexivity|].
      destruct (Nat.eqb_spec (length a) (length b)); [|reflexivity].
      destruct Hguard as [?|[?|?]]; contradiction. }
    rewrite Hg. reflexivity.
  - intros Hlen Hne.
    rewrite (CalculateDivergence_R_unfold a b Hlen Hne).
    repeat split.
    + intros [Hz|Hz]; apply normR_zero_iff in Hz.
      * destruct (Req_dec_T (dotR a a) 0); [reflexivity|contradiction].
      * destruct (Req_dec_T (dotR a a) 0); [reflexivity|].
        destruct (Req_dec_T (dotR b b) 0); [reflexivity|contradiction].
    + intros Ha Hb.
      destruct (Req_dec_T (dotR a a) 0) as [Hz|_];
        [apply normR_zero_iff in Hz; contradiction|].
      destruct (Req_dec_T (dotR b b) 0) as [Hz|_];
        [apply normR_zero_iff in Hz; contradiction|].
      reflexivity.
    + intros ->.
      destruct (Req_dec_T (dotR b b) 0) as [Hz|Hnz]; [reflexivity|].
      unfold normR. rewrite sqrt_sqrt by apply dotR_self_nonneg.
      replace (1 - dotR b b / dotR b b) with 0 by (field; exact Hnz).
      unfold clamp01, Rmax, Rmin.
      destruct (Rle_dec 1 0); [lra|].
      destruct (Rle_dec 0 0); [reflexivity|lra].
    + intros Ha Hb Hdot.
      pose proof (normR_one a Ha) as Ha1. pose proof (normR_one b Hb) as Hb1.
      destruct (Req_dec_T (dotR a a) 0); [lra|].
      destruct (Req_dec_T (dotR b b) 0); [lra|].
      rewrite Ha, Hb, Hdot.
      replace (1 - 0 / (1 * 1)) with 1 by field.
      unfold clamp01, Rmax, Rmin.
      destruct (Rle_dec 1 1); [|lra].
      destruct (Rle_dec 0 1); [reflexivity|lra].
    + intros Ha ->.
      pose proof (normR_one a Ha) as Ha1.
      unfold normR at 2. rewrite dotR_opp_opp, dotR_opp_r.
      fold (normR a). rewrite Ha, Ha1.
      destruct (Req_dec_T 1 0); [lra|].
      replace (1 - - (1) / (1 * 1)) with 2 by field.
      unfold clamp01, Rmax, Rmin.
      destruct (Rle_dec 1 2); [|lra].
      destruct (Rle_dec 0 1); [reflexivity|lra].
Qed.

End DivergenceR.

(** C7 at concrete vectors: the table of [TestCalculateDivergence], over
    the reals, with a vector of magnitude zero added. *)
Lemma CalculateDivergence_cosine_distance_witness :
  (CalculateDivergence (F := R) [1; 0; 0] [1; 0; 0] = 0
   /\ CalculateDivergence (F := R) [1; 0; 0] [0; 1; 0] = 1
   /\ CalculateDivergence (F := R) [1; 0; 0] [-1; 0; 0] = 1
   /\ CalculateDivergence (F := R) [] [] = 1
   /\ CalculateDivergence (F := R) [1; 0; 0] [1; 0] = 1
   /\ CalculateDivergence (F := R) [0; 0] [1; 0] = 0)%R.
Proof.
  assert (H100 : normR [1; 0; 0]%R = 1%R).
  { unfold normR. simpl.
    replace (1 * 1 + (0 * 0 + (0 * 0 + 0)))%R with 1%R by ring.
    apply sqrt_1. }
  assert (H010 : normR [0; 1; 0]%R = 1%R).
  { unfold normR. simpl.
    replace (0 * 0 + (1 * 1 + (0 * 0 + 0)))%R with 1%R by ring.
    apply sqrt_1. }
  assert (H00 : normR [0; 0]%R = 0%R).
  { unfold normR. simpl.
    replace (0 * 0 + (0 * 0 + 0))%R with 0%R by ring.
    apply sqrt_0. }
  split; [|split; [|split; [|split; [|split]]]].
  - destruct (proj2 (CalculateDivergence_cosine_distance
                       [1; 0; 0]%R [1; 0; 0]%R) eq_refl ltac:(discriminate))
      as (_ & _ & Hid & _).
    apply Hid. reflexivity.
  - destruct (proj2 (CalculateDivergence_cosine_distance
                       [1; 0; 0]%R [0; 1; 0]%R) eq_refl ltac:(discriminate))
      as (_ & _ & _ & Hort & _).
    apply Hort; [exact H100 | exact H010 | simpl; ring].
  - destruct (proj2 (CalculateDivergence_cosine_distance
                       [1; 0; 0]%R [-1; 0; 0]%R) eq_refl ltac:(discriminate))
      as (_ & _ & _ & _ & Hopp).
    apply Hopp; [exact H100|].
    simpl. repeat f_equal; ring.
  - apply (proj1 (CalculateDivergence_cosine_distance [] [])).
    left. reflexivity.
  - apply (proj1 (CalculateDivergence_cosine_distance
                    [1; 0; 0]%R [1; 0]%R)).
    right. right. discriminate.
  - destruct (proj2 (CalculateDivergence_cosine_distance
                       [0; 0]%R [1; 0]%R) eq_refl ltac:(discriminate))
      as (Hz & _).
    apply Hz. left. exact H00.
Defined.

(** The same table evaluated in binary64, with the tolerance of the test. *)

Example TestCalculateDivergence_binary64 :
  forallb
    (fun t : list float * list float * float =>
       within_tolerance (CalculateDivergence t.1.1 t.1.2) t.2
         (PrimFloat.div 1 10000))
    [ ([1; 0; 0], [1; 0; 0], 0);
      ([1; 0; 0], [0; 1; 0], 1);
      ([1; 0; 0], [-1; 0; 0], 1);
      ([], [], 1);
      ([1; 0; 0], [1; 0], 1);
      ([f_dec 9 1; f_dec 1 1; 0], [f_dec 9 1; f_dec 1 1; 0], 0) ]%float
  = true.
Proof. vm_compute. reflexivity. Qed.

(** ** calculateBackoffDelay *)

Section BackoffR.
Open Scope R_scope.

Lemma Int_part_bounds (r : R) (lo hi : Z) :
  IZR lo <= r -> r <= IZR hi -> (lo <= Int_part r <= hi)%Z.
Proof.
  intros Hlo Hhi. destruct (base_Int_part r) as [H1 H2]. split.
  - assert (Hlt : IZR (lo - 1) < IZR (Int_part r)).
    { rewrite minus_IZR. lra. }
    apply lt_IZR in Hlt. lia.
  - apply le_IZR. lra.
Qed.

Lemma Int_part_IZR (z : Z) : Int_part (IZR z) = z.
Proof. symmetry. apply Int_part_spec. lra. Qed.

Lemma powerRZ_2_ge_1 (n : Z) : (0 <= n)%Z -> 1 <= powerRZ 2 n.
Proof.
  intros Hn. destruct n as [|p|p]; [simpl; lra | | lia].
  simpl. apply pow_R1_Rle. lra.
Qed.


Lemma calculateBackoffDelay_R (u : R) (attempt : Z) :
  (0 <= attempt)%Z -> 0 <= u < 1 ->
  calculateBackoffDelay (F := R) u attempt
  = Int_part (Rmin (IZR MaxRetryDelay) (backoff_jittered u attempt)).
Proof.
  intros Hn Hu. pose proof (powerRZ_2_ge_1 attempt Hn) as Hp.
  unfold calculateBackoffDelay, int64_of_float, f_dec, BackoffMultiplier.
  cbn [f_eqb f_ltb f_of_Z f_sub f_div f_mul f_add f_pow f_trunc exactR].
  change (IZR (10 ^ Z.of_nat 1)) with 10.
  assert (Hb : IZR BaseRetryDelay = 10000000000) by reflexivity.
  assert (Hm : IZR MaxRetryDelay = 300000000000) by reflexivity.
  set (j := IZR BaseRetryDelay * powerRZ 2 attempt
            + IZR BaseRetryDelay * powerRZ 2 attempt * (2 / 10) * u).
  assert (Hj : j = backoff_jittered u attempt).
  { unfold j, backoff_jittered. field. }
  assert (Hjpos : 0 <= j).
  { rewrite Hj. unfold backoff_jittered. rewrite Hb.
    apply Rmult_le_pos; [|lra].
    apply Rmult_le_pos; lra. }
  set (c := if (if Rlt_dec (IZR MaxRetryDelay) j then true else false)
            then IZR MaxRetryDelay else j).
  assert (Hc : c = Rmin (IZR MaxRetryDelay) (backoff_jittered u attempt)).
  { unfold c, Rmin. rewrite <- Hj.
    destruct (Rlt_dec (IZR MaxRetryDelay) j);
      destruct (Rle_dec (IZR MaxRetryDelay) j); lra. }
  assert (Hc0 : 0 <= c <= IZR MaxRetryDelay).
  { unfold c. destruct (Rlt_dec (IZR MaxRetryDelay) j); lra. }
  unfold R_trunc. destruct (Rle_dec 0 c) as [_|Hneg]; [|lra].
  destruct (Int_part_bounds c 0 MaxRetryDelay) as [Hlo Hhi]; [lra|lra|].
  assert (Hr : ((- 2 ^ 63 <=? Int_part c)%Z && (Int_part c <? 2 ^ 63)%Z) = true).
  { apply andb_true_intro. split.
    - apply Z.leb_le. lia.
    - apply Z.ltb_lt. unfold MaxRetryDelay, Minute, Second in Hhi. lia. }
  rewrite Hr. rewrite Hc. reflexivity.
Qed.

(** C8, as the code has it.  For an attempt count [n >= 0] and a draw
    [u] of [0, 1) the delay is [min(maxDelay, baseDelay * 2^n * (1 + 0.2 u))]
    in whole nanoseconds, with base delay 10 s, multiplier 2 and a cap of
    5 minutes: the jitter is only ever added (a factor between 1 and 1.2),
    it is proportional to the uncapped exponential delay, and the cap is
    applied after it, so the result is never below the capped exponential
    delay and never above the cap. *)
Theorem calculateBackoffDelay_one_sided_jitter (u : R) (attempt : Z) :
  (0 <= attempt)%Z -> 0 <= u < 1 ->
  let exponential := IZR (10 * Second) * powerRZ 2 attempt in
  let jittered := exponential * (1 + 2 / 10 * u) in
  calculateBackoffDelay (F := R) u attempt
  = Int_part (Rmin (IZR (5 * Minute)) jittered)
  /\ exponential <= jittered < exponential * (12 / 10)
  /\ Rmin (IZR (5 * Minute)) exponential - 1
     < IZR (calculateBackoffDelay (F := R) u attempt)
     <= IZR (5 * Minute).
Proof.
  intros Hn Hu exponential jittered.
  pose proof (powerRZ_2_ge_1 attempt Hn) as Hp.
  assert (Hb : IZR (10 * Second) = 10000000000) by reflexivity.
  assert (Hm : IZR (5 * Minute) = 300000000000) by reflexivity.
  assert (He : 0 < exponential).
  { unfold exponential. rewrite Hb. apply Rmult_lt_0_compat; lra. }
  assert (Hj : exponential <= jittered < exponential * (12 / 10)).
  { unfold jittered. split.
    - rewrite <- (Rmult_1_r exponential) at 1.
      apply Rmult_le_compat_l; lra.
    - apply Rmult_lt_compat_l; lra. }
  rewrite (calculateBackoffDelay_R u attempt Hn Hu).
  change (backoff_jittered u attempt) with jittered.
  change (IZR MaxRetryDelay) with (IZR (5 * Minute)).
  split; [reflexivity|]. split; [exact Hj|].
  destruct (base_Int_part (Rmin (IZR (5 * Minute)) jittered)) as [H1 H2].
  assert (Hmin : Rmin (IZR (5 * Minute)) exponential
                 <= Rmin (IZR (5 * Minute)) jittered).
  { apply Rle_min_compat_l. lra. }
  pose proof (Rmin_l (IZR (5 * Minute)) jittered). lra.
Qed.

(** C8 at attempt 0 with the draw 1/2. *)
Lemma calculateBackoffDelay_one_sided_jitter_witness :
  calculateBackoffDelay (F := R) (1 / 2) 0
  = Int_part (Rmin (IZR (5 * Minute))
                (IZR (10 * Second) * powerRZ 2 0 * (1 + 2 / 10 * (1 / 2)))).
Proof.
  apply (calculateBackoffDelay_one_sided_jitter (1 / 2) 0); [lia | lra].
Defined.

Lemma calculateBackoffDelay_R_attempt0_half :
  calculateBackoffDelay (F := R) (/ 2) 0 = (11 * Second)%Z.
Proof.
  rewrite calculateBackoffDelay_R by (try lia; lra).
  unfold backoff_jittered.
  replace (IZR BaseRetryDelay * powerRZ 2 0 * (1 + 2 / 10 * / 2))
    with (IZR (11 * Second)).
  2:{ change (IZR BaseRetryDelay) with 10000000000.
      change (IZR (11 * Second)) with 11000000000. simpl. field. }
  rewrite Rmin_right.
  - apply Int_part_IZR.
  - change (IZR MaxRetryDelay) with 300000000000.
    change (IZR (11 * Second)) with 11000000000. lra.
Qed.

(** C8 as stated fails: whatever the jitter fraction, the delay is not
    the capped exponential times a symmetric factor.  At attempt 0 the
    draw 1/2 sits in the middle of a symmetric jitter, which gives 10 s;
    the code gives 11 s. *)
Lemma calculateBackoffDelay_not_symmetric :
  ~ (exists jitterFraction : R,
       forall (attempt : Z) (u : R),
         (0 <= attempt)%Z -> 0 <= u < 1 ->
         IZR (calculateBackoffDelay (F := R) u attempt)
         = spec_backoff_delay jitterFraction u attempt).
Proof.
  intros [f Hf].
  specialize (Hf 0%Z (/ 2) ltac:(lia) ltac:(lra)).
  rewrite calculateBackoffDelay_R_attempt0_half in Hf.
  unfold spec_backoff_delay in Hf.
  change (IZR (11 * Second)) with 11000000000 in Hf.
  change (IZR MaxRetryDelay) with 300000000000 in Hf.
  change (IZR BaseRetryDelay) with 10000000000 in Hf.
  simpl powerRZ in Hf.
  rewrite Rmin_right in Hf by lra.
  replace ((/ 2 - / 2) * 2) with 0 in Hf by field.
  lra.
Qed.

End BackoffR.

(** The same in binary64: the delay of attempt 0 runs from 10 s (draw 0)
    upwards, and from attempt 5 on it is the cap whatever the draw. *)
Example calculateBackoffDelay_binary64 :
  map (fun p : float * Z => calculateBackoffDelay p.1 p.2)
    [ (0%float, 0); (f_dec 5 1, 0); (f_dec 999 3, 0); (0%float, 4);
      (f_dec 5 1, 4); (0%float, 5); (f_dec 5 1, 5); (f_dec 5 1, 9) ]
  = [ 10 * Second; 11 * Second; 11998 * (Second / 1000); 160 * Second;
      176 * Second; 5 * Minute; 5 * Minute; 5 * Minute ]%Z.
Proof. vm_compute. reflexivity. Qed.

(** ** Running the monad *)

Section MonadLemmas.
Context {F : Type} `{Float64Ops F} (env : Env F).

Lemma bind_ok {A B} (m : M F A) (k : A -> M F B) w a w1 :
  m w = (Ok a, w1) -> bind m k w = k a w1.
Proof. unfold bind. intros ->. reflexivity. Qed.

Lemma bind_err {A B} (m : M F A) (k : A -> M F B) w e w1 :
  m w = (Err e, w1) -> bind m k w = (Err e, w1).
Proof. unfold bind. intros ->. reflexivity. Qed.

Lemma storage_ok {A} (q : Z -> DB F -> result A * DB F) w :
  db_fault env (db_calls w) = None ->
  storage env q w
  = ((q (clock w) (db w)).1,
     set_db (q (clock w) (db w)).2 (set_db_calls (S (db_calls w)) w)).
Proof.
  unfold storage. intros ->. destruct (q (clock w) (db w)); reflexivity.
Qed.

Lemma storage_fault {A} (q : Z -> DB F -> result A * DB F) w msg :
  db_fault env (db_calls w) = Some msg ->
  storage env q w = (Err (ErrorString msg), set_db_calls (S (db_calls w)) w).
Proof. unfold storage. intros ->. reflexivity. Qed.

Lemma exec_ok (upd : Z -> DB F -> DB F) w :
  db_fault env (db_calls w) = None ->
  exec env upd w
  = (Ok tt, set_db (upd (clock w) (db w)) (set_db_calls (S (db_calls w)) w)).
Proof. intros Hf. unfold exec. rewrite storage_ok by exact Hf. reflexivity. Qed.

Lemma exec_fault (upd : Z -> DB F -> DB F) w msg :
  db_fault env (db_calls w) = Some msg ->
  exec env upd w = (Err (ErrorString msg), set_db_calls (S (db_calls w)) w).
Proof. intros Hf. unfold exec. apply storage_fault. exact Hf. Qed.

(** A storage call leaves everything but the tables and the call count. *)
Lemma storage_frame {A} (q : Z -> DB F -> result A * DB F) w :
  let w' := (storage env q w).2 in
  clock w' = clock w /\ db_calls w' = S (db_calls w)
  /\ gen_calls w' = gen_calls w /\ emb_calls w' = emb_calls w
  /\ rand_calls w' = rand_calls w /\ mails w' = mails w
  /\ sse_events w' = sse_events w /\ handled w' = handled w.
Proof.
  unfold storage. destruct (db_fault env (db_calls w)); simpl.
  - repeat split.
  - destruct (q (clock w) (db w)); simpl. repeat split.
Qed.

End MonadLemmas.

(** ** The dead-letter router *)

Lemma time_Since_day (now created : Z) :
  (24 * Hour <? time_Since now created)%Z = (86400 <? now - created)%Z.
Proof.
  unfold time_Since, maxDuration, minDuration, Hour, Minute, Second.
  destruct (Z.ltb_spec 86400 (now - created));
    destruct (Z.ltb_spec (24 * (60 * (60 * 1000000000)))
                (Z.max (- 2 ^ 63)
                   (Z.min (2 ^ 63 - 1) ((now - created) * 1000000000))));
    try reflexivity; lia.
Qed.

Lemma shouldMoveToDeadLetterQueue_iff (now : Z) (job : Job) :
  shouldMoveToDeadLetterQueue now job = true
  <-> (5 <= default 0 (job_attempt_count job))%Z
      \/ job_created_at job = None
      \/ (exists created, job_created_at job = Some created
                          /\ (86400 < now - created)%Z).
Proof.
  unfold shouldMoveToDeadLetterQueue.
  destruct (Z.leb_spec 5 (default 0%Z (job_attempt_count job))) as [Ha|Ha].
  - split; [intros _; left; exact Ha | reflexivity].
  - destruct (job_created_at job) as [created|].
    + rewrite time_Since_day.
      destruct (Z.ltb_spec 86400 (now - created)) as [Hd|Hd].
      * split; [|reflexivity]. intros _. right. right.
        exists created. split; [reflexivity | exact Hd].
      * split; [discriminate|].
        intros [Hc|[Hc|[c [Hc Hlt]]]]; [lia | discriminate |].
        inversion Hc; subst. lia.
    + split; [|reflexivity]. intros _. right. left. reflexivity.
Qed.

Section WorkerLemmas.
Context {F : Type} `{Float64Ops F} (env : Env F).

(** The four calls of the success path of [processJobWithMetrics]: both
    writes reach the tables, or none does. *)
Lemma success_transaction (job : Job) (w1 : World F) :
  let tx := ignore
              (tx <- BeginTx env ;;
               tx <- qtx_RecordJobProcessed env (job_id job) tx ;;
               tx <- qtx_CompleteJob env (job_id job) tx ;;
               Commit env tx) in
  let n := db_calls w1 in
  let committed :=
    on_job (job_id job) complete_job
      (set_processed_jobs ({[ job_id job ]} ∪ processed_jobs (db w1))
         (db w1)) in
  (tx w1).1 = Ok tt
  /\ handled (tx w1).2 = handled w1
  /\ ((db_fault env n = None /\ db_fault env (S n) = None
       /\ db_fault env (S (S n)) = None /\ db_fault env (S (S (S n))) = None
       /\ db (tx w1).2 = committed)
      \/ ((db_fault env n <> None \/ db_fault env (S n) <> None
           \/ db_fault env (S (S n)) <> None
           \/ db_fault env (S (S (S n))) <> None)
          /\ db (tx w1).2 = db w1)).
Proof.
  cbv zeta.
  unfold ignore, bind, BeginTx, qtx_RecordJobProcessed, qtx_CompleteJob,
    tx_exec, Commit, storage.
  destruct (db_fault env (db_calls w1)) eqn:E0; simpl.
  { repeat split. right. split; [left; discriminate | reflexivity]. }
  destruct (db_fault env (S (db_calls w1))) eqn:E1; simpl.
  { repeat split. right. split; [right; left; discriminate | reflexivity]. }
  destruct (db_fault env (S (S (db_calls w1)))) eqn:E2; simpl.
  { repeat split. right.
    split; [right; right; left; discriminate | reflexivity]. }
  destruct (db_fault env (S (S (S (db_calls w1))))) eqn:E3; simpl.
  { repeat split. right.
    split; [right; right; right; discriminate | reflexivity]. }
  repeat split. left. repeat split.
Qed.

Lemma processJobWithMetrics_success (job : Job) (w w1 : World F) :
  dispatch env job w = (Ok None, w1) ->
  processJobWithMetrics env job w
  = ignore
      (tx <- BeginTx env ;;
       tx <- qtx_RecordJobProcessed env (job_id job) tx ;;
       tx <- qtx_CompleteJob env (job_id job) tx ;;
       Commit env tx) w1.
Proof.
  intros Hd. unfold processJobWithMetrics.
  rewrite (bind_ok _ _ _ _ _ Hd). reflexivity.
Qed.

Lemma processJobWithMetrics_failure (job : Job) (w w1 : World F) err :
  dispatch env job w = (Ok (Some err), w1) ->
  processJobWithMetrics env job w
  = ignore
      (FailJob env
         (Some (if shouldMoveToDeadLetterQueue (clock w1) job
                then "MOVED_TO_DLQ: " ++ Error err else Error err))
         (job_id job)) w1.
Proof.
  intros Hd. unfold processJobWithMetrics.
  rewrite (bind_ok _ _ _ _ _ Hd). unfold bind, get.
  destruct (shouldMoveToDeadLetterQueue (clock w1) job); reflexivity.
Qed.

Lemma ignore_FailJob (msg : option string) (id : Z) (w : World F) :
  let w' := (ignore (FailJob env msg id) w).2 in
  (ignore (FailJob env msg id) w).1 = Ok tt
  /\ handled w' = handled w
  /\ gen_calls w' = gen_calls w
  /\ clock w' = clock w
  /\ db_calls w' = S (db_calls w)
  /\ processed_jobs (db w') = processed_jobs (db w)
  /\ evaluations (db w') = evaluations (db w)
  /\ jobs (db w')
     = match db_fault env (db_calls w) with
       | None => alter (fail_job msg) id (jobs (db w))
       | Some _ => jobs (db w)
       end.
Proof.
  unfold ignore, FailJob, exec, storage.
  destruct (db_fault env (db_calls w)); simpl; repeat split.
Qed.

Lemma dispatch_unknown (job : Job) (w : World F) :
  known_job_type (job_type job) = false ->
  dispatch env job w
  = (Ok (Some (ErrorString ("unknown job type: " ++ job_type job))), w).
Proof.
  unfold known_job_type. intros Hk.
  repeat (apply orb_false_elim in Hk; destruct Hk as [Hk ?]).
  unfold dispatch, bind, catch.
  repeat match goal with Heq : String.eqb _ _ = false |- _ =>
                           rewrite Heq; clear Heq end.
  reflexivity.
Qed.

End WorkerLemmas.

(** ** Claims on the worker *)

(** C9, as the code has it.  A failed job is routed to the dead-letter
    path exactly when its attempt count is at least 5, or it has no
    creation time, or it was created more than 24 hours ago.  A routed job
    is failed with its error text behind the marker [MOVED_TO_DLQ: ]; a
    failed job that is not routed is failed with the plain error text; and
    a job whose handler succeeds is never routed, whatever its attempts and
    age: its row is left alone or completed. *)
Theorem dead_letter_routing {F} `{Float64Ops F} (env : Env F) (job : Job)
  (w : World F) :
  (forall now,
     shouldMoveToDeadLetterQueue now job = true
     <-> (5 <= default 0 (job_attempt_count job))%Z
         \/ job_created_at job = None
         \/ (exists created, job_created_at job = Some created
                             /\ (24 * 60 * 60 < now - created)%Z))
  /\ (forall err w1,
        dispatch env job w = (Ok (Some err), w1) ->
        db_fault env (db_calls w1) = None ->
        jobs (db (processJobWithMetrics env job w).2)
        = alter
            (fail_job
               (Some (if shouldMoveToDeadLetterQueue (clock w1) job
                      then "MOVED_TO_DLQ: " ++ Error err else Error err)))
            (job_id job) (jobs (db w1)))
  /\ (forall w1,
        dispatch env job w = (Ok None, w1) ->
        jobs (db (processJobWithMetrics env job w).2) = jobs (db w1)
        \/ jobs (db (processJobWithMetrics env job w).2)
           = alter complete_job (job_id job) (jobs (db w1))).
Proof.
  split; [|split].
  - intros now. apply shouldMoveToDeadLetterQueue_iff.
  - intros err w1 Hd Hf.
    rewrite (processJobWithMetrics_failure env job w w1 err Hd).
    destruct (ignore_FailJob env
                (Some (if shouldMoveToDeadLetterQueue (clock w1) job
                       then "MOVED_TO_DLQ: " ++ Error err else Error err))
                (job_id job) w1) as (_ & _ & _ & _ & _ & _ & _ & Hj).
    rewrite Hj, Hf. reflexivity.
  - intros w1 Hd.
    rewrite (processJobWithMetrics_success env job w w1 Hd).
    destruct (success_transaction env job w1)
      as (_ & _ & [(_ & _ & _ & _ & Hc)|(_ & Hc)]).
    + right. rewrite Hc. reflexivity.
    + left. rewrite Hc. reflexivity.
Qed.

(** C9 on a job with five attempts behind it: the sixth failure routes it. *)
Lemma dead_letter_routing_witness :
  job_last_error
    <$> jobs (db (processJobWithMetrics quietEnv job_unknown5
                    (mkWorld 2000 (mkDB [job_unknown5] [] []))).2) !! 1%Z
  = Some (Some "MOVED_TO_DLQ: unknown job type: resize_image").
Proof.
  destruct (dead_letter_routing quietEnv job_unknown5
              (mkWorld 2000 (mkDB [job_unknown5] [] []))) as (_ & Hroute & _).
  rewrite (Hroute (ErrorString "unknown job type: resize_image")
             (mkWorld 2000 (mkDB [job_unknown5] [] []))
             ltac:(vm_compute; reflexivity) ltac:(reflexivity)).
  vm_compute. reflexivity.
Defined.

(** C9 as stated fails: a job that has made no attempt and has no creation
    time on record, hence no age above 24 hours, is routed all the same. *)
Lemma dead_letter_without_creation_time :
  shouldMoveToDeadLetterQueue 2000 job_no_created_at = true
  /\ job_attempt_count job_no_created_at = Some 0%Z
  /\ job_created_at job_no_created_at = None.
Proof. repeat split. Qed.

Section UnknownType.
Context {F : Type} `{Float64Ops F} (env : Env F).

Lemma pick_unknown_once (job : Job) (w : World F) :
  known_job_type (job_type job) = false ->
  (forall n, db_fault env n = None) ->
  jobs (db w) !! job_id job = Some job ->
  let w' := (processJobWithMetrics env job w).2 in
  clock w' = clock w
  /\ jobs (db w') !! job_id job
     = Some (fail_job
               (Some (if shouldMoveToDeadLetterQueue (clock w) job
                      then "MOVED_TO_DLQ: unknown job type: " ++ job_type job
                      else "unknown job type: " ++ job_type job)) job).
Proof.
  intros Hk Hnf Hin.
  rewrite (processJobWithMetrics_failure env job w w _
             (dispatch_unknown env job w Hk)).
  match goal with |- context [ignore (FailJob env ?m ?i) w] =>
    destruct (ignore_FailJob env m i w) as (_ & _ & _ & Hc & _ & _ & _ & Hj)
  end.
  cbv zeta. split; [exact Hc|].
  rewrite Hj, Hnf, lookup_alter_eq, Hin. simpl.
  destruct (shouldMoveToDeadLetterQueue (clock w) job); reflexivity.
Qed.

Lemma repick_unknown (n : nat) :
  forall (job : Job) (a : Z) (w : World F),
    known_job_type (job_type job) = false ->
    (forall k, db_fault env k = None) ->
    jobs (db w) !! job_id job = Some job ->
    job_attempt_count job = Some a ->
    (5 <= a + Z.of_nat n)%Z ->
    exists job',
      jobs (db (repick env (job_id job) (S n) w)) !! job_id job = Some job'
      /\ job_status job' = "failed"
      /\ job_last_error job'
         = Some ("MOVED_TO_DLQ: unknown job type: " ++ job_type job).
Proof.
  induction n as [|n IH]; intros job a w Hk Hnf Hin Ha Hge.
  - simpl. rewrite Hin.
    destruct (pick_unknown_once job w Hk Hnf Hin) as [_ Hrow].
    eexists. split; [exact Hrow|]. split; [reflexivity|].
    simpl. unfold shouldMoveToDeadLetterQueue. rewrite Ha. simpl.
    destruct (Z.leb_spec 5 a); [reflexivity | lia].
  - cbn [repick]. rewrite Hin.
    destruct (pick_unknown_once job w Hk Hnf Hin) as [_ Hrow].
    set (job1 := fail_job _ job) in Hrow.
    specialize (IH job1 (a + 1)%Z (processJobWithMetrics env job w).2).
    change (job_id job1) with (job_id job) in IH.
    change (job_type job1) with (job_type job) in IH.
    apply IH; [exact Hk | exact Hnf | exact Hrow | | lia].
    unfold job1. simpl. rewrite Ha. reflexivity.
Qed.

End UnknownType.

(** C10.  A job whose type has no case in [processJobWithMetrics] is a
    processing failure with the error [unknown job type: <type>]: no
    handler is entered, the idempotency ledger is not touched and the job
    is not marked completed; unless the storage call itself fails the job
    is marked failed with that error (behind the dead-letter marker once
    the router says so); and, stored with a non-negative attempt count and
    picked six times in a row, it ends dead-lettered. *)
Theorem unknown_job_type_fails {F} `{Float64Ops F} (env : Env F) (job : Job)
  (w : World F) :
  known_job_type (job_type job) = false ->
  let w' := (processJobWithMetrics env job w).2 in
  let text := "unknown job type: " ++ job_type job in
  let recorded :=
    if shouldMoveToDeadLetterQueue (clock w) job
    then "MOVED_TO_DLQ: " ++ text else text in
  handled w' = handled w
  /\ processed_jobs (db w') = processed_jobs (db w)
  /\ (jobs (db w') = jobs (db w)
      \/ jobs (db w') = alter (fail_job (Some recorded)) (job_id job)
                          (jobs (db w)))
  /\ (db_fault env (db_calls w) = None ->
      jobs (db w') = alter (fail_job (Some recorded)) (job_id job)
                       (jobs (db w)))
  /\ (forall a,
        (forall k, db_fault env k = None) ->
        jobs (db w) !! job_id job = Some job ->
        job_attempt_count job = Some a -> (0 <= a)%Z ->
        exists job',
          jobs (db (repick env (job_id job) 6 w)) !! job_id job = Some job'
          /\ job_status job' = "failed"
          /\ job_last_error job' = Some ("MOVED_TO_DLQ: " ++ text)).
Proof.
  intros Hk. cbv zeta.
  rewrite (processJobWithMetrics_failure env job w w _
             (dispatch_unknown env job w Hk)).
  match goal with |- context [ignore (FailJob env ?m ?i) w] =>
    destruct (ignore_FailJob env m i w)
      as (_ & Hh & _ & _ & _ & Hp & _ & Hj)
  end.
  assert (Hm : (if shouldMoveToDeadLetterQueue (clock w) job
                then "MOVED_TO_DLQ: " ++
                     Error (ErrorString ("unknown job type: " ++ job_type job))
                else Error (ErrorString ("unknown job type: " ++ job_type job)))
               = (if shouldMoveToDeadLetterQueue (clock w) job
                  then "MOVED_TO_DLQ: " ++ ("unknown job type: " ++ job_type job)
                  else "unknown job type: " ++ job_type job))
    by reflexivity.
  rewrite Hm in *.
  split; [exact Hh|]. split; [exact Hp|]. split; [|split].
  - rewrite Hj. destruct (db_fault env (db_calls w)); [left|right]; reflexivity.
  - intros Hf. rewrite Hj, Hf. reflexivity.
  - intros a Hnf Hin Ha Hpos.
    apply (repick_unknown env 5 job a w Hk Hnf Hin Ha). lia.
Qed.

(** C10 on a job of the unknown type [resize_image]. *)
Lemma unknown_job_type_fails_witness :
  let w := mkWorld 2000 (mkDB [job_unknown5] [] []) in
  let w' := (processJobWithMetrics quietEnv job_unknown5 w).2 in
  handled w' = [] /\ processed_jobs (db w') = processed_jobs (db w).
Proof.
  cbv zeta.
  destruct (unknown_job_type_fails quietEnv job_unknown5
              (mkWorld 2000 (mkDB [job_unknown5] [] [])) eq_refl)
    as (Hh & Hp & _).
  split; [exact Hh | exact Hp].
Defined.

(** C1, as the code has it.  When the handler of a job returns success,
    the idempotency record and the completion are written in one
    transaction: if its four calls (begin, insert, complete, commit) all
    succeed both writes are in the tables, and if any of them fails the
    tables are as the handler left them, so the job is still as it was
    picked.  When the idempotency lookup succeeds and finds the record, the
    worker issues the completion of the job and returns without entering
    any handler, calling the model or sending mail. *)
Theorem at_most_once_application {F} `{Float64Ops F} (env : Env F) (job : Job)
  (w : World F) :
  (forall w1,
     dispatch env job w = (Ok None, w1) ->
     let w' := (processJobWithMetrics env job w).2 in
     let n := db_calls w1 in
     (db_fault env n = None /\ db_fault env (S n) = None
      /\ db_fault env (S (S n)) = None /\ db_fault env (S (S (S n))) = None
      /\ db w'
         = on_job (job_id job) complete_job
             (set_processed_jobs ({[ job_id job ]} ∪ processed_jobs (db w1))
                (db w1)))
     \/ ((db_fault env n <> None \/ db_fault env (S n) <> None
          \/ db_fault env (S (S n)) <> None
          \/ db_fault env (S (S (S n))) <> None)
         /\ db w' = db w1))
  /\ (db_fault env (db_calls w) = None ->
      db_fault env (S (db_calls w)) = None ->
      job_id job ∈ processed_jobs (db w) ->
      let w' := (processNextWithRateLimit env (Some job) w).2 in
      handled w' = handled w /\ gen_calls w' = gen_calls w
      /\ mails w' = mails w
      /\ processed_jobs (db w') = processed_jobs (db w)
      /\ jobs (db w')
         = match db_fault env (S (S (db_calls w))) with
           | None => alter complete_job (job_id job) (jobs (db w))
           | Some _ => jobs (db w)
           end).
Proof.
  split.
  - intros w1 Hd. cbv zeta.
    rewrite (processJobWithMetrics_success env job w w1 Hd).
    destruct (success_transaction env job w1) as (_ & _ & Hcases).
    exact Hcases.
  - intros Hf0 Hf1 Hin. cbv zeta.
    unfold processNextWithRateLimit, bind, catch, PickNextJob, IsJobProcessed,
      storage.
    rewrite Hf0. cbn -[decide]. rewrite Hf1. cbn -[decide].
    destruct (decide (job_id job ∈ processed_jobs (db w))) as [_|Hn];
      [|contradiction].
    unfold ignore, CompleteJob, exec, storage. cbn.
    destruct (db_fault env (S (S (db_calls w)))); cbn; repeat split.
Qed.

(** C1 on a job that the ledger lists: it is completed, no handler runs. *)
Lemma at_most_once_application_witness :
  let w := mkWorld 2000 (mkDB [job_ledgered] [7%Z] []) in
  let w' := (processNextWithRateLimit quietEnv (Some job_ledgered) w).2 in
  handled w' = []
  /\ job_status <$> jobs (db w') !! 7%Z = Some "completed".
Proof.
  cbv zeta.
  destruct (at_most_once_application quietEnv job_ledgered
              (mkWorld 2000 (mkDB [job_ledgered] [7%Z] [])))
    as (_ & Hskip).
  destruct (Hskip eq_refl eq_refl) as (Hh & _ & _ & _ & Hj).
  { apply (bool_decide_unpack _). vm_compute. exact I. }
  split; [exact Hh|]. rewrite Hj. vm_compute. reflexivity.
Defined.

(** C1 as stated fails when the idempotency lookup itself fails: the
    ledger lists the job, yet its handler is entered (and, the later calls
    succeeding, the job is recorded and completed once more). *)
Lemma handler_runs_when_lookup_fails :
  let w := mkWorld 2000 (mkDB [job_ledgered] [7%Z] []) in
  let w' := (processNextWithRateLimit lookupFailsEnv (Some job_ledgered) w).2 in
  bool_decide (job_id job_ledgered ∈ processed_jobs (db w)) = true
  /\ handled w' = ["process_webhook"].
Proof. vm_compute. split; reflexivity. Qed.

(** ** Which phases a computation announces *)

Section Announces.
Context {F : Type} `{Float64Ops F} (env : Env F).

Lemma steps_from_nil (k : Z) : steps_from (F := F) k [].
Proof. constructor. Qed.

Lemma steps_from_app (k : Z) (a b : list (SSEEvent F)) :
  steps_from k a -> steps_from k b -> steps_from k (a ++ b)%list.
Proof. unfold steps_from. intros Ha Hb. apply Forall_app. split; assumption. Qed.

Lemma steps_from_weaken (k k' : Z) (evs : list (SSEEvent F)) :
  (k <= k')%Z -> steps_from k' evs -> steps_from k evs.
Proof.
  unfold steps_from. intros Hk Hevs.
  eapply Forall_impl; [exact Hevs|]. intros [? ? step ?|? ? ?]; simpl; lia.
Qed.

Lemma announces_silent {A} (k : Z) (m : M F A) :
  (forall w, sse_events (m w).2 = sse_events w) -> announces k m.
Proof.
  intros Hm w. exists []. split; [apply Hm | apply steps_from_nil].
Qed.

Lemma announces_weaken {A} (k k' : Z) (m : M F A) :
  (k <= k')%Z -> announces k' m -> announces k m.
Proof.
  intros Hk Hm w. destruct (Hm w) as (new & Hnew & Hsteps).
  exists new. split; [exact Hnew | eapply steps_from_weaken; eassumption].
Qed.

Lemma announces_ret {A} (k : Z) (a : A) : announces (F := F) k (ret a).
Proof. apply announces_silent. reflexivity. Qed.

Lemma announces_fail {A} (k : Z) (e : error) :
  announces (F := F) (A := A) k (fail e).
Proof. apply announces_silent. reflexivity. Qed.

Lemma announces_get (k : Z) : announces (F := F) k get.
Proof. apply announces_silent. reflexivity. Qed.

Lemma announces_bind {A B} (k : Z) (m : M F A) (f : A -> M F B) :
  announces k m -> (forall a, announces k (f a)) -> announces k (bind m f).
Proof.
  intros Hm Hf w. unfold bind. destruct (Hm w) as (new & Hnew & Hsteps).
  destruct (m w) as [[a|e] w1]; simpl in *.
  - destruct (Hf a w1) as (new2 & Hnew2 & Hsteps2).
    exists (new2 ++ new)%list. rewrite Hnew2, Hnew, app_assoc.
    split; [reflexivity | apply steps_from_app; assumption].
  - exists new. split; assumption.
Qed.

Lemma announces_catch {A} (k : Z) (m : M F A) :
  announces k m -> announces k (catch m).
Proof.
  intros Hm w. unfold catch. destruct (Hm w) as (new & Hnew & Hsteps).
  destruct (m w) as [r w1]. exists new. split; assumption.
Qed.

Lemma announces_ignore {A} (k : Z) (m : M F A) :
  announces k m -> announces k (ignore m).
Proof.
  intros Hm w. unfold ignore. destruct (Hm w) as (new & Hnew & Hsteps).
  destruct (m w) as [r w1]. exists new. split; assumption.
Qed.

Lemma announces_on_error {A} (k : Z) (wrap : error -> error) (m : M F A) :
  announces k m -> announces k (on_error wrap m).
Proof.
  intros Hm w. unfold on_error. destruct (Hm w) as (new & Hnew & Hsteps).
  destruct (m w) as [[a|e] w1]; exists new; split; assumption.
Qed.

Lemma announces_storage {A} (k : Z) (q : Z -> DB F -> result A * DB F) :
  announces k (storage env q).
Proof.
  apply announces_silent. intros w.
  destruct (storage_frame env q w) as (_ & _ & _ & _ & _ & _ & He & _).
  exact He.
Qed.

Lemma announces_exec (k : Z) (upd : Z -> DB F -> DB F) :
  announces k (exec env upd).
Proof. apply announces_storage. Qed.

Lemma announces_generateContent (k : Z) (msgs : list Message) :
  announces k (generateContent env msgs).
Proof.
  apply announces_silent. intros w. unfold generateContent.
  destruct (GenerateContentWithMessages env _ msgs); reflexivity.
Qed.

Lemma announces_embedContent (k : Z) (text : string) :
  announces k (embedContent env text).
Proof. apply announces_silent. reflexivity. Qed.

Lemma announces_randFloat64 (k : Z) : announces k (randFloat64 env).
Proof. apply announces_silent. reflexivity. Qed.

Lemma announces_progress (k step : Z) (evalID title : string) :
  (k <= step)%Z -> announces (F := F) k (SendEvaluationProgress evalID title step 5).
Proof.
  intros Hk w. exists [EvaluationProgress evalID title step 5].
  split; [reflexivity|]. repeat constructor. exact Hk.
Qed.

Lemma announces_complete (k : Z) (evalID diagnostico : string) (d : F) :
  announces k (SendEvaluationComplete evalID diagnostico d).
Proof.
  intros w. exists [EvaluationComplete evalID diagnostico d].
  split; [reflexivity|]. repeat constructor.
Qed.

End Announces.

Create HintDb announce.

#[export] Hint Resolve announces_ret announces_fail announces_get
  announces_storage announces_exec announces_generateContent
  announces_embedContent announces_randFloat64 announces_complete
  : announce.

(** Walks a computation built from [bind], [catch], [ignore] and
    [on_error] down to its calls. *)
Ltac announce :=
  repeat first
    [ solve [auto with announce]
    | apply announces_progress; simpl; lia
    | apply announces_catch
    | apply announces_ignore
    | apply announces_on_error
    | apply announces_bind; [|intros ?]
    | match goal with
      | |- announces _ (match ?x with _ => _ end) => destruct x
      | |- announces _ (if ?b then _ else _) => destruct b
      end ].

(** Closes a goal about the events of [m w0] with a lemma [L : announces k m]. *)
Ltac from_announces L :=
  match goal with
  | |- exists new, sse_events (_ ?w0).2 = _ /\ _ =>
      let new := fresh "new" in
      let Hnew := fresh "Hnew" in
      let Hs := fresh "Hs" in
      destruct (L w0) as (new & Hnew & Hs);
      exists new; split; [exact Hnew | exact Hs]
  end.

Section AnnouncesProtocol.
Context {F : Type} `{Float64Ops F} (env : Env F).

Lemma announces_callWithRetry_loop (k : Z) (remaining : nat) :
  forall attempt lastErr evalID msgs,
    announces k (callWithRetry_loop env remaining attempt lastErr evalID msgs).
Proof.
  induction remaining as [|n IH]; intros attempt lastErr evalID msgs;
    cbn [callWithRetry_loop].
  - apply announces_fail.
  - unfold clearCheckpointRetry, ClearCheckpointRetry,
      updateCheckpointRetry, UpdateCheckpointRetry, UpdateEvaluationStatus.
    announce.
Qed.

Lemma announces_callWithRetry (k : Z) (evalID phase : string) msgs :
  announces k (callWithRetry env evalID phase msgs).
Proof. apply announces_callWithRetry_loop. Qed.

Hint Resolve announces_callWithRetry : announce.

Ltac open_queries :=
  unfold saveIteration, saveCheckpointWithEmbeddings, clearCheckpointRetry,
    updateCheckpointRetry, saveCheckpoint, CreateIteration,
    UpdateCheckpointPhase, UpdateCheckpointMessages,
    UpdateCheckpointEmbeddings, UpdateCheckpointDivergence, CreateAudit,
    UpdateEvaluationStatus, ClearCheckpointRetry, UpdateCheckpointRetry,
    CreateCheckpoint, GetCheckpoint.

Lemma announces_runPhaseInicial (evalID prompt : string) msgs :
  announces 1 (runPhaseInicial env evalID prompt msgs).
Proof.
  unfold runPhaseInicial. open_queries. announce.
Qed.

Lemma announces_runPhaseInversao (evalID : string) msgs :
  announces 2 (runPhaseInversao env evalID msgs).
Proof.
  unfold runPhaseInversao. open_queries. announce.
Qed.

Lemma announces_runPhaseConfronto (evalID : string) msgs :
  announces 3 (runPhaseConfronto env evalID msgs).
Proof.
  unfold runPhaseConfronto. open_queries. announce.
Qed.

Lemma announces_runPhaseCalculo (evalID : string) emb1 emb3 :
  announces 4 (runPhaseCalculo env evalID emb1 emb3).
Proof.
  unfold runPhaseCalculo. open_queries. announce.
Qed.

Lemma announces_runPhasePurga (evalID : string) d diag msgs emb1 emb3 :
  announces 5 (runPhasePurga env evalID d diag msgs emb1 emb3).
Proof.
  unfold runPhasePurga. open_queries. announce.
Qed.

Lemma announces_case_purga (evalID : string) d diag msgs emb1 emb3 :
  announces 5 (case_purga env evalID d diag msgs emb1 emb3).
Proof. apply announces_runPhasePurga. Qed.

Lemma announces_case_calculo (evalID : string) msgs emb1 emb3 :
  announces 4 (case_calculo env evalID msgs emb1 emb3).
Proof.
  unfold case_calculo. apply announces_bind.
  - apply announces_runPhaseCalculo.
  - intros r. apply (announces_weaken 4 5); [lia | apply announces_case_purga].
Qed.

Lemma announces_case_confronto (evalID : string) msgs emb1 :
  announces 3 (case_confronto env evalID msgs emb1).
Proof.
  unfold case_confronto. apply announces_bind.
  - apply announces_runPhaseConfronto.
  - intros r. apply (announces_weaken 3 4); [lia | apply announces_case_calculo].
Qed.

Lemma announces_case_inversao (evalID : string) msgs emb1 :
  announces 2 (case_inversao env evalID msgs emb1).
Proof.
  unfold case_inversao. apply announces_bind.
  - apply announces_runPhaseInversao.
  - intros r. apply (announces_weaken 2 3); [lia | apply announces_case_confronto].
Qed.

Lemma announces_case_inicial (evalID prompt : string) msgs :
  announces 1 (case_inicial env evalID prompt msgs).
Proof.
  unfold case_inicial. apply announces_bind.
  - apply announces_runPhaseInicial.
  - intros r. apply (announces_weaken 1 2); [lia | apply announces_case_inversao].
Qed.

Lemma loadCheckpoint_found (evalID : string) (cp : Checkpoint F) (w : World F) :
  db_fault env (db_calls w) = None ->
  evaluation_checkpoints (db w) !! evalID = Some cp ->
  loadCheckpoint env evalID w
  = (Ok (Some cp), set_db (db w) (set_db_calls (S (db_calls w)) w)).
Proof.
  intros Hf Hcp. unfold loadCheckpoint, GetCheckpoint, bind, catch.
  rewrite storage_ok by exact Hf. rewrite Hcp. reflexivity.
Qed.

Lemma loadCheckpoint_missing (evalID : string) (w : World F) :
  db_fault env (db_calls w) = None ->
  evaluation_checkpoints (db w) !! evalID = None ->
  loadCheckpoint env evalID w
  = (Ok None, set_db (db w) (set_db_calls (S (db_calls w)) w)).
Proof.
  intros Hf Hcp. unfold loadCheckpoint, GetCheckpoint, bind, catch.
  rewrite storage_ok by exact Hf. rewrite Hcp. reflexivity.
Qed.

Lemma loadCheckpoint_fault (evalID : string) (msg : string) (w : World F) :
  db_fault env (db_calls w) = Some msg ->
  loadCheckpoint env evalID w
  = (Err (Errorf_w "failed to get checkpoint: " (ErrorString msg)),
     set_db_calls (S (db_calls w)) w).
Proof.
  intros Hf. unfold loadCheckpoint, GetCheckpoint, bind, catch.
  rewrite (storage_fault env _ w msg Hf). reflexivity.
Qed.

(** The [switch] of the protocol, entered with the name of phase [p]. *)
Lemma switch_on_phase (evalID prompt : string) (p : Phase) msgs emb1 emb3 :
  (if String.eqb (phase_name p) "inicial" then
     case_inicial env evalID prompt msgs
   else if String.eqb (phase_name p) "inversao" then
     case_inversao env evalID msgs emb1
   else if String.eqb (phase_name p) "confronto" then
     case_confronto env evalID msgs emb1
   else if String.eqb (phase_name p) "calculo" then
     case_calculo env evalID msgs emb1 emb3
   else if String.eqb (phase_name p) "purga" then
     case_purga env evalID (f_of_Z 0) "" msgs emb1 emb3
   else ret tt)
  = match p with
    | Inicial => case_inicial env evalID prompt msgs
    | Inversao => case_inversao env evalID msgs emb1
    | Confronto => case_confronto env evalID msgs emb1
    | Calculo => case_calculo env evalID msgs emb1 emb3
    | Purga => case_purga env evalID (f_of_Z 0) "" msgs emb1 emb3
    end.
Proof. destruct p; reflexivity. Qed.

(** The run, once the checkpoint [cp] has been loaded. *)
Lemma run_resumed (evalID prompt : string) (p : Phase) (cp : Checkpoint F)
  (w : World F) :
  db_fault env (db_calls w) = None ->
  evaluation_checkpoints (db w) !! evalID = Some cp ->
  current_phase cp = phase_name p ->
  retry_wait_over cp w ->
  RunEvaluationProtocolWithCheckpoint env evalID prompt w
  = match p with
    | Inicial => case_inicial env evalID prompt (messages cp)
    | Inversao =>
        case_inversao env evalID (messages cp)
          (default [] (embedding_inicial cp))
    | Confronto =>
        case_confronto env evalID (messages cp)
          (default [] (embedding_inicial cp))
    | Calculo =>
        case_calculo env evalID (messages cp)
          (default [] (embedding_inicial cp))
          (default [] (embedding_confronto cp))
    | Purga =>
        case_purga env evalID (f_of_Z 0) "" (messages cp)
          (default [] (embedding_inicial cp))
          (default [] (embedding_confronto cp))
    end (set_db (db w) (set_db_calls (S (db_calls w)) w)).
Proof.
  intros Hf Hcp Hp Hwait. unfold RunEvaluationProtocolWithCheckpoint.
  rewrite (bind_ok _ _ w (Some cp)
             (set_db (db w) (set_db_calls (S (db_calls w)) w))).
  2:{ unfold on_error. rewrite (loadCheckpoint_found evalID cp w Hf Hcp).
      reflexivity. }
  unfold bind at 1, get. unfold bind at 1.
  assert (Hgate :
    (match next_retry_at cp with
     | Some t =>
         if (clock (set_db (db w) (set_db_calls (S (db_calls w)) w)) <? t)%Z
         then fail (ErrorString ("evaluation still in retry wait until "
                                   ++ Time_String env t))
         else ret tt
     | None => ret tt
     end)
      (set_db (db w) (set_db_calls (S (db_calls w)) w))
    = (Ok tt, set_db (db w) (set_db_calls (S (db_calls w)) w))).
  { unfold retry_wait_over in Hwait. destruct (next_retry_at cp) as [t|].
    - cbn [clock set_db set_db_calls].
      destruct (Z.ltb_spec (clock w) t); [lia | reflexivity].
    - reflexivity. }
  rewrite (bind_ok _ _ _ _ _ Hgate). unfold ret at 1.
  rewrite Hp. rewrite switch_on_phase. destruct p; reflexivity.
Qed.

(** A run that finds the checkpoint at phase [p] announces no phase
    before [p]: whatever the model answers and the store does. *)
Lemma announces_resumed_run (evalID prompt : string) (p : Phase)
  (cp : Checkpoint F) (w : World F) :
  evaluation_checkpoints (db w) !! evalID = Some cp ->
  current_phase cp = phase_name p ->
  exists new,
    sse_events (RunEvaluationProtocolWithCheckpoint env evalID prompt w).2
    = (new ++ sse_events w)%list
    /\ steps_from (phase_step p) new.
Proof.
  intros Hcp Hp.
  destruct (db_fault env (db_calls w)) as [msg|] eqn:Hf.
  { unfold RunEvaluationProtocolWithCheckpoint.
    erewrite bind_err.
    2:{ unfold on_error. rewrite (loadCheckpoint_fault evalID msg w Hf).
        reflexivity. }
    exists []. split; [reflexivity | constructor]. }
  destruct (next_retry_at cp) as [t|] eqn:Hnext.
  - destruct (Z.ltb_spec (clock w) t) as [Hlt|Hge].
    + unfold RunEvaluationProtocolWithCheckpoint.
      rewrite (bind_ok _ _ w (Some cp)
                 (set_db (db w) (set_db_calls (S (db_calls w)) w))).
      2:{ unfold on_error. rewrite (loadCheckpoint_found evalID cp w Hf Hcp).
          reflexivity. }
      unfold bind at 1, get. unfold bind at 1. rewrite Hnext.
      cbn [clock set_db set_db_calls].
      destruct (Z.ltb_spec (clock w) t); [|lia].
      unfold bind at 1, fail. cbn.
      exists []. split; [reflexivity | constructor].
    + rewrite (run_resumed evalID prompt p cp w Hf Hcp Hp).
      2:{ unfold retry_wait_over. rewrite Hnext. exact Hge. }
      destruct p; cbn [phase_step].
      * from_announces (announces_case_inicial evalID prompt (messages cp)).
      * from_announces (announces_case_inversao evalID (messages cp)
                          (default [] (embedding_inicial cp))).
      * from_announces (announces_case_confronto evalID (messages cp)
                          (default [] (embedding_inicial cp))).
      * from_announces (announces_case_calculo evalID (messages cp)
                          (default [] (embedding_inicial cp))
                          (default [] (embedding_confronto cp))).
      * from_announces (announces_case_purga evalID (f_of_Z 0) ""
                          (messages cp) (default [] (embedding_inicial cp))
                          (default [] (embedding_confronto cp))).
  - rewrite (run_resumed evalID prompt p cp w Hf Hcp Hp).
    2:{ unfold retry_wait_over. rewrite Hnext. exact I. }
    destruct p; cbn [phase_step].
    + from_announces (announces_case_inicial evalID prompt (messages cp)).
    + from_announces (announces_case_inversao evalID (messages cp)
                        (default [] (embedding_inicial cp))).
    + from_announces (announces_case_confronto evalID (messages cp)
                        (default [] (embedding_inicial cp))).
    + from_announces (announces_case_calculo evalID (messages cp)
                        (default [] (embedding_inicial cp))
                        (default [] (embedding_confronto cp))).
    + from_announces (announces_case_purga evalID (f_of_Z 0) ""
                        (messages cp) (default [] (embedding_inicial cp))
                        (default [] (embedding_confronto cp))).
Qed.

End AnnouncesProtocol.

(** ** Running the protocol step by step *)

(** Normal form of a world after a step: projections of updated records. *)
Ltac proj_simpl :=
  cbn [db clock db_calls gen_calls emb_calls rand_calls mails sse_events
       handled geminiSemaphore emailSemaphore genericSemaphore
       set_db set_db_calls set_gen_calls set_emb_calls set_rand_calls
       set_mails set_sse_events set_handled set_semaphores
       jobs processed_jobs evaluations evaluation_checkpoints iterations
       audits set_jobs set_processed_jobs set_evaluations
       set_evaluation_checkpoints set_iterations set_audits
       on_checkpoint on_job on_evaluation fst snd length].

Ltac open_monad :=
  unfold bind, catch, ignore, on_error, ret, fail, get, modify.

Ltac open_protocol :=
  unfold case_inicial, case_inversao, case_confronto, case_calculo,
    case_purga, runPhaseInicial, runPhaseInversao, runPhaseConfronto,
    runPhaseCalculo, runPhasePurga, saveIteration,
    saveCheckpointWithEmbeddings, clearCheckpointRetry,
    updateCheckpointRetry, saveCheckpoint, SendEvaluationProgress,
    SendEvaluationComplete, embedContent, randFloat64, CreateIteration,
    UpdateCheckpointPhase, UpdateCheckpointMessages,
    UpdateCheckpointEmbeddings, UpdateCheckpointDivergence, CreateAudit,
    UpdateEvaluationStatus, ClearCheckpointRetry, UpdateCheckpointRetry,
    CreateCheckpoint.

Section CallWithRetry.
Context {F : Type} `{Float64Ops F} (env : Env F).

Lemma set_gen_calls_same (w : World F) : set_gen_calls (gen_calls w) w = w.
Proof. destruct w; reflexivity. Qed.

Lemma repeat_snoc {A} (x : A) (k : nat) (l : list A) :
  (repeat x k ++ x :: l = x :: repeat x k ++ l)%list.
Proof. induction k as [|k IH]; simpl; [reflexivity | rewrite IH; reflexivity]. Qed.


(** [k] attempts in a row fail with errors other than rate-limited: the
    loop goes on with what remains, after [k] requests to the model and no
    other effect. *)
Lemma callWithRetry_loop_skip (k : nat) :
  forall remaining attempt lastErr evalID msgs (errs : nat -> error)
         (w : World F),
    (forall i, (i < k)%nat ->
       GenerateContentWithMessages env (length (gen_calls w) + i) msgs
       = inr (errs i)
       /\ isRateLimitError (errs i) = false) ->
    callWithRetry_loop env (k + remaining) attempt lastErr evalID msgs w
    = callWithRetry_loop env remaining (attempt + Z.of_nat k)
        (match k with O => lastErr | S k' => Some (errs k') end)
        evalID msgs (set_gen_calls (repeat msgs k ++ gen_calls w) w).
Proof.
  induction k as [|k IH]; intros remaining attempt lastErr evalID msgs errs w Hk.
  - cbn [repeat app Nat.add]. rewrite set_gen_calls_same.
    replace (attempt + Z.of_nat 0)%Z with attempt by lia. reflexivity.
  - cbn [Nat.add callWithRetry_loop].
    destruct (Hk 0%nat ltac:(lia)) as [Hg Hrl]. rewrite Nat.add_0_r in Hg.
    unfold bind at 1. unfold catch, generateContent. rewrite Hg.
    cbv beta iota. rewrite Hrl.
    rewrite (IH remaining (attempt + 1)%Z (Some (errs 0%nat)) evalID msgs
               (fun i => errs (S i))).
    2:{ intros i Hi. proj_simpl.
        replace (S (length (gen_calls w)) + i)%nat
          with (length (gen_calls w) + S i)%nat by lia.
        apply Hk. lia. }
    proj_simpl.
    replace (attempt + 1 + Z.of_nat k)%Z with (attempt + Z.of_nat (S k))%Z
      by lia.
    rewrite repeat_snoc. cbn [repeat app].
    destruct k; reflexivity.
Qed.

(** All ten attempts fail with errors other than rate-limited. *)
Lemma callWithRetry_exhausted (evalID phase : string) msgs
  (errs : nat -> error) (w : World F) :
  (forall i, (i < 10)%nat ->
     GenerateContentWithMessages env (length (gen_calls w) + i) msgs
     = inr (errs i)
     /\ isRateLimitError (errs i) = false) ->
  callWithRetry env evalID phase msgs w
  = (Err (Wrapped ("too many retries after 10 attempts: " ++ Error (errs 9%nat))
            (Sentinel ErrTooManyRetries)),
     set_gen_calls (repeat msgs 10 ++ gen_calls w) w).
Proof.
  intros Hk. unfold callWithRetry.
  change MaxRetries with (10 + 0)%nat.
  rewrite (callWithRetry_loop_skip 10 0 0%Z None evalID msgs errs w Hk).
  reflexivity.
Qed.

(** [k < 10] attempts fail with errors other than rate-limited and the
    next one is answered. *)
Lemma callWithRetry_retried_ok (k : nat) (evalID phase : string) msgs
  (errs : nat -> error) (r : string) (w : World F) :
  (k < 10)%nat ->
  (forall i, (i < k)%nat ->
     GenerateContentWithMessages env (length (gen_calls w) + i) msgs
     = inr (errs i)
     /\ isRateLimitError (errs i) = false) ->
  GenerateContentWithMessages env (length (gen_calls w) + k) msgs = inl r ->
  exists w',
    callWithRetry env evalID phase msgs w = (Ok r, w')
    /\ gen_calls w' = (repeat msgs (S k) ++ gen_calls w)%list
    /\ sse_events w' = sse_events w.
Proof.
  intros Hlt Hk Hg. unfold callWithRetry.
  replace MaxRetries with (k + S (9 - k))%nat by (unfold MaxRetries; lia).
  rewrite (callWithRetry_loop_skip k (S (9 - k)) 0%Z None evalID msgs errs w Hk).
  cbn [callWithRetry_loop]. unfold bind at 1. unfold catch, generateContent.
  proj_simpl. rewrite length_app, repeat_length.
  replace (k + length (gen_calls w))%nat with (length (gen_calls w) + k)%nat
    by lia.
  rewrite Hg. cbv beta iota.
  unfold bind, ret, ignore, clearCheckpointRetry, ClearCheckpointRetry, exec,
    storage.
  destruct (0 <? 0 + Z.of_nat k)%Z; proj_simpl;
    [destruct (db_fault env (db_calls w)); proj_simpl|];
    (eexists; split; [reflexivity|]; proj_simpl; split; reflexivity).
Qed.

(** A step that is answered within its attempts: [k] requests fail, the
    next one is answered, and after a retry the retry bookkeeping of the
    checkpoint is cleared. *)
Lemma callWithRetry_answered (evalID phase : string) msgs (w : World F) :
  db_fault env (db_calls w) = None ->
  answered_within env (length (gen_calls w)) msgs ->
  exists k a,
    callWithRetry env evalID phase msgs w
    = (Ok a,
       set_gen_calls (repeat msgs (S k) ++ gen_calls w)
         (match k with
          | O => w
          | S _ =>
              set_db (on_checkpoint evalID cp_clear_retry (db w))
                (set_db_calls (S (db_calls w)) w)
          end)).
Proof.
  intros Hf (k & a & Hlt & Hfail & Hans). exists k, a.
  set (errs := fun i =>
         match GenerateContentWithMessages env (length (gen_calls w) + i) msgs
         with
         | inr e => e
         | inl _ => ErrorString ""
         end).
  assert (Herrs : forall i, (i < k)%nat ->
            GenerateContentWithMessages env (length (gen_calls w) + i) msgs
            = inr (errs i)
            /\ isRateLimitError (errs i) = false).
  { intros i Hi. destruct (Hfail i Hi) as (e & He & Hrl).
    unfold errs. rewrite He. split; [reflexivity | exact Hrl]. }
  unfold MaxRetries in Hlt. unfold callWithRetry.
  replace MaxRetries with (k + S (9 - k))%nat by (unfold MaxRetries; lia).
  rewrite (callWithRetry_loop_skip k (S (9 - k)) 0%Z None evalID msgs errs w
             Herrs).
  cbn [callWithRetry_loop]. unfold bind at 1. unfold catch, generateContent.
  proj_simpl. rewrite length_app, repeat_length.
  replace (k + length (gen_calls w))%nat with (length (gen_calls w) + k)%nat
    by lia.
  rewrite Hans. cbv beta iota.
  destruct k as [|k].
  - reflexivity.
  - replace (0 <? 0 + Z.of_nat (S k))%Z with true
      by (symmetry; apply Z.ltb_lt; lia).
    unfold bind, ret, ignore, clearCheckpointRetry, ClearCheckpointRetry.
    rewrite exec_ok by exact Hf. proj_simpl.
    destruct w; reflexivity.
Qed.




End CallWithRetry.


Section UninterruptedRun.
Context {F : Type} `{Float64Ops F} (env : Env F).
Hypothesis Hnf : forall n, db_fault env n = None.
Hypothesis Hmodel :
  forall n msgs, exists r, GenerateContentWithMessages env n msgs = inl r.



End UninterruptedRun.

(** Symbolic execution of a run in which no storage call fails ([Hnf]) and
    every model-call step is answered within its attempts ([Hresp]); each
    step is followed at once or after retries. *)
Ltac run_answering env Hnf Hresp :=
  repeat first
    [ progress proj_simpl
    | rewrite exec_ok by apply Hnf
    | rewrite storage_ok by apply Hnf
    | match goal with
      | |- context [callWithRetry env ?e ?ph ?m ?W] =>
          let k := fresh "k" in
          let a := fresh "a" in
          let Hk := fresh "Hk" in
          destruct (callWithRetry_answered env e ph m W (Hnf _) (Hresp _ _))
            as (k & a & Hk);
          rewrite Hk; clear Hk; destruct k
      end
    | progress (cbv beta iota zeta) ].

Section AnsweredRun.
Context {F : Type} `{Float64Ops F} (env : Env F).
Hypothesis Hnf : forall n, db_fault env n = None.
Hypothesis Hresp : responsive env.

(** Resumed at phase [p], with every step answered within its attempts,
    one run goes through every phase from [p] to [purga], records the
    audit and completes the evaluation. *)
Lemma run_answered (evalID prompt : string) (p : Phase)
  (cp : Checkpoint F) (w : World F) :
  evaluation_checkpoints (db w) !! evalID = Some cp ->
  current_phase cp = phase_name p ->
  retry_wait_over cp w ->
  exists w' diagnostico divergencia,
    RunEvaluationProtocolWithCheckpoint env evalID prompt w = (Ok tt, w')
    /\ sse_events w'
       = (EvaluationComplete evalID diagnostico divergencia
            :: rev (map (progress_event evalID) (phases_from p))
            ++ sse_events w)%list
    /\ audits (db w')
       = {| au_evaluation_id := evalID; au_divergencia := divergencia;
            au_diagnostico := diagnostico |} :: audits (db w)
    /\ evaluations (db w')
       = alter (set_status "completed") evalID (evaluations (db w)).
Proof.
  intros Hcp Hp Hwait.
  rewrite (run_resumed env evalID prompt p cp w (Hnf _) Hcp Hp Hwait).
  destruct p; open_protocol; open_monad; run_answering env Hnf Hresp;
    do 3 eexists; (split; [reflexivity|]); proj_simpl;
    repeat split; reflexivity.
Qed.

(** Resumed at [confronto]: the transcript that is sent to the model and
    then stored is the loaded one with the confronto instruction appended
    once, and the only other request is the isolated audit of phase
    purga. *)
Lemma run_answered_from_confronto (evalID prompt : string)
  (cp : Checkpoint F) (w : World F) :
  evaluation_checkpoints (db w) !! evalID = Some cp ->
  current_phase cp = "confronto" ->
  retry_wait_over cp w ->
  let w' := (RunEvaluationProtocolWithCheckpoint env evalID prompt w).2 in
  let transcript :=
    (messages cp ++ [{| role := "user"; content := instrucao_confronto |}])%list in
  (exists k3 k5,
     gen_calls w'
     = (repeat [{| role := "user";
                   content := prompt_purga (primeira_resposta transcript) |}]
          (S k5)
        ++ repeat transcript (S k3) ++ gen_calls w)%list)
  /\ messages <$> evaluation_checkpoints (db w') !! evalID = Some transcript.
Proof.
  intros Hcp Hp Hwait. cbv zeta.
  rewrite (run_resumed env evalID prompt Confronto cp w (Hnf _) Hcp Hp Hwait).
  open_protocol; open_monad; run_answering env Hnf Hresp;
    (split; [do 2 eexists; reflexivity|]);
    rewrite !lookup_alter_eq, Hcp; reflexivity.
Qed.

End AnsweredRun.

Section InterruptedRun.
Context {F : Type} `{Float64Ops F} (env : Env F).
Hypothesis Hnf : forall n, db_fault env n = None.



End InterruptedRun.

Section Handler.
Context {F : Type} `{Float64Ops F} (env : Env F).

(** [handleRunEvaluation], by the outcome of the protocol. *)
Lemma handleRunEvaluation_outcome (payload : Payload) (w : World F) :
  json_valid payload = true ->
  NewGeminiClient env = None ->
  handleRunEvaluation env payload w
  = match RunEvaluationProtocol env (p_evaluation_id payload)
            (p_prompt payload) w with
    | (Ok _, w1) => (Ok tt, w1)
    | (Err err, w1) =>
        if errors_Is err ErrRateLimitExceeded then (Ok tt, w1)
        else
          let w2 :=
            (ignore (UpdateEvaluationStatus env "failed"
                       (p_evaluation_id payload)) w1).2 in
          (Err (Errorf_w
                  (if errors_Is err ErrTooManyRetries
                   then "evaluation failed after max retries: "
                   else "evaluation protocol failed: ") err), w2)
    end.
Proof.
  intros Hvalid Hclient.
  unfold handleRunEvaluation, json_Unmarshal, NewEvaluationService.
  rewrite Hvalid, Hclient. open_monad.
  destruct (RunEvaluationProtocol env (p_evaluation_id payload)
              (p_prompt payload) w) as [[[]|err] w1]; [reflexivity|].
  destruct (errors_Is err ErrRateLimitExceeded); [reflexivity|].
  destruct (errors_Is err ErrTooManyRetries);
    destruct (UpdateEvaluationStatus env "failed" (p_evaluation_id payload) w1);
    reflexivity.
Qed.


End Handler.

(** ** Claims on the evaluation protocol *)

(** C3, as the code has it.  A run that finds the checkpoint at phase [p]
    never announces, hence never executes, a phase before [p], whatever
    the model answers and the store does.  When no storage call fails, the
    retry wait is over and every model-call step is answered within its
    ten attempts (no rate limit, and no step that uses up its attempts),
    the run goes through every phase from [p] to [purga] in that one pass
    and ends with the completion event; resumed at [confronto], it sends
    and stores the loaded transcript with the confronto instruction
    appended once, the prompt of [inicial] and the instruction of
    [inversao] not being appended again, and its only other request is the
    audit of [purga]. *)
Theorem resumption_runs_from_recorded_phase {F} `{Float64Ops F} (env : Env F)
  (evalID prompt : string) (p : Phase) (cp : Checkpoint F) (w : World F) :
  evaluation_checkpoints (db w) !! evalID = Some cp ->
  current_phase cp = phase_name p ->
  let r := RunEvaluationProtocolWithCheckpoint env evalID prompt w in
  (exists new,
     sse_events r.2 = (new ++ sse_events w)%list
     /\ steps_from (phase_step p) new)
  /\ ((forall n, db_fault env n = None) ->
      responsive env ->
      retry_wait_over cp w ->
      r.1 = Ok tt
      /\ (exists diagnostico divergencia,
            sse_events r.2
            = (EvaluationComplete evalID diagnostico divergencia
                 :: rev (map (progress_event evalID) (phases_from p))
                 ++ sse_events w)%list)
      /\ (p = Confronto ->
          let transcript :=
            (messages cp
               ++ [{| role := "user"; content := instrucao_confronto |}])%list in
          (exists k3 k5,
             gen_calls r.2
             = (repeat
                  [{| role := "user";
                      content := prompt_purga (primeira_resposta transcript) |}]
                  (S k5)
                ++ repeat transcript (S k3) ++ gen_calls w)%list)
          /\ messages <$> evaluation_checkpoints (db r.2) !! evalID
             = Some transcript)).
Proof.
  intros Hcp Hp. cbv zeta. split.
  - apply (announces_resumed_run env evalID prompt p cp w Hcp Hp).
  - intros Hnf Hresp Hwait.
    destruct (run_answered env Hnf Hresp evalID prompt p cp w Hcp Hp Hwait)
      as (w' & diag & dv & Hrun & Hev & _ & _).
    split; [rewrite Hrun; reflexivity|].
    split; [exists diag, dv; rewrite Hrun; exact Hev|].
    intros ->.
    apply (run_answered_from_confronto env Hnf Hresp evalID prompt cp w
             Hcp Hp Hwait).
Qed.

(** The model of [flakyEnv] answers every step within two attempts. *)
Lemma flakyEnv_responsive : responsive flakyEnv.
Proof.
  intros [|n] msgs.
  - exists 1%nat, "answer 1". split; [unfold MaxRetries; lia|]. split.
    + intros i Hi. assert (i = 0%nat) by lia. subst i.
      exists (ErrorString "connection reset by peer").
      split; reflexivity.
    + reflexivity.
  - exists 0%nat, ("answer " ++ pretty.pretty (S n + 0)%nat).
    split; [unfold MaxRetries; lia|]. split.
    + intros i Hi. lia.
    + reflexivity.
Defined.

(** C3 on a checkpoint that waits at [confronto], the first request of
    the run failing with a network error: three phases run, and the
    stored transcript is the loaded one plus one instruction. *)
Lemma resumption_runs_from_recorded_phase_witness :
  let r := RunEvaluationProtocolWithCheckpoint flakyEnv "eval-1" "X"
             (world_with cp_confronto) in
  (exists diagnostico divergencia,
     sse_events r.2
     = [ EvaluationComplete "eval-1" diagnostico divergencia;
         EvaluationProgress "eval-1" "Purga e Auditoria" 5 5;
         EvaluationProgress "eval-1" "Cálculo de Divergência" 4 5;
         EvaluationProgress "eval-1" "Confronto Falso" 3 5 ])
  /\ messages <$> evaluation_checkpoints (db r.2) !! "eval-1"
     = Some (transcript2
               ++ [{| role := "user"; content := instrucao_confronto |}])%list.
Proof.
  cbv zeta.
  destruct (resumption_runs_from_recorded_phase flakyEnv "eval-1" "X"
              Confronto cp_confronto (world_with cp_confronto)
              eq_refl eq_refl) as (_ & Hpass).
  destruct (Hpass (fun _ => eq_refl) flakyEnv_responsive I)
    as (_ & Hev & Hconf).
  split; [exact Hev|].
  exact (proj2 (Hconf eq_refl)).
Defined.

(** C3 as stated fails: resumed at [confronto] with a model whose every
    request fails with a network error, no rate limit occurs, and yet the
    run stops in phase confronto with the too-many-retries error: phases
    calculo and purga are not executed and no audit is written. *)
Lemma run_stops_without_rate_limit :
  let r := RunEvaluationProtocolWithCheckpoint brokenEnv "eval-1" "X"
             (world_with cp_confronto) in
  (forall n msgs,
     exists e,
       GenerateContentWithMessages brokenEnv n msgs = inr e
       /\ isRateLimitError e = false)
  /\ (exists e,
        r.1 = Err e
        /\ errors_Is e ErrTooManyRetries = true
        /\ errors_Is e ErrRateLimitExceeded = false)
  /\ sse_events r.2 = [ EvaluationProgress "eval-1" "Confronto Falso" 3 5 ]
  /\ length (gen_calls r.2) = 10%nat
  /\ audits (db r.2) = [].
Proof.
  cbv zeta. split.
  - intros n msgs. exists (ErrorString "connection reset by peer").
    split; reflexivity.
  - vm_compute. split; [eexists; repeat split|]; repeat split.
Qed.



Section BackoffSeconds.
Open Scope R_scope.


End BackoffSeconds.






(** C6, as the code has it.  In every model-call step an error other
    than rate-limited is retried at once, up to ten attempts for the step.
    If the attempt after [k < 10] such errors is answered, the step
    returns the answer, after [k + 1] requests.  If all ten attempts fail
    so, the step returns the too-many-retries error whose text ends in that
    of the last error, after ten requests and nothing else.  And whenever
    the run of the protocol returns an error other than the rate limit, the
    handler marks the evaluation [failed] (the storage call succeeding) and
    returns an error. *)
Theorem model_errors_are_retried_in_place {F} `{Float64Ops F} (env : Env F)
  (evalID phase : string) (msgs : list Message) (errs : nat -> error)
  (w : World F) :
  (forall k a,
     (k < 10)%nat ->
     (forall i, (i < k)%nat ->
        GenerateContentWithMessages env (length (gen_calls w) + i) msgs
        = inr (errs i)
        /\ isRateLimitError (errs i) = false) ->
     GenerateContentWithMessages env (length (gen_calls w) + k) msgs = inl a ->
     exists w',
       callWithRetry env evalID phase msgs w = (Ok a, w')
       /\ gen_calls w' = (repeat msgs (S k) ++ gen_calls w)%list)
  /\ ((forall i, (i < 10)%nat ->
         GenerateContentWithMessages env (length (gen_calls w) + i) msgs
         = inr (errs i)
         /\ isRateLimitError (errs i) = false) ->
      exists e,
        callWithRetry env evalID phase msgs w
        = (Err e, set_gen_calls (repeat msgs 10 ++ gen_calls w) w)
        /\ errors_Is e ErrTooManyRetries = true
        /\ Error e = "too many retries after 10 attempts: "
                       ++ Error (errs 9%nat))
  /\ (forall payload w0 e w1,
        json_valid payload = true ->
        NewGeminiClient env = None ->
        RunEvaluationProtocol env (p_evaluation_id payload)
          (p_prompt payload) w0 = (Err e, w1) ->
        errors_Is e ErrRateLimitExceeded = false ->
        db_fault env (db_calls w1) = None ->
        exists e',
          handleRunEvaluation env payload w0
          = (Err e',
             set_db
               (on_evaluation (p_evaluation_id payload) (set_status "failed")
                  (db w1))
               (set_db_calls (S (db_calls w1)) w1))).
Proof.
  split; [|split].
  - intros k a Hk Hfail Hans.
    destruct (callWithRetry_retried_ok env k evalID phase msgs errs a w
                Hk Hfail Hans) as (w' & Hrun & Hcalls & _).
    exists w'. split; assumption.
  - intros Hfail. eexists. split.
    + apply (callWithRetry_exhausted env evalID phase msgs errs w Hfail).
    + split; reflexivity.
  - intros payload w0 e w1 Hvalid Hclient Hrun Hnotrl Hf.
    rewrite (handleRunEvaluation_outcome env payload w0 Hvalid Hclient).
    rewrite Hrun, Hnotrl. cbv zeta.
    unfold ignore, UpdateEvaluationStatus.
    rewrite exec_ok by exact Hf. proj_simpl.
    eexists. reflexivity.
Qed.

(** C6 on a model whose first answer is a network error. *)
Lemma model_errors_are_retried_in_place_witness :
  exists w',
    callWithRetry flakyEnv "eval-1" "confronto" transcript2
      (world_with cp_confronto) = (Ok "answer 1", w')
    /\ gen_calls w' = [transcript2; transcript2].
Proof.
  destruct (model_errors_are_retried_in_place flakyEnv "eval-1" "confronto"
              transcript2 (fun _ => ErrorString "connection reset by peer")
              (world_with cp_confronto)) as (Hretry & _).
  destruct (Hretry 1%nat "answer 1" ltac:(lia)) as (w' & Hrun & Hcalls).
  - intros i Hi. assert (i = 0%nat) by lia. subst i. split; reflexivity.
  - reflexivity.
  - exists w'. split; [exact Hrun | exact Hcalls].
Defined.

(** C6 as stated fails: the first request of the run fails with a network
    error, which is not the rate-limited condition; the step is retried,
    the run returns no error after five requests and the evaluation ends
    [completed], not [failed]. *)
Lemma model_error_is_not_terminal :
  let r := RunEvaluationProtocolWithCheckpoint flakyEnv "eval-1" "X"
             (mkWorld 2000 (mkDB [job_eval] [] [])) in
  isRateLimitError (ErrorString "connection reset by peer") = false
  /\ r.1 = Ok tt
  /\ length (gen_calls r.2) = 5%nat
  /\ eval_status <$> evaluations (db r.2) !! "eval-1" = Some "completed".
Proof. vm_compute. repeat split. Qed.

(** * Further properties of the code *)

Open Scope Z_scope.
Open Scope string_scope.

(** ** Properties of the access policies *)

(** X1.  Whatever [CheckEvaluationAccess] allows a user, it allows the same
    user in an administrator role: no action is open to a regular user and
    closed to an administrator. *)
Theorem administrator_may_do_what_a_user_may (user : policies.User)
  (evaluation : Evaluation) (action role : string) :
  is_admin_role role = true ->
  policies.CheckEvaluationAccess user evaluation action = None ->
  policies.CheckEvaluationAccess (with_role role user) evaluation action
  = None.
Proof.
  unfold is_admin_role, policies.CheckEvaluationAccess,
    policies.CanAccessEvaluation, policies.CanDeleteEvaluation, with_role.
  intros Hrole. cbn [policies.ID policies.RoleID policies.TenantID].
  rewrite Hrole.
  destruct (policies.ID user =? 0)%Z; [discriminate|].
  destruct (String.eqb action policies.ActionView); [reflexivity|].
  destruct (String.eqb action policies.ActionEdit).
  { cbn [negb].
    destruct (negb (if String.eqb (policies.RoleID user) "admin"
                       || String.eqb (policies.RoleID user) "administrator"
                    then true
                    else String.eqb (policies.TenantID user)
                           (eval_tenant_id evaluation))); [discriminate|].
    intros Hs; exact Hs. }
  destruct (String.eqb action policies.ActionDelete); [reflexivity|].
  destruct (String.eqb action policies.ActionAudit); [|reflexivity].
  intros _. apply orb_true_iff in Hrole.
  destruct Hrole as [-> | ->]; [reflexivity|].
  rewrite andb_false_r. reflexivity.
Qed.

Lemma administrator_may_do_what_a_user_may_witness :
  policies.CheckEvaluationAccess regular_user
    (evaluation_of "tenant-a" 7 "processing") "delete" = None
  /\ policies.CheckEvaluationAccess (with_role "admin" regular_user)
       (evaluation_of "tenant-a" 7 "processing") "delete" = None.
Proof.
  split; [reflexivity|].
  apply (administrator_may_do_what_a_user_may regular_user
           (evaluation_of "tenant-a" 7 "processing") "delete" "admin");
    reflexivity.
Defined.

(** X2.  Viewing an evaluation is allowed exactly when access to the tenant
    of the evaluation is: [CheckEvaluationAccess] for the action [view] and
    [CheckTenantAccess] agree on who is let in. *)
Theorem view_access_is_tenant_access (user : policies.User)
  (evaluation : Evaluation) :
  policies.CheckEvaluationAccess user evaluation policies.ActionView = None
  <-> policies.CheckTenantAccess user (eval_tenant_id evaluation) = None.
Proof.
  unfold policies.CheckEvaluationAccess, policies.CheckTenantAccess,
    policies.CanAccessEvaluation.
  cbn [String.eqb policies.ActionView Ascii.eqb Bool.eqb].
  destruct (policies.ID user =? 0)%Z; [tauto|].
  destruct (String.eqb (policies.RoleID user) "admin"
            || String.eqb (policies.RoleID user) "administrator");
    [simpl; tauto|].
  destruct (String.eqb (policies.TenantID user) (eval_tenant_id evaluation));
    simpl; split; intros; congruence.
Qed.

(** X3.  An evaluation that is [completed] or [failed] cannot be edited by
    anybody, an administrator included. *)
Theorem finished_evaluations_are_read_only (user : policies.User)
  (evaluation : Evaluation) :
  eval_status evaluation = "completed" \/ eval_status evaluation = "failed" ->
  policies.CheckEvaluationAccess user evaluation policies.ActionEdit <> None.
Proof.
  unfold policies.CheckEvaluationAccess.
  cbn [String.eqb policies.ActionView policies.ActionEdit Ascii.eqb Bool.eqb].
  intros Hs.
  destruct (policies.ID user =? 0)%Z; [discriminate|].
  destruct (negb (policies.CanAccessEvaluation user evaluation));
    [discriminate|].
  destruct Hs as [-> | ->]; discriminate.
Qed.

(** An administrator and a completed evaluation. *)
Lemma finished_evaluations_are_read_only_witness :
  eval_status (evaluation_of "tenant-b" 2 "completed") = "completed"
  /\ policies.CheckEvaluationAccess (with_role "admin" regular_user)
       (evaluation_of "tenant-b" 2 "completed") policies.ActionEdit <> None.
Proof.
  split; [reflexivity|].
  apply (finished_evaluations_are_read_only (with_role "admin" regular_user)
           (evaluation_of "tenant-b" 2 "completed")).
  left. reflexivity.
Defined.

(** X4.  Tenant isolation. A user who is not an administrator and whose
    tenant is not the one of the evaluation can neither view nor edit it,
    nor see its audits and iterations, nor create an evaluation in that
    tenant. Deleting is the exception: it is decided by ownership alone, so
    the authenticated creator may delete whatever the tenants are. *)
Theorem tenant_isolation (user : policies.User) (evaluation : Evaluation) :
  is_admin_role (policies.RoleID user) = false ->
  policies.TenantID user <> eval_tenant_id evaluation ->
  policies.CheckEvaluationAccess user evaluation policies.ActionView <> None
  /\ policies.CheckEvaluationAccess user evaluation policies.ActionEdit
     <> None
  /\ policies.CheckEvaluationAccess user evaluation policies.ActionAudit
     <> None
  /\ policies.CanViewAudit user tt evaluation = false
  /\ policies.CanViewIteration user tt evaluation = false
  /\ policies.CanCreateEvaluation user (eval_tenant_id evaluation) = false
  /\ (policies.CheckEvaluationAccess user evaluation policies.ActionDelete
      = None
      <-> policies.ID user <> 0%Z
          /\ policies.ID user = eval_user_id evaluation).
Proof.
  unfold is_admin_role, policies.CheckEvaluationAccess,
    policies.CanAccessEvaluation, policies.CanDeleteEvaluation,
    policies.CanViewAudit, policies.CanViewIteration,
    policies.CanCreateEvaluation.
  cbn [String.eqb policies.ActionView policies.ActionEdit
       policies.ActionDelete policies.ActionAudit Ascii.eqb Bool.eqb].
  intros Hrole Hten. rewrite Hrole.
  apply orb_false_iff in Hrole. destruct Hrole as [Ha Hb]. rewrite Ha, Hb.
  destruct (String.eqb_spec (policies.TenantID user)
              (eval_tenant_id evaluation)) as [E|E]; [contradiction|].
  destruct (String.eqb_spec (eval_tenant_id evaluation)
              (policies.TenantID user)) as [E'|E']; [congruence|].
  cbn [negb andb].
  destruct (Z.eqb_spec (policies.ID user) 0) as [Hid|Hid].
  - do 6 (split; [discriminate || reflexivity|]).
    split; [discriminate | intros [? _]; contradiction].
  - do 6 (split; [discriminate || reflexivity|]).
    destruct (Z.eqb_spec (eval_user_id evaluation) 0) as [Hu|Hu];
      destruct (Z.eqb_spec (policies.ID user) (eval_user_id evaluation))
        as [Ho|Ho]; cbn [negb andb]; split;
      try discriminate; try (intros [_ ?]; congruence);
      try (intros _; split; assumption); congruence.
Qed.

Lemma tenant_isolation_witness :
  policies.CheckEvaluationAccess regular_user
    (evaluation_of "tenant-b" 7 "processing") policies.ActionView <> None
  /\ policies.CheckEvaluationAccess regular_user
       (evaluation_of "tenant-b" 7 "processing") policies.ActionDelete = None.
Proof.
  destruct (tenant_isolation regular_user
              (evaluation_of "tenant-b" 7 "processing") eq_refl
              ltac:(discriminate)) as (Hv & _ & _ & _ & _ & _ & Hd).
  split; [exact Hv|]. apply Hd. split; [discriminate | reflexivity].
Defined.

(** X5.  The [switch] of [CheckEvaluationAccess] has no default case: for an
    action other than view, edit, delete and audit the only check made is
    that the user is authenticated. *)
Theorem unknown_action_needs_authentication_only (user : policies.User)
  (evaluation : Evaluation) (action : string) :
  known_action action = false ->
  policies.CheckEvaluationAccess user evaluation action = None
  <-> policies.ID user <> 0%Z.
Proof.
  unfold known_action, policies.CheckEvaluationAccess. intros Hk.
  apply orb_false_iff in Hk. destruct Hk as [Hk Ha].
  apply orb_false_iff in Hk. destruct Hk as [Hk Hd].
  apply orb_false_iff in Hk. destruct Hk as [Hv He].
  rewrite Hv, He, Hd, Ha.
  destruct (Z.eqb_spec (policies.ID user) 0) as [Hid|Hid]; split;
    try discriminate; try reflexivity; try contradiction.
  intros _. exact Hid.
Qed.

Lemma unknown_action_needs_authentication_only_witness :
  policies.CheckEvaluationAccess regular_user
    (evaluation_of "tenant-b" 2 "completed") "export" = None.
Proof.
  apply (unknown_action_needs_authentication_only regular_user
           (evaluation_of "tenant-b" 2 "completed") "export" eq_refl).
  discriminate.
Defined.

(** ** The search behind the rate-limit detection *)

Lemma strings_ToLower_app (a b : string) :
  strings_ToLower (a ++ b) = strings_ToLower a ++ strings_ToLower b.
Proof. induction a as [|c a IH]; simpl; [reflexivity | rewrite IH; reflexivity]. Qed.

Lemma strings_ToLower_length (s : string) :
  String.length (strings_ToLower s) = String.length s.
Proof. induction s as [|c s IH]; simpl; [reflexivity | rewrite IH; reflexivity]. Qed.

Lemma string_app_length (a b : string) :
  String.length (a ++ b) = (String.length a + String.length b)%nat.
Proof. induction a as [|c a IH]; simpl; [reflexivity | rewrite IH; reflexivity]. Qed.

Lemma string_app_assoc (a b c : string) : (a ++ b) ++ c = a ++ b ++ c.
Proof.
  induction a as [|x a IH]; [reflexivity|].
  change (String x ((a ++ b) ++ c) = String x (a ++ b ++ c)).
  rewrite IH. reflexivity.
Qed.

Lemma lower_ascii_idem (c : ascii) : lower_ascii (lower_ascii c) = lower_ascii c.
Proof.
  unfold lower_ascii.
  destruct ((65 <=? nat_of_ascii c)%nat && (nat_of_ascii c <=? 90)%nat) eqn:E.
  - apply andb_true_iff in E. destruct E as [E1 E2].
    apply Nat.leb_le in E1, E2.
    rewrite nat_ascii_embedding by lia.
    replace ((65 <=? nat_of_ascii c + 32)%nat
             && (nat_of_ascii c + 32 <=? 90)%nat) with false; [reflexivity|].
    symmetry. apply andb_false_iff. right. apply Nat.leb_gt. lia.
  - rewrite E. reflexivity.
Qed.

Lemma strings_ToLower_idem (s : string) :
  strings_ToLower (strings_ToLower s) = strings_ToLower s.
Proof.
  induction s as [|c s IH]; simpl; [reflexivity|].
  rewrite lower_ascii_idem, IH. reflexivity.
Qed.

Lemma contains_at_spec (substr : string) :
  forall s,
    contains_at s substr = true
    <-> exists post, strings_ToLower s = strings_ToLower substr ++ post.
Proof.
  induction substr as [|b substr IH]; intros s.
  - destruct s; simpl; split; intros _; try reflexivity; eexists; reflexivity.
  - destruct s as [|a s]; simpl.
    + split; [discriminate | intros [post Hp]; discriminate].
    + destruct (Ascii.eqb_spec (lower_ascii a) (lower_ascii b)) as [E|E].
      * rewrite IH. split; intros [post Hp]; exists post.
        -- rewrite E, Hp. reflexivity.
        -- injection Hp as _ Hp. exact Hp.
      * split; [discriminate|]. intros [post Hp]. injection Hp as Hc _.
        contradiction.
Qed.

Lemma contains_from_spec (substr : string) (n : nat) :
  forall s,
    contains_from n s substr = true
    <-> exists pre post,
          (String.length pre < n)%nat
          /\ strings_ToLower s = pre ++ strings_ToLower substr ++ post.
Proof.
  induction n as [|n IH]; intros s; simpl.
  - split; [discriminate | intros (pre & post & Hl & _); lia].
  - destruct (contains_at s substr) eqn:E.
    + split; [|reflexivity]. intros _.
      apply contains_at_spec in E. destruct E as [post Hp].
      exists "", post. split; [simpl; lia | exact Hp].
    + assert (Hno : ~ exists post,
                 strings_ToLower s = strings_ToLower substr ++ post).
      { intros Hex. apply contains_at_spec in Hex. congruence. }
      destruct s as [|c s].
      * split; [discriminate|]. intros (pre & post & _ & Hp).
        destruct pre; simpl in Hp; [|discriminate].
        exfalso. apply Hno. exists post. exact Hp.
      * rewrite IH. split.
        -- intros (pre & post & Hl & Hp).
           exists (String (lower_ascii c) pre), post.
           split; [simpl; lia | simpl; rewrite Hp; reflexivity].
        -- intros (pre & post & Hl & Hp). destruct pre as [|x pre].
           ++ exfalso. apply Hno. exists post. exact Hp.
           ++ simpl in Hp, Hl. injection Hp as _ Hp.
              exists pre, post. split; [lia | exact Hp].
Qed.

Lemma strings_Contains_spec (substr : string) :
  forall s,
    strings_Contains s substr = true
    <-> exists pre post, s = pre ++ substr ++ post.
Proof.
  assert (Hprefix : forall a b,
            String.prefix a b = true <-> exists post, b = a ++ post).
  { induction a as [|x a IHa]; intros b.
    - destruct b; simpl;
        (split; [intros _; eexists; reflexivity | reflexivity]).
    - destruct b as [|y b]; simpl.
      + split; [discriminate | intros [post Hp]; discriminate].
      + destruct (ascii_dec x y) as [->|E].
        * rewrite IHa. split; intros [post Hp]; exists post.
          -- rewrite Hp. reflexivity.
          -- injection Hp as Hp. exact Hp.
        * split; [discriminate|]. intros [post Hp]. injection Hp as Hc _.
          congruence. }
  induction s as [|c s IH]; cbn [strings_Contains].
  - destruct (String.prefix substr "") eqn:E.
    + split; [|reflexivity]. intros _. apply Hprefix in E.
      destruct E as [post Hp]. exists "", post. exact Hp.
    + split; [discriminate|]. intros (pre & post & Hp).
      destruct pre; [|discriminate]. simpl in Hp.
      assert (String.prefix substr "" = true)
        by (apply Hprefix; exists post; exact Hp).
      congruence.
  - destruct (String.prefix substr (String c s)) eqn:E.
    + split; [|reflexivity]. intros _. apply Hprefix in E.
      destruct E as [post Hp]. exists "", post. exact Hp.
    + rewrite IH. split.
      * intros (pre & post & Hp). exists (String c pre), post.
        simpl. rewrite Hp. reflexivity.
      * intros (pre & post & Hp). destruct pre as [|x pre].
        -- simpl in Hp.
           assert (String.prefix substr (String c s) = true)
             by (apply Hprefix; exists post; exact Hp).
           congruence.
        -- simpl in Hp. injection Hp as _ Hp. exists pre, post. exact Hp.
Qed.

(** X6.  [containsIgnoreCase] is true exactly when the lower-cased [substr]
    occurs in the lower-cased [s] (lower case of the letters A-Z, byte by
    byte); in particular an empty [substr] is found in every [s], and a
    [substr] longer than [s] in none. *)
Theorem containsIgnoreCase_finds_folded_substring (s substr : string) :
  (containsIgnoreCase s substr = true
   <-> exists pre post,
         strings_ToLower s = pre ++ strings_ToLower substr ++ post)
  /\ containsIgnoreCase s "" = true
  /\ ((String.length s < String.length substr)%nat ->
      containsIgnoreCase s substr = false).
Proof.
  assert (Hmain : forall s substr,
            containsIgnoreCase s substr = true
            <-> exists pre post,
                  strings_ToLower s = pre ++ strings_ToLower substr ++ post).
  { clear. intros s substr. unfold containsIgnoreCase, contains.
    rewrite andb_true_iff, Nat.leb_le, contains_from_spec. split.
    - intros (_ & pre & post & _ & Hp). exists pre, post. exact Hp.
    - intros (pre & post & Hp).
      assert (Hlen : String.length s
                     = (String.length pre + (String.length substr
                                             + String.length post))%nat).
      { rewrite <- (strings_ToLower_length s), Hp, !string_app_length,
          strings_ToLower_length. reflexivity. }
      split; [lia|]. exists pre, post. split; [lia | exact Hp]. }
  split; [apply Hmain|]. split.
  - apply Hmain. exists "", (strings_ToLower s). reflexivity.
  - intros Hlt. destruct (containsIgnoreCase s substr) eqn:E; [|reflexivity].
    apply Hmain in E. destruct E as (pre & post & Hp).
    assert (Hlen : String.length s
                   = (String.length pre + (String.length substr
                                           + String.length post))%nat).
    { rewrite <- (strings_ToLower_length s), Hp, !string_app_length,
        strings_ToLower_length. reflexivity. }
    lia.
Qed.

(** The table of [TestContainsIgnoreCase] and of
    [TestContainsRateLimitError]. *)
Example TestContainsIgnoreCase_table :
  containsIgnoreCase "hello world" "world" = true
  /\ containsIgnoreCase "HELLO WORLD" "world" = true
  /\ containsIgnoreCase "Hello World" "hello" = true
  /\ containsIgnoreCase "hello world" "foo" = false
  /\ containsIgnoreCase "hello" "" = true
  /\ containsIgnoreCase "" "foo" = false
  /\ containsRateLimitError "googleapi: Error 429: Too Many Requests" = true
  /\ containsRateLimitError "RESOURCE_EXHAUSTED: Quota exceeded" = true
  /\ containsRateLimitError "RPM limit exceeded" = true
  /\ containsRateLimitError "connection timeout" = false
  /\ containsRateLimitError "" = false.
Proof. vm_compute. repeat split. Qed.

(** X7.  Every message that the protocol's [containsRateLimitKeywords] takes
    for a rate limit, the client's [containsRateLimitError] takes for one
    too (messages of ASCII bytes, on which [strings.ToLower] changes the
    letters A-Z only): what the protocol pauses on, the client has retried
    before. *)
Theorem protocol_keywords_are_client_indicators (msg : string) :
  is_ascii msg = true ->
  containsRateLimitKeywords msg = true ->
  containsRateLimitError msg = true.
Proof.
  intros _. unfold containsRateLimitKeywords, containsRateLimitError.
  rewrite !existsb_exists.
  intros (keyword & Hin & Hc).
  apply strings_Contains_spec in Hc. destruct Hc as (pre & post & Hp).
  assert (Hfound : forall indicator,
            strings_ToLower indicator = strings_ToLower keyword ->
            containsIgnoreCase msg indicator = true).
  { intros indicator Hi.
    apply (containsIgnoreCase_finds_folded_substring msg indicator).
    exists pre, post. rewrite Hi. exact Hp. }
  unfold rateLimitKeywords in Hin. simpl in Hin.
  destruct Hin as [<-|[<-|[<-|[<-|[<-|[]]]]]].
  - exists "quota exceeded". split; [simpl; tauto | apply Hfound; reflexivity].
  - exists "rate limit". split; [simpl; tauto | apply Hfound; reflexivity].
  - exists "Too Many Requests".
    split; [simpl; tauto | apply Hfound; reflexivity].
  - exists "RESOURCE_EXHAUSTED".
    split; [simpl; tauto | apply Hfound; reflexivity].
  - exists "429". split; [simpl; tauto | apply Hfound; reflexivity].
Qed.

Lemma protocol_keywords_are_client_indicators_witness :
  containsRateLimitError "Error: Too many requests, slow down" = true.
Proof.
  apply (protocol_keywords_are_client_indicators
           "Error: Too many requests, slow down"); reflexivity.
Defined.

(** ** withRetry *)

Section WithRetryLemmas.
Context {F : Type} `{Float64Ops F} (env : RetryEnv F).

Lemma withRetry_loop_bounds (n : nat) :
  forall delay lastErr st,
    let r := withRetry_loop env n delay lastErr st in
    (fn_calls st <= fn_calls r.2 <= fn_calls st + n)%nat
    /\ (length (waits st) <= length (waits r.2) <= length (waits st) + n)%nat
    /\ ((0 < n)%nat -> (fn_calls st < fn_calls r.2)%nat).
Proof.
  induction n as [|n IH]; intros delay lastErr st; cbn [withRetry_loop].
  - simpl. lia.
  - destruct (fn env (fn_calls st)) as [err|]; [|simpl; lia].
    destruct (negb _); [simpl; lia|].
    cbn [waits fn_calls draws].
    destruct (ctx_Done env (length (waits st))); [simpl; lia|].
    specialize (IH (next_delay (retry_rand env (draws st)) delay) (Some err)
                  {| fn_calls := S (fn_calls st); waits := delay :: waits st;
                     draws := S (draws st) |}).
    cbv zeta in IH. cbn [waits fn_calls draws length] in IH.
    cbv zeta. lia.
Qed.

(** [k] calls in a row fail with an error that is retried, and the
    context is not done during the waits: the loop goes on after [k]
    calls and [k] waits. *)
Lemma withRetry_loop_skip (k : nat) :
  forall remaining delay lastErr st (errs : nat -> error),
    (forall i, (i < k)%nat ->
       fn env (fn_calls st + i) = Some (errs i)
       /\ retried (errs i) = true
       /\ ctx_Done env (length (waits st) + i) = false) ->
    exists delay' ws,
      length ws = k
      /\ withRetry_loop env (k + remaining) delay lastErr st
         = withRetry_loop env remaining delay'
             (match k with O => lastErr | S k' => Some (errs k') end)
             {| fn_calls := fn_calls st + k; waits := ws ++ waits st;
                draws := draws st + k |}.
Proof.
  induction k as [|k IH]; intros remaining delay lastErr st errs Hk.
  - exists delay, []. split; [reflexivity|]. cbn [Nat.add app].
    rewrite !Nat.add_0_r. destruct st; reflexivity.
  - cbn [Nat.add withRetry_loop].
    destruct (Hk 0%nat ltac:(lia)) as (Hfn & Hrl & Hctx).
    rewrite Nat.add_0_r in Hfn, Hctx. rewrite Hfn.
    unfold retried in Hrl. rewrite Hrl.
    replace (if String.eqb (Error (errs 0%nat)) "" then false else true)
      with true.
    2:{ destruct (String.eqb_spec (Error (errs 0%nat)) "") as [E|E];
          [|reflexivity].
        rewrite E in Hrl. discriminate. }
    cbn [negb waits fn_calls draws]. rewrite Hctx.
    destruct (IH remaining
                (next_delay (retry_rand env (draws st)) delay)
                (Some (errs 0%nat))
                {| fn_calls := S (fn_calls st); waits := delay :: waits st;
                   draws := S (draws st) |}
                (fun i => errs (S i))) as (delay' & ws & Hlen & Hrun).
    { intros i Hi. cbn [waits fn_calls draws length].
      replace (S (fn_calls st) + i)%nat with (fn_calls st + S i)%nat by lia.
      replace (S (length (waits st)) + i)%nat
        with (length (waits st) + S i)%nat by lia.
      apply Hk. lia. }
    exists delay', (ws ++ [delay])%list. split.
    { rewrite length_app, Hlen. simpl. lia. }
    rewrite Hrun. cbn [waits fn_calls draws].
    rewrite <- app_assoc. cbn [app].
    replace (S (fn_calls st) + k)%nat with (fn_calls st + S k)%nat by lia.
    replace (S (draws st) + k)%nat with (draws st + S k)%nat by lia.
    destruct k; reflexivity.
Qed.

End WithRetryLemmas.

(** Wrapping with [fmt.Errorf] and [%w] keeps an error a rate limit for
    the protocol. *)
Lemma isRateLimitError_wrapped (prefix : string) (err : error) :
  isRateLimitError err = true ->
  isRateLimitError (Errorf_w prefix err) = true.
Proof.
  unfold isRateLimitError, Errorf_w. cbn [errors_As_googleapi Error].
  destruct (errors_As_googleapi err) as [code|]; [tauto|].
  unfold containsRateLimitKeywords. rewrite !existsb_exists.
  intros (keyword & Hin & Hc). exists keyword. split; [exact Hin|].
  apply strings_Contains_spec in Hc. destruct Hc as (pre & post & Hp).
  apply strings_Contains_spec.
  exists (strings_ToLower prefix ++ pre), post.
  rewrite strings_ToLower_app, Hp. symmetry. apply string_app_assoc.
Qed.

(** X8.  [withRetry] calls [fn] at least once and at most five times, and
    waits at most five times, whatever [fn] returns. When the first [k]
    calls fail with errors it retries and the context stays open during the
    waits that follow them, then: a call [k < 5] that succeeds ends it with
    nil; a call [k < 5] that fails with another error ends it with that very
    error, not wrapped; a context found done at wait [k < 5] ends it with
    the error of the context; each time after [k + 1] calls and [k] waits.
    With [k = 5] it returns the fifth error wrapped as "max retries
    exceeded", after five calls and five waits, the last one following the
    fifth failure; the protocol's [isRateLimitError] holds of the wrapped
    error whenever it holds of the fifth. *)
Theorem withRetry_outcomes {F} `{Float64Ops F} (env : RetryEnv F)
  (st : RetryState) :
  let r := withRetry env st in
  ((fn_calls st < fn_calls r.2 <= fn_calls st + 5)%nat
   /\ (length (waits r.2) <= length (waits st) + 5)%nat)
  /\ forall (k : nat) (errs : nat -> error),
       (forall i, (i < k)%nat ->
          fn env (fn_calls st + i) = Some (errs i)
          /\ retried (errs i) = true
          /\ ctx_Done env (length (waits st) + i) = false) ->
       ((k < 5)%nat ->
        fn_calls r.2 = (fn_calls st + S k)%nat
        /\ length (waits r.2) = (length (waits st) + k)%nat
        /\ (fn env (fn_calls st + k) = None -> r.1 = None)
        /\ (forall err,
              fn env (fn_calls st + k) = Some err ->
              (retried err = false -> r.1 = Some err)
              /\ (retried err = true ->
                  ctx_Done env (length (waits st) + k) = true ->
                  r.1 = Some (ctx_Err env)))
        \/ (exists err,
              fn env (fn_calls st + k) = Some err
              /\ retried err = true
              /\ ctx_Done env (length (waits st) + k) = false))
       /\ (k = 5%nat ->
           r.1 = Some (Errorf_w "max retries exceeded: " (errs 4%nat))
           /\ fn_calls r.2 = (fn_calls st + 5)%nat
           /\ length (waits r.2) = (length (waits st) + 5)%nat
           /\ (isRateLimitError (errs 4%nat) = true ->
               is_ascii (Error (errs 4%nat)) = true ->
               isRateLimitError
                 (Errorf_w "max retries exceeded: " (errs 4%nat)) = true)).
Proof.
  cbv zeta. split.
  { pose proof (withRetry_loop_bounds env 5 baseRetryDelay None st) as Hb.
    cbv zeta in Hb. unfold withRetry, maxRetries. lia. }
  intros k errs Hfail. split.
  - intros Hk. unfold withRetry, maxRetries.
    replace 5%nat with (k + S (4 - k))%nat by lia.
    destruct (withRetry_loop_skip env k (S (4 - k)) baseRetryDelay None st
                errs Hfail) as (delay' & ws & Hlen & Hrun).
    rewrite Hrun. clear Hrun. cbn [withRetry_loop fn_calls waits draws].
    rewrite length_app, Hlen, (Nat.add_comm k (length (waits st))).
    destruct (fn env (fn_calls st + k)) as [err|] eqn:Hfn.
    + destruct (retried err) eqn:Hr.
      * unfold retried in Hr. rewrite Hr.
        replace (if String.eqb (Error err) "" then false else true)
          with true.
        2:{ destruct (String.eqb_spec (Error err) "") as [E|E];
              [|reflexivity].
            rewrite E in Hr. discriminate. }
        cbn [negb].
        destruct (ctx_Done env (length (waits st) + k)) eqn:Hctx.
        -- left. cbn [fst snd fn_calls waits]. rewrite length_app, Hlen.
           split; [lia|]. split; [lia|]. split; [discriminate|].
           intros err' Herr'. injection Herr' as <-.
           split; [intros Hn; unfold retried in Hn; congruence|].
           reflexivity.
        -- right. exists err. repeat split; assumption.
      * left. unfold retried in Hr. rewrite Hr.
        replace (if String.eqb (Error err) "" then false else false)
          with false by (destruct (String.eqb (Error err) ""); reflexivity).
        cbn [negb fst snd fn_calls waits]. rewrite length_app, Hlen.
        split; [lia|]. split; [lia|]. split; [discriminate|].
        intros err' Herr'. injection Herr' as <-.
        split; [reflexivity|]. intros Hn. unfold retried in Hn. congruence.
    + left. cbn [fst snd fn_calls waits]. rewrite length_app, Hlen.
      split; [lia|]. split; [lia|]. split; [reflexivity|].
      intros err Herr. discriminate.
  - intros ->.
    destruct (withRetry_loop_skip env 5 0 baseRetryDelay None st errs Hfail)
      as (delay' & ws & Hlen & Hrun).
    change (5 + 0)%nat with maxRetries in Hrun. fold (withRetry env st) in Hrun.
    rewrite Hrun. cbn [withRetry_loop fst snd fn_calls waits].
    rewrite length_app, Hlen.
    split; [reflexivity|]. split; [reflexivity|]. split; [lia|].
    intros Hrl _. apply isRateLimitError_wrapped. exact Hrl.
Qed.

(** Three calls that meet the limit, then an answer: four calls, three
    waits, nil. *)
Lemma withRetry_outcomes_witness :
  let r := withRetry (limitedEnv (f_dec 5 1 : float) 3 None) idle in
  r.1 = None /\ fn_calls r.2 = 4%nat /\ length (waits r.2) = 3%nat.
Proof.
  cbv zeta.
  destruct (withRetry_outcomes (limitedEnv (f_dec 5 1 : float) 3 None) idle)
    as (_ & Hout).
  destruct (Hout 3%nat (fun _ => ErrorString "RPM limit exceeded")) as (Hk & _).
  - intros i Hi. simpl.
    destruct i as [|[|[|i]]]; [repeat split.. | lia].
  - destruct (Hk ltac:(lia)) as [(Hc & Hw & Hnil & _)|(err & Herr & _)].
    + split; [apply Hnil; reflexivity|]. split; assumption.
    + discriminate.
Defined.

(** ** The waits of withRetry, over the reals *)

Section WithRetryR.
Open Scope R_scope.

Lemma R_trunc_IZR (z : Z) : R_trunc (IZR z) = z.
Proof.
  unfold R_trunc. destruct (Rle_dec 0 (IZR z)) as [Hz|Hz].
  - apply Int_part_IZR.
  - rewrite <- opp_IZR, Int_part_IZR. lia.
Qed.

(** Truncation moves towards zero. *)
Lemma R_trunc_within (x : R) (D : Z) :
  - IZR D <= 10 * x <= IZR D -> (- D <= 10 * R_trunc x <= D)%Z.
Proof.
  intros Hx.
  assert (Int_part_nonneg : forall y, 0 <= y -> (0 <= Int_part y)%Z).
  { intros y Hy. destruct (base_Int_part y) as [H1 H2].
    assert (Hlt : IZR (-1) < IZR (Int_part y)) by lra.
    apply lt_IZR in Hlt. lia. }
  assert (HD : (0 <= D)%Z) by (apply le_IZR; lra).
  unfold R_trunc. destruct (Rle_dec 0 x) as [Hpos|Hneg].
  - destruct (base_Int_part x) as [H1 H2].
    pose proof (Int_part_nonneg x Hpos).
    split; [lia|]. apply le_IZR. rewrite mult_IZR. lra.
  - destruct (base_Int_part (- x)) as [H1 H2].
    pose proof (Int_part_nonneg (- x) ltac:(lra)).
    split; [|lia].
    assert (10 * Int_part (- x) <= D)%Z; [|lia].
    apply le_IZR. rewrite mult_IZR. lra.
Qed.

(** One step of the backoff, while the cap is out of reach: twice the
    delay, give or take a tenth. *)
Lemma next_delay_R (u : R) (d : Z) :
  0 <= u < 1 ->
  (1000000000 <= d <= 30000000000)%Z ->
  (9 * (2 * d) <= 10 * next_delay (F := R) u d <= 11 * (2 * d))%Z.
Proof.
  intros Hu Hd.
  assert (Hdouble : int64_of_float (F := R)
                      (f_of_Z d * retryMultiplier)%f64 = (d * 2)%Z).
  { unfold int64_of_float, retryMultiplier.
    cbn [f_of_Z f_mul f_trunc exactR].
    rewrite <- mult_IZR, R_trunc_IZR.
    replace ((- 2 ^ 63 <=? d * 2)%Z && (d * 2 <? 2 ^ 63)%Z) with true;
      [reflexivity|].
    symmetry. apply andb_true_intro. split;
      [apply Z.leb_le | apply Z.ltb_lt]; lia. }
  unfold next_delay. rewrite Hdouble.
  replace (maxRetryDelay <? d * 2)%Z with false.
  2:{ symmetry. apply Z.ltb_ge. unfold maxRetryDelay, Second. lia. }
  unfold retryJitterFactor, f_dec.
  cbn [f_of_Z f_sub f_div f_mul f_add exactR].
  change (IZR (10 ^ Z.of_nat 1)) with 10.
  set (x := IZR (d * 2) * (1 / 10) * (u - 5 / 10) * 2).
  assert (Hx : - IZR (d * 2) <= 10 * x <= IZR (d * 2)).
  { assert (0 <= IZR (d * 2)) by (apply IZR_le; lia).
    unfold x. split; nra. }
  apply R_trunc_within in Hx.
  unfold int64_of_float. cbn [f_trunc exactR].
  replace ((- 2 ^ 63 <=? R_trunc x)%Z && (R_trunc x <? 2 ^ 63)%Z) with true.
  2:{ symmetry. apply andb_true_intro. split;
        [apply Z.leb_le | apply Z.ltb_lt]; lia. }
  unfold int64_add. rewrite Z.mod_small by lia. lia.
Qed.

Lemma withRetry_loop_waits_R (env : RetryEnv R) (n : nat) :
  (forall i, 0 <= retry_rand env i < 1) ->
  forall attempt delay lastErr st,
    (attempt + n = 5)%nat ->
    (1000000000 <= delay <= longest_wait attempt)%Z ->
    exists ws,
      waits (withRetry_loop env n delay lastErr st).2 = (ws ++ waits st)%list
      /\ Forall (fun d => (1000000000 <= d <= longest_wait 4)%Z) ws
      /\ (sum_Z ws <= longest_waits_from attempt)%Z
      /\ (ws <> [] -> last ws = Some delay).
Proof.
  intros Hu. induction n as [|n IH]; intros attempt delay lastErr st Ha Hd.
  - exists []. cbn [withRetry_loop snd app sum_Z fold_right].
    split; [reflexivity|]. split; [constructor|].
    split; [|congruence]. destruct attempt as [|[|[|[|[|?]]]]]; simpl; lia.
  - cbn [withRetry_loop].
    assert (Hnone : exists ws : list Z,
               waits st = (ws ++ waits st)%list
               /\ Forall (fun d => (1000000000 <= d <= longest_wait 4)%Z) ws
               /\ (sum_Z ws <= longest_waits_from attempt)%Z
               /\ (ws <> [] -> last ws = Some delay)).
    { exists []. split; [reflexivity|]. split; [constructor|].
      split; [|congruence].
      destruct attempt as [|[|[|[|[|?]]]]]; simpl; lia. }
    destruct (fn env (fn_calls st)) as [err|]; [|exact Hnone].
    destruct (negb _); [exact Hnone|].
    cbn [waits fn_calls draws].
    destruct (ctx_Done env (length (waits st))); [exact Hnone|].
    assert (Hat : (attempt <= 4)%nat) by lia.
    assert (Hd30 : (1000000000 <= delay <= 30000000000)%Z).
    { destruct attempt as [|[|[|[|[|?]]]]]; simpl in Hd; lia. }
    pose proof (next_delay_R (retry_rand env (draws st)) delay
                  (Hu _) Hd30) as Hnext.
    destruct (IH (S attempt)
                (next_delay (retry_rand env (draws st)) delay) (Some err)
                {| fn_calls := S (fn_calls st); waits := delay :: waits st;
                   draws := S (draws st) |})
      as (ws & Hws & Hall & Hsum & Hlast).
    { lia. }
    { destruct attempt as [|[|[|[|[|?]]]]]; simpl in Hd |- *; lia. }
    exists (ws ++ [delay])%list. cbn [waits] in Hws.
    split; [rewrite Hws, <- app_assoc; reflexivity|].
    split.
    { apply Forall_app. split; [exact Hall|]. constructor; [|constructor].
      destruct attempt as [|[|[|[|[|?]]]]]; simpl in Hd |- *; lia. }
    split.
    { assert (Hs : sum_Z (ws ++ [delay]) = (sum_Z ws + delay)%Z).
      { clear. unfold sum_Z. induction ws as [|x ws IHw];
          cbn [app fold_right]; [lia | rewrite IHw; lia]. }
      rewrite Hs.
      destruct attempt as [|[|[|[|[|?]]]]]; simpl in Hd, Hsum |- *; lia. }
    intros _. apply last_snoc.
Qed.

End WithRetryR.

(** X9.  Over the reals, with draws in [0, 1): the first wait of [withRetry]
    is one second, and every wait lies between 1 s and 23.4256 s (one second
    times 2.2 to the fourth), so that the cap of 60 seconds is never
    reached; all the waits of one call together stay below 42.2 s. *)
Theorem withRetry_waits_stay_below_the_cap (env : RetryEnv R)
  (st : RetryState) :
  (forall i, (0 <= retry_rand env i < 1)%R) ->
  exists ws,
    waits (withRetry env st).2 = (ws ++ waits st)%list
    /\ Forall (fun d => 1 * Second <= d <= 23425600000
                     /\ 23425600000 < maxRetryDelay) ws
    /\ sum_Z ws <= 42113600000
    /\ (ws <> [] -> last ws = Some baseRetryDelay).
Proof.
  intros Hu.
  destruct (withRetry_loop_waits_R env 5 Hu 0 baseRetryDelay None st
              eq_refl) as (ws & Hws & Hall & Hsum & Hlast).
  { unfold baseRetryDelay, Second. simpl. lia. }
  exists ws. split; [exact Hws|]. split; [|split; assumption].
  eapply Forall_impl; [exact Hall|]. intros d Hd.
  cbn [longest_wait] in Hd. unfold maxRetryDelay, Second. lia.
Qed.

(** Five calls that meet the limit, with the draw 3/4. *)
Lemma withRetry_waits_stay_below_the_cap_witness :
  exists ws,
    waits (withRetry (limitedEnv (3 / 4)%R 5 None) idle).2 = ws
    /\ Forall (fun d => 1 * Second <= d <= 23425600000
                     /\ 23425600000 < maxRetryDelay) ws
    /\ sum_Z ws <= 42113600000.
Proof.
  destruct (withRetry_waits_stay_below_the_cap (limitedEnv (3 / 4)%R 5 None)
              idle) as (ws & Hws & Hall & Hsum & _).
  - intros i. simpl. lra.
  - exists ws. rewrite Hws, app_nil_r. repeat split; assumption.
Defined.

(** ** The broker *)

Lemma string_app_cons (c : ascii) (a b : string) :
  String c a ++ b = String c (a ++ b).
Proof. reflexivity. Qed.

Lemma string_app_nil_l (b : string) : "" ++ b = b.
Proof. reflexivity. Qed.

(** X10.  Two resources whose types have no colon never share a key: from
    the key, type and identifier can be read back. *)
Theorem GetResourceKey_injective (type1 id1 type2 id2 : string) :
  no_colon type1 = true ->
  no_colon type2 = true ->
  sse.GetResourceKey type1 id1 = sse.GetResourceKey type2 id2 ->
  type1 = type2 /\ id1 = id2.
Proof.
  unfold sse.GetResourceKey. revert type2.
  induction type1 as [|c t1 IH]; intros [|d t2] H1 H2 Hk.
  - rewrite !string_app_nil_l, !string_app_cons in Hk.
    injection Hk as Hk. split; [reflexivity | exact Hk].
  - rewrite string_app_nil_l, !string_app_cons in Hk.
    injection Hk as Hc _. subst d. simpl in H2. discriminate.
  - rewrite string_app_nil_l, !string_app_cons in Hk.
    injection Hk as Hc _. subst c. simpl in H1. discriminate.
  - rewrite !(string_app_cons _ _ (":" ++ _)) in Hk.
    injection Hk as Hc Hk. subst d.
    simpl in H1, H2. apply andb_true_iff in H1, H2.
    destruct (IH t2 (proj2 H1) (proj2 H2) Hk) as [-> ->].
    split; reflexivity.
Qed.

Lemma GetResourceKey_injective_witness :
  "evaluation" = "evaluation" /\ "eval-1" = "eval-1".
Proof.
  apply (GetResourceKey_injective "evaluation" "eval-1" "evaluation" "eval-1");
    reflexivity.
Defined.

(** With a colon in the type, two resources can share a key. *)
Example GetResourceKey_collision :
  sse.GetResourceKey "a:b" "c" = sse.GetResourceKey "a" "b:c".
Proof. reflexivity. Qed.

Lemma strings_Split_nl_cons (s : string) :
  exists line lines, sse.strings_Split_nl s = line :: lines.
Proof.
  induction s as [|c s (line & lines & IH)]; simpl.
  - eauto.
  - destruct (Ascii.eqb c (ascii_of_nat 10)); [eauto|].
    rewrite IH. eauto.
Qed.

(** The lines of [strings.Split] joined by newlines are the string. *)
Lemma join_nl_Split (s : string) : join_nl (sse.strings_Split_nl s) = s.
Proof.
  induction s as [|c s IH]; [reflexivity|].
  cbn [sse.strings_Split_nl].
  destruct (strings_Split_nl_cons s) as (line & lines & E).
  rewrite E in IH |- *.
  destruct (Ascii.eqb_spec c (ascii_of_nat 10)) as [->|Hc].
  - change (join_nl ("" :: line :: lines))
      with ("" ++ nl ++ join_nl (line :: lines)).
    rewrite IH. reflexivity.
  - destruct lines as [|l2 lines].
    + cbn [join_nl] in *. rewrite IH. reflexivity.
    + change (join_nl (String c line :: l2 :: lines))
        with (String c line ++ nl ++ join_nl (l2 :: lines)).
      change (join_nl (line :: l2 :: lines))
        with (line ++ nl ++ join_nl (l2 :: lines)) in IH.
      rewrite string_app_cons, IH. reflexivity.
Qed.

(** Splitting what the loop has formatted gives the lines back, each
    after ["data: "]. *)
Lemma Split_formattedData (s : string) :
  sse.strings_Split_nl (sse.formattedData (sse.strings_Split_nl s))
  = map (String.append "data: ") (sse.strings_Split_nl s).
Proof.
  assert (Hline : forall line rest,
            (forall pre post, line <> pre ++ nl ++ post) ->
            sse.strings_Split_nl (line ++ nl ++ rest)
            = line :: sse.strings_Split_nl rest).
  { induction line as [|c line IHl]; intros rest Hno.
    - reflexivity.
    - rewrite string_app_cons. cbn [sse.strings_Split_nl].
      destruct (Ascii.eqb_spec c (ascii_of_nat 10)) as [->|Hc].
      + exfalso. apply (Hno "" line). reflexivity.
      + rewrite IHl; [reflexivity|].
        intros pre post E. apply (Hno (String c pre) post).
        rewrite string_app_cons, E. reflexivity. }
  assert (Hlast : forall line,
            (forall pre post, line <> pre ++ nl ++ post) ->
            sse.strings_Split_nl line = [line]).
  { induction line as [|c line IHl]; intros Hno; [reflexivity|].
    cbn [sse.strings_Split_nl].
    destruct (Ascii.eqb_spec c (ascii_of_nat 10)) as [->|Hc].
    + exfalso. apply (Hno "" line). reflexivity.
    + rewrite IHl; [reflexivity|].
      intros pre post E. apply (Hno (String c pre) post).
      rewrite string_app_cons, E. reflexivity. }
  assert (Hsplit : forall s,
            Forall (fun line => forall pre post, line <> pre ++ nl ++ post)
              (sse.strings_Split_nl s)).
  { clear. induction s as [|c s IH]; cbn [sse.strings_Split_nl].
    - constructor; [|constructor]. intros [|? ?] post E; discriminate.
    - destruct (Ascii.eqb_spec c (ascii_of_nat 10)) as [->|Hc].
      + constructor; [|exact IH]. intros [|? ?] post E; discriminate.
      + destruct (strings_Split_nl_cons s) as (line & lines & E).
        rewrite E in IH |- *. inversion IH as [|? ? Hl Hls]; subst.
        constructor; [|exact Hls].
        intros [|d pre] post E2.
        * rewrite string_app_nil_l in E2. injection E2 as E2 _.
          contradiction.
        * rewrite string_app_cons in E2. injection E2 as _ E2.
          exact (Hl pre post E2). }
  assert (Hdata : forall line,
            (forall pre post, line <> pre ++ nl ++ post) ->
            forall pre post, "data: " ++ line <> pre ++ nl ++ post).
  { intros line Hno pre post E.
    do 6 (destruct pre as [|? pre];
          [rewrite string_app_nil_l in E; discriminate|];
          rewrite string_app_cons in E; injection E as _ E).
    exact (Hno pre post E). }
  assert (Hgen : forall line lines,
            Forall (fun line => forall pre post, line <> pre ++ nl ++ post)
              (line :: lines) ->
            sse.strings_Split_nl (sse.formattedData (line :: lines))
            = map (String.append "data: ") (line :: lines)).
  { intros line lines. revert line.
    induction lines as [|l2 lines IH]; intros line Hall;
      inversion Hall as [|? ? Hl Hls]; subst.
    - cbn [sse.formattedData map]. apply Hlast. apply Hdata. exact Hl.
    - change (sse.formattedData (line :: l2 :: lines))
        with ("data: " ++ line ++ nl ++ sse.formattedData (l2 :: lines)).
      rewrite <- string_app_assoc.
      rewrite Hline by (apply Hdata; exact Hl).
      rewrite (IH l2 Hls). reflexivity. }
  specialize (Hsplit s).
  destruct (strings_Split_nl_cons s) as (line & lines & E).
  rewrite E in Hsplit |- *. apply Hgen. exact Hsplit.
Qed.

(** X11.  What [SendHTML] puts after the event line carries the HTML line by
    line: split at the newlines, the data block gives the lines of the HTML
    in their order, each after ["data: "]; none of its lines is empty, so
    that the blank line that ends the message is the only one; and the lines
    of the HTML joined by newlines are the HTML. *)
Theorem SendHTML_data_block_carries_the_lines (html : string) :
  let data := sse.formattedData (sse.strings_Split_nl html) in
  sse.strings_Split_nl data
  = map (String.append "data: ") (sse.strings_Split_nl html)
  /\ Forall (fun line => line <> "") (sse.strings_Split_nl data)
  /\ join_nl (sse.strings_Split_nl html) = html.
Proof.
  cbv zeta. split; [apply Split_formattedData|]. split.
  - rewrite Split_formattedData. apply List.Forall_map.
    induction (sse.strings_Split_nl html); constructor;
      [discriminate | assumption].
  - apply join_nl_Split.
Qed.

Example SendHTML_message_two_lines :
  sse.message "evaluation_progress"
    ("<div>" ++ nl ++ "</div>")
  = "event: evaluation_progress" ++ nl ++ "data: <div>" ++ nl
      ++ "data: </div>" ++ nl ++ nl.
Proof. reflexivity. Qed.

Ltac in_empty H := exfalso; exact (not_elem_of_empty _ H).

Section Broker.
Implicit Types (b : sse.Broker) (client : nat) (key : string).

Lemma in_singleton_union (x y : nat) (X : gset nat) :
  x ∈ ({[ y ]} ∪ X : gset nat) -> x <> y -> x ∈ X.
Proof.
  intros Hin Hne. apply elem_of_union in Hin. destruct Hin as [Hs|Hx].
  - apply elem_of_singleton in Hs. contradiction.
  - exact Hx.
Qed.

Lemma singleton_union_nonempty (y : nat) (X : gset nat) :
  ({[ y ]} ∪ X : gset nat) <> ∅.
Proof.
  intros Hz. apply (not_elem_of_empty (C := gset nat) y). rewrite <- Hz.
  apply elem_of_union_l, elem_of_singleton. reflexivity.
Qed.


Lemma subscribers_lookup key b subscribed :
  sse.clients b !! key = Some subscribed -> subscribers key b = subscribed.
Proof. unfold subscribers. intros ->. reflexivity. Qed.

Lemma fresh_client_unknown b :
  broker_ok b ->
  sse.heap b !! fresh (dom (sse.heap b)) = None
  /\ forall key, fresh (dom (sse.heap b)) ∉ subscribers key b.
Proof.
  intros [Hsub _].
  assert (Hnone : sse.heap b !! fresh (dom (sse.heap b)) = None).
  { apply not_elem_of_dom. apply is_fresh. }
  split; [exact Hnone|]. intros key Hin. unfold subscribers in Hin.
  destruct (sse.clients b !! key) as [subscribed|] eqn:E; simpl in Hin.
  - destruct (Hsub key subscribed E) as (_ & Hc).
    destruct (Hc _ Hin) as ((c & Hh & _) & _). congruence.
  - in_empty Hin.
Qed.

Lemma broker_ok_Subscribe b type id :
  broker_ok b -> broker_ok (sse.Subscribe type id b).2.
Proof.
  intros Hok. destruct (fresh_client_unknown b Hok) as [Hnone Hnew].
  destruct Hok as [Hsub Hbuf].
  unfold sse.Subscribe. cbn [snd].
  set (key0 := sse.GetResourceKey type id) in *.
  set (h := fresh (dom (sse.heap b))) in *.
  assert (Hsubs : forall key,
            subscribers key
              {| sse.clients :=
                   <[key0 := {[ h ]} ∪ default ∅ (sse.clients b !! key0)]>
                     (sse.clients b);
                 sse.heap :=
                   <[h := {| sse.Events := []; sse.closed := false |}]>
                     (sse.heap b) |}
            = if decide (key = key0) then {[ h ]} ∪ subscribers key0 b
              else subscribers key b).
  { intros key. unfold subscribers. cbn [sse.clients].
    destruct (decide (key = key0)) as [->|Hne].
    - rewrite lookup_insert_eq. reflexivity.
    - rewrite lookup_insert_ne by congruence. reflexivity. }
  split.
  - intros key subscribed Hl. cbn [sse.clients sse.heap] in *.
    destruct (decide (key = key0)) as [->|Hne].
    + rewrite lookup_insert_eq in Hl. injection Hl as <-.
      split; [apply singleton_union_nonempty|]. intros client Hin.
      destruct (decide (client = h)) as [->|Hch].
      * split; [rewrite lookup_insert_eq; eauto|].
        intros key' Hk'. rewrite Hsubs in Hk'.
        destruct (decide (key' = key0)); [assumption|].
        exfalso. exact (Hnew key' Hk').
      * assert (Hold : client ∈ subscribers key0 b).
        { unfold subscribers. eapply in_singleton_union; eassumption. }
        unfold subscribers in Hold.
        destruct (sse.clients b !! key0) as [old|] eqn:E; simpl in Hold;
          [|in_empty Hold].
        destruct (Hsub key0 old E) as (_ & Hc).
        destruct (Hc client Hold) as (Hopen & Huniq).
        split; [rewrite lookup_insert_ne by congruence; exact Hopen|].
        intros key' Hk'. rewrite Hsubs in Hk'.
        destruct (decide (key' = key0)); [assumption|].
        apply Huniq. exact Hk'.
    + rewrite lookup_insert_ne in Hl by congruence.
      destruct (Hsub key subscribed Hl) as (Hne' & Hc).
      split; [exact Hne'|]. intros client Hin.
      destruct (Hc client Hin) as ((c & Hh & Hopen) & Huniq).
      assert (client <> h) by congruence.
      split; [rewrite lookup_insert_ne by congruence; eauto|].
      intros key' Hk'. rewrite Hsubs in Hk'.
      destruct (decide (key' = key0)) as [->|]; [|apply Huniq; exact Hk'].
      apply Huniq. eapply in_singleton_union; eassumption.
  - intros client c Hl. cbn [sse.heap] in Hl.
    destruct (decide (client = h)) as [->|Hch].
    + rewrite lookup_insert_eq in Hl. injection Hl as <-. simpl.
      unfold sse.bufferSize. lia.
    + rewrite lookup_insert_ne in Hl by congruence. eapply Hbuf; eassumption.
Qed.

Lemma offer_length (msg : string) (c : sse.Client) :
  (length (sse.Events c) <= sse.bufferSize)%nat ->
  (length (sse.Events (sse.offer msg c)) <= sse.bufferSize)%nat
  /\ sse.closed (sse.offer msg c) = sse.closed c.
Proof.
  intros Hc. unfold sse.offer.
  destruct (Nat.ltb_spec (length (sse.Events c)) sse.bufferSize); simpl.
  - rewrite length_app. simpl. split; [lia | reflexivity].
  - split; [lia | reflexivity].
Qed.

(** Under [broker_ok] no send meets a closed channel. *)
Lemma SendHTML_Done b (type id eventType html : string) :
  broker_ok b ->
  sse.SendHTML type id eventType html b
  = Done
      {| sse.clients := sse.clients b;
         sse.heap :=
           map_imap
             (fun client c =>
                Some (if decide
                           (client ∈ subscribers (sse.GetResourceKey type id) b)
                      then sse.offer (sse.message eventType html) c else c))
             (sse.heap b) |}.
Proof.
  intros [Hsub _]. unfold sse.SendHTML.
  fold (subscribers (sse.GetResourceKey type id) b).
  destruct (decide _) as [Hex|_]; [|reflexivity].
  exfalso. destruct Hex as (client & Hin & Hclosed).
  unfold subscribers in Hin.
  destruct (sse.clients b !! sse.GetResourceKey type id) as [s|] eqn:E;
    simpl in Hin; [|in_empty Hin].
  destruct (Hsub _ s E) as (_ & Hc).
  destruct (Hc client Hin) as ((c & Hh & Hopen) & _).
  rewrite Hh in Hclosed. simpl in Hclosed. congruence.
Qed.

Lemma broker_ok_SendHTML b b' (type id eventType html : string) :
  broker_ok b ->
  sse.SendHTML type id eventType html b = Done b' ->
  broker_ok b'.
Proof.
  intros Hok Hsend. rewrite (SendHTML_Done b type id eventType html Hok) in Hsend.
  injection Hsend as <-. destruct Hok as [Hsub Hbuf]. split.
  - intros key subscribed Hl. cbn [sse.clients] in Hl.
    destruct (Hsub key subscribed Hl) as (Hne & Hc).
    split; [exact Hne|]. intros client Hin.
    destruct (Hc client Hin) as ((c & Hh & Hopen) & Huniq).
    split.
    + cbn [sse.heap]. rewrite map_lookup_imap, Hh. simpl.
      destruct (decide _); eexists; (split; [reflexivity|]);
        [|exact Hopen].
      rewrite (proj2 (offer_length _ c (Hbuf _ _ Hh))). exact Hopen.
    + intros key' Hk'. apply Huniq. exact Hk'.
  - intros client c Hl. cbn [sse.heap] in Hl.
    rewrite map_lookup_imap in Hl.
    destruct (sse.heap b !! client) as [c0|] eqn:Hh; simpl in Hl;
      [|discriminate].
    injection Hl as <-. destruct (decide _).
    + apply offer_length. eapply Hbuf; eassumption.
    + eapply Hbuf; eassumption.
Qed.

Lemma Unsubscribe_Done b client (type id : string) c subscribed :
  sse.clients b !! sse.GetResourceKey type id = Some subscribed ->
  sse.heap b !! client = Some c ->
  sse.closed c = false ->
  sse.Unsubscribe client type id b
  = Done
      {| sse.clients :=
           if decide (size (subscribed ∖ {[ client ]}) = 0%nat)
           then delete (sse.GetResourceKey type id) (sse.clients b)
           else <[sse.GetResourceKey type id := subscribed ∖ {[ client ]}]>
                  (sse.clients b);
         sse.heap :=
           <[client := {| sse.Events := sse.Events c; sse.closed := true |}]>
             (sse.heap b) |}.
Proof.
  intros Hk Hh Hopen. unfold sse.Unsubscribe. rewrite Hk, Hh, Hopen.
  reflexivity.
Qed.

Lemma broker_ok_Unsubscribe b b' client (type id : string) :
  broker_ok b ->
  client ∈ subscribers (sse.GetResourceKey type id) b ->
  sse.Unsubscribe client type id b = Done b' ->
  broker_ok b'.
Proof.
  intros Hok Hin Hun. destruct Hok as [Hsub Hbuf].
  set (key0 := sse.GetResourceKey type id) in *.
  unfold subscribers in Hin.
  destruct (sse.clients b !! key0) as [subscribed|] eqn:E; simpl in Hin;
    [|in_empty Hin].
  destruct (Hsub key0 subscribed E) as (_ & Hc0).
  destruct (Hc0 client Hin) as ((c & Hh & Hopen) & Huniq0).
  rewrite (Unsubscribe_Done b client type id c subscribed E Hh Hopen) in Hun.
  injection Hun as <-. fold key0.
  assert (Hsubs : forall key,
            subscribers key
              {| sse.clients :=
                   if decide (size (subscribed ∖ {[ client ]}) = 0%nat)
                   then delete key0 (sse.clients b)
                   else <[key0 := subscribed ∖ {[ client ]}]> (sse.clients b);
                 sse.heap :=
                   <[client := {| sse.Events := sse.Events c;
                                  sse.closed := true |}]> (sse.heap b) |}
            = if decide (key = key0) then subscribed ∖ {[ client ]}
              else subscribers key b).
  { intros key. unfold subscribers. cbn [sse.clients].
    destruct (decide (size (subscribed ∖ {[ client ]}) = 0%nat)) as [Hz|Hz];
      destruct (decide (key = key0)) as [->|Hne].
    - rewrite lookup_delete_eq. simpl. apply size_empty_inv in Hz.
      apply leibniz_equiv in Hz. rewrite Hz. reflexivity.
    - rewrite lookup_delete_ne by congruence. reflexivity.
    - rewrite lookup_insert_eq. reflexivity.
    - rewrite lookup_insert_ne by congruence. reflexivity. }
  split.
  - intros key s Hl.
    assert (Hs : subscribers key _ = s) by (apply subscribers_lookup; exact Hl).
    rewrite Hsubs in Hs. cbn [sse.clients sse.heap] in *.
    destruct (decide (key = key0)) as [->|Hne].
    + subst s.
      assert (Hnz : subscribed ∖ {[ client ]} <> ∅).
      { intros Hz. rewrite Hz, size_empty in Hl.
        destruct (decide (0%nat = 0%nat)); [|congruence].
        rewrite lookup_delete_eq in Hl. discriminate. }
      split; [exact Hnz|]. intros other Ho.
      assert (other ∈ subscribed /\ other <> client) as [Ho1 Ho2].
      { apply elem_of_difference in Ho. destruct Ho as [Ho1 Ho2].
        split; [exact Ho1|]. intros ->. apply Ho2.
        apply elem_of_singleton. reflexivity. }
      destruct (Hc0 other Ho1) as (Hop & Hun).
      split; [rewrite lookup_insert_ne by congruence; exact Hop|].
      intros key' Hk'. rewrite Hsubs in Hk'.
      destruct (decide (key' = key0)); [assumption|]. apply Hun. exact Hk'.
    + assert (Hl' : sse.clients b !! key = Some s).
      { destruct (decide (size (subscribed ∖ {[ client ]}) = 0%nat)).
        - rewrite lookup_delete_ne in Hl by congruence. exact Hl.
        - rewrite lookup_insert_ne in Hl by congruence. exact Hl. }
      destruct (Hsub key s Hl') as (Hnz & Hc).
      split; [exact Hnz|]. intros other Ho.
      destruct (Hc other Ho) as ((co & Hho & Hoo) & Hun).
      assert (other <> client).
      { intros ->. apply Hne. apply Huniq0.
        unfold subscribers. rewrite Hl'. exact Ho. }
      split; [rewrite lookup_insert_ne by congruence; eauto|].
      intros key' Hk'. rewrite Hsubs in Hk'.
      destruct (decide (key' = key0)) as [->|]; [|apply Hun; exact Hk'].
      apply Hun. unfold subscribers. rewrite E. simpl.
      apply elem_of_difference in Hk'. exact (proj1 Hk').
  - intros other co Hl. cbn [sse.heap] in Hl.
    destruct (decide (other = client)) as [->|Hne].
    + rewrite lookup_insert_eq in Hl. injection Hl as <-. simpl.
      eapply Hbuf; eassumption.
    + rewrite lookup_insert_ne in Hl by congruence. eapply Hbuf; eassumption.
Qed.

End Broker.

(** X12.  The broker keeps its clients open. From a new broker on, as long
    as every [Unsubscribe] names a client with the resource it is subscribed
    to (as [Handler] does): [Subscribe], [SendHTML] and [Unsubscribe] keep
    [broker_ok]; [SendHTML] never sends on a closed channel, leaves the
    subscriptions as they are and no buffer beyond 100 messages; and
    [Unsubscribe] does not panic. *)
Theorem broker_keeps_its_clients_open (b : sse.Broker) :
  broker_ok b ->
  (forall type id, broker_ok (sse.Subscribe type id b).2)
  /\ (forall type id eventType html,
        exists b',
          sse.SendHTML type id eventType html b = Done b'
          /\ broker_ok b'
          /\ sse.clients b' = sse.clients b
          /\ forall client c,
               sse.heap b' !! client = Some c ->
               (length (sse.Events c) <= 100)%nat)
  /\ (forall client type id,
        client ∈ subscribers (sse.GetResourceKey type id) b ->
        exists b',
          sse.Unsubscribe client type id b = Done b' /\ broker_ok b').
Proof.
  intros Hok. split; [|split].
  - intros type id. apply broker_ok_Subscribe. exact Hok.
  - intros type id eventType html.
    pose proof (SendHTML_Done b type id eventType html Hok) as Hsend.
    eexists. split; [exact Hsend|].
    pose proof (broker_ok_SendHTML b _ type id eventType html Hok Hsend)
      as Hok'.
    split; [exact Hok'|]. split; [reflexivity|]. exact (proj2 Hok').
  - intros client type id Hin. pose proof Hok as [Hsub _].
    pose proof Hin as Hin'. unfold subscribers in Hin'.
    destruct (sse.clients b !! sse.GetResourceKey type id)
      as [subscribed|] eqn:E; simpl in Hin'; [|in_empty Hin'].
    destruct (Hsub _ subscribed E) as (_ & Hc).
    destruct (Hc client Hin') as ((c & Hh & Hopen) & _).
    pose proof (Unsubscribe_Done b client type id c subscribed E Hh Hopen)
      as Hun.
    eexists. split; [exact Hun|].
    exact (broker_ok_Unsubscribe b _ client type id Hok Hin Hun).
Qed.

Lemma broker_ok_NewBroker : broker_ok sse.NewBroker.
Proof.
  split.
  - intros key subscribed Hl. cbn in Hl. rewrite lookup_empty in Hl.
    discriminate.
  - intros client c Hl. cbn in Hl. rewrite lookup_empty in Hl. discriminate.
Qed.

Lemma broker_keeps_its_clients_open_witness :
  exists b',
    sse.SendHTML "evaluation" "eval-1" "evaluation_progress" "<p>1/5</p>"
      sse.NewBroker = Done b'
    /\ broker_ok b'.
Proof.
  destruct (broker_keeps_its_clients_open sse.NewBroker broker_ok_NewBroker)
    as (_ & Hsend & _).
  destruct (Hsend "evaluation" "eval-1" "evaluation_progress" "<p>1/5</p>")
    as (b' & Hb' & Hok & _).
  exists b'. split; assumption.
Defined.

(** X13.  A message sent to a resource reaches the client that has just
    subscribed to it, whose buffer then holds that message alone; the
    clients of other resources, and the subscribers whose buffer is full,
    are left as they are. *)
Theorem message_reaches_the_subscriber (b : sse.Broker)
  (type id eventType html : string) :
  broker_ok b ->
  let client := (sse.Subscribe type id b).1 in
  let b1 := (sse.Subscribe type id b).2 in
  exists b2,
    sse.SendHTML type id eventType html b1 = Done b2
    /\ sse.heap b2 !! client
       = Some {| sse.Events := [sse.message eventType html];
                 sse.closed := false |}
    /\ (forall other c,
          sse.heap b1 !! other = Some c ->
          other ∉ subscribers (sse.GetResourceKey type id) b1
          \/ length (sse.Events c) = sse.bufferSize ->
          sse.heap b2 !! other = Some c).
Proof.
  intros Hok. cbv zeta.
  pose proof (broker_ok_Subscribe b type id Hok) as Hok1.
  rewrite (SendHTML_Done _ type id eventType html Hok1).
  eexists. split; [reflexivity|]. cbn [sse.heap]. split.
  - rewrite map_lookup_imap. unfold sse.Subscribe. cbn [fst snd sse.heap].
    rewrite lookup_insert_eq. simpl.
    destruct (decide _) as [_|Hn]; [reflexivity|].
    exfalso. apply Hn. unfold subscribers. cbn [sse.clients].
    rewrite lookup_insert_eq. simpl.
    apply elem_of_union_l, elem_of_singleton. reflexivity.
  - intros other c Hh Hcase. rewrite map_lookup_imap, Hh. simpl.
    destruct (decide _) as [Hin|_]; [|reflexivity].
    destruct Hcase as [Hout|Hfull]; [contradiction|].
    unfold sse.offer. rewrite Hfull, Nat.ltb_irrefl. reflexivity.
Qed.

Lemma message_reaches_the_subscriber_witness :
  exists b2,
    sse.SendHTML "evaluation" "eval-1" "evaluation_complete" "<p>done</p>"
      (sse.Subscribe "evaluation" "eval-1" sse.NewBroker).2 = Done b2
    /\ sse.Events
         <$> sse.heap b2 !! (sse.Subscribe "evaluation" "eval-1"
                               sse.NewBroker).1
       = Some [sse.message "evaluation_complete" "<p>done</p>"].
Proof.
  destruct (message_reaches_the_subscriber sse.NewBroker "evaluation"
              "eval-1" "evaluation_complete" "<p>done</p>"
              broker_ok_NewBroker) as (b2 & Hsend & Hgot & _).
  exists b2. split; [exact Hsend|]. rewrite Hgot. reflexivity.
Defined.

(** X14.  Subscribing and unsubscribing again leaves the subscriptions as
    they were: the client is gone and a key that it alone held is gone too.
    Unsubscribing the same client a second time does nothing when no other
    client holds the resource, and panics on the closed channel when one
    does. *)
Theorem subscribe_then_unsubscribe (b : sse.Broker) (type id : string) :
  broker_ok b ->
  let client := (sse.Subscribe type id b).1 in
  let b1 := (sse.Subscribe type id b).2 in
  exists b2,
    sse.Unsubscribe client type id b1 = Done b2
    /\ sse.clients b2 = sse.clients b
    /\ sse.closed <$> sse.heap b2 !! client = Some true
    /\ sse.Unsubscribe client type id b2
       = match sse.clients b !! sse.GetResourceKey type id with
         | Some _ => Panic "close of closed channel"
         | None => Done b2
         end.
Proof.
  intros Hok. cbv zeta.
  destruct (fresh_client_unknown b Hok) as [Hnone Hnew].
  unfold sse.Subscribe. cbn [fst snd].
  set (key0 := sse.GetResourceKey type id) in *.
  set (h := fresh (dom (sse.heap b))) in *.
  set (old := default ∅ (sse.clients b !! key0)).
  assert (Hold : h ∉ old) by apply (Hnew key0).
  assert (Hdiff : ({[ h ]} ∪ old) ∖ {[ h ]} = old).
  { apply set_eq. intros x. rewrite elem_of_difference, elem_of_union,
      elem_of_singleton. split.
    - intros [[->|Hx] Hn]; [contradiction Hn; reflexivity | exact Hx].
    - intros Hx. split; [right; exact Hx|]. intros ->. contradiction. }
  erewrite Unsubscribe_Done.
  2:{ cbn [sse.clients]. apply lookup_insert_eq. }
  2:{ cbn [sse.heap]. apply lookup_insert_eq. }
  2:{ reflexivity. }
  eexists. split; [reflexivity|]. cbn [sse.clients sse.heap sse.Events].
  fold key0. rewrite Hdiff.
  assert (Hclients :
            (if decide (size old = 0%nat)
             then delete key0 (<[key0 := {[ h ]} ∪ old]> (sse.clients b))
             else <[key0 := old]> (<[key0 := {[ h ]} ∪ old]> (sse.clients b)))
            = sse.clients b).
  { destruct Hok as [Hsub _].
    assert (Eold : old = default ∅ (sse.clients b !! key0)) by reflexivity.
    clearbody old.
    destruct (sse.clients b !! key0) as [s|] eqn:E; simpl in Eold; subst old.
    - destruct (Hsub key0 s E) as (Hnz & _).
      destruct (decide (size s = 0%nat)) as [Hz|Hz].
      + apply size_empty_inv, leibniz_equiv in Hz. contradiction.
      + rewrite insert_insert_eq. apply insert_id. exact E.
    - destruct (decide (size (∅ : gset nat) = 0%nat)) as [Hz|Hz].
      + apply delete_insert_id. exact E.
      + exfalso. apply Hz. apply size_empty. }
  rewrite Hclients. split; [reflexivity|].
  split; [rewrite lookup_insert_eq; reflexivity|].
  unfold sse.Unsubscribe. cbn [sse.clients sse.heap]. fold key0.
  destruct (sse.clients b !! key0) as [s|]; [|reflexivity].
  rewrite lookup_insert_eq. reflexivity.
Qed.

Lemma subscribe_then_unsubscribe_witness :
  exists b2,
    sse.Unsubscribe (sse.Subscribe "evaluation" "eval-1" sse.NewBroker).1
      "evaluation" "eval-1"
      (sse.Subscribe "evaluation" "eval-1" sse.NewBroker).2 = Done b2
    /\ sse.clients b2 = ∅.
Proof.
  destruct (subscribe_then_unsubscribe sse.NewBroker "evaluation" "eval-1"
              broker_ok_NewBroker) as (b2 & Hun & Hc & _).
  exists b2. split; [exact Hun | exact Hc].
Defined.

(** ** The response writer *)

Lemma sum_Z_app (a b : list Z) : sum_Z (a ++ b) = sum_Z a + sum_Z b.
Proof.
  unfold sum_Z. induction a as [|x a IH]; cbn [app fold_right];
    [lia | rewrite IH; lia].
Qed.

Lemma int64_add_wrap (a n : Z) :
  int64_add (int64_add a 0) n = int64_add (a + n) 0.
Proof.
  unfold int64_add.
  replace (a + 0 + 2 ^ 63) with (a + 2 ^ 63) by lia.
  set (m := (a + 2 ^ 63) mod 2 ^ 64).
  replace (m - 2 ^ 63 + n + 2 ^ 63) with (m + n) by lia.
  subst m. rewrite Zplus_mod_idemp_l. f_equal. f_equal. lia.
Qed.

Lemma int64_add_fits (a : Z) :
  - 2 ^ 63 <= a < 2 ^ 63 -> int64_add a 0 = a.
Proof.
  intros Ha. unfold int64_add.
  rewrite Z.mod_small by lia. lia.
Qed.

Lemma run_ops_snoc (ops : list writer_op) (op : writer_op) :
  run_ops (ops ++ [op]) = apply_op (run_ops ops) op.
Proof. unfold run_ops. rewrite fold_left_app. reflexivity. Qed.

(** X15.  Whatever a handler does with the writer, the status kept for the
    log is the one that went out: the code of the first [WriteHeader], or
    200 when a [Write] came first or nothing was written; the wrapped writer
    gets at most one [WriteHeader], with that status and before any [Write];
    and [size] is the sum of the counts returned, wrapped to the 64 bits of
    an [int]: the sum itself when that fits. *)
Theorem responseWriter_logs_what_was_sent (ops : list writer_op) :
  let rw := run_ops ops in
  middleware.status rw = first_status ops
  /\ middleware.size rw = int64_add (sum_Z (map written ops)) 0
  /\ (- 2 ^ 63 <= sum_Z (map written ops) < 2 ^ 63 ->
      middleware.size rw = sum_Z (map written ops))
  /\ middleware.wroteHeader rw = match ops with [] => false | _ => true end
  /\ header_calls (middleware.ResponseWriter rw)
     = (if middleware.wroteHeader rw then [middleware.status rw] else [])
  /\ (ops <> [] ->
      last (middleware.ResponseWriter rw)
      = Some (middleware.CallWriteHeader (first_status ops))).
Proof.
  cbv zeta.
  assert (Hsize : forall ops,
            middleware.size (run_ops ops)
            = int64_add (sum_Z (map written ops)) 0).
  { clear. induction ops as [|op ops IH] using rev_ind; [reflexivity|].
    rewrite run_ops_snoc, map_app, sum_Z_app.
    replace (sum_Z (map written [op])) with (written op) by (cbn; lia).
    destruct op as [code|b n]; cbn [apply_op written].
    - rewrite Z.add_0_r, <- IH. unfold middleware.WriteHeader.
      destruct (middleware.wroteHeader (run_ops ops)); reflexivity.
    - rewrite <- int64_add_wrap, <- IH.
      unfold middleware.Write, middleware.WriteHeader.
      destruct (middleware.wroteHeader (run_ops ops)); reflexivity. }
  split; [|split; [apply Hsize|split;
    [intros Hfit; rewrite Hsize; apply int64_add_fits; exact Hfit|]]].
  - induction ops as [|op ops IH] using rev_ind; [reflexivity|].
    rewrite run_ops_snoc.
    destruct ops as [|o ops'].
    + destruct op; reflexivity.
    + change (first_status ((o :: ops') ++ [op]))
        with (first_status (o :: ops')).
      rewrite <- IH.
      assert (Hw : middleware.wroteHeader (run_ops (o :: ops')) = true).
      { clear. induction ops' as [|op ops IH] using rev_ind.
        - destruct o; reflexivity.
        - rewrite app_comm_cons, run_ops_snoc.
          destruct op; unfold apply_op, middleware.Write,
            middleware.WriteHeader; rewrite IH;
            cbn [negb middleware.wroteHeader]; exact IH. }
      destruct op; unfold apply_op, middleware.Write,
        middleware.WriteHeader; rewrite Hw; reflexivity.
  - induction ops as [|op ops IH] using rev_ind.
    + cbn. repeat split. congruence.
    + rewrite run_ops_snoc. destruct IH as (Hw & Hh & Hl).
      assert (Hne : match (ops ++ [op])%list with [] => false | _ => true end
                    = true).
      { destruct ops; reflexivity. }
      assert (Hfirst : ops <> [] ->
                first_status (ops ++ [op]) = first_status ops).
      { destruct ops as [|o ops']; [congruence|]. reflexivity. }
      rewrite Hne.
      destruct ops as [|o ops'].
      * destruct op as [code|b n]; cbn; repeat split.
      * assert (Hw' : middleware.wroteHeader (run_ops (o :: ops')) = true).
        { rewrite Hw. reflexivity. }
        rewrite Hfirst by discriminate. specialize (Hl ltac:(discriminate)).
        rewrite Hw' in Hh.
        destruct op as [code|b n];
          unfold apply_op, middleware.Write, middleware.WriteHeader;
          rewrite Hw'; cbn [negb middleware.status middleware.size
                            middleware.wroteHeader middleware.ResponseWriter
                            written].
        -- split; [exact Hw'|]. split; [rewrite Hw'; exact Hh|].
           intros _. exact Hl.
        -- split; [exact Hw'|]. split.
           ++ rewrite Hw'. exact Hh.
           ++ intros _.
              destruct (middleware.ResponseWriter (run_ops (o :: ops')))
                as [|c0 cs] eqn:Ecs; [discriminate|].
              exact Hl.
Qed.

(** X16.  [truncateString] returns [s] whole when it has at most [maxLen]
    bytes, and otherwise its first [maxLen] bytes followed by three dots:
    never more than [maxLen + 3] bytes. With a negative [maxLen] it panics
    on every [s]. *)
Theorem truncateString_bounds (s : string) (maxLen : Z) :
  (0 <= maxLen ->
   exists t,
     middleware.truncateString s maxLen = Done t
     /\ (Z.of_nat (String.length s) <= maxLen -> t = s)
     /\ (maxLen < Z.of_nat (String.length s) ->
         Z.of_nat (String.length t) = maxLen + 3
         /\ exists rest, s = String.substring 0 (Z.to_nat maxLen) s ++ rest
                         /\ t = String.substring 0 (Z.to_nat maxLen) s
                                  ++ "..."))
  /\ (maxLen < 0 ->
      middleware.truncateString s maxLen
      = Panic (middleware.slice_panic maxLen)).
Proof.
  assert (Hsub : forall n s, (n <= String.length s)%nat ->
            String.length (String.substring 0 n s) = n
            /\ exists rest, s = String.substring 0 n s ++ rest).
  { clear. induction n as [|n IH]; intros s Hn.
    - destruct s; simpl; (split; [reflexivity | eexists; reflexivity]).
    - destruct s as [|c s]; simpl in Hn; [lia|].
      destruct (IH s ltac:(lia)) as (Hl & rest & Hr).
      cbn [String.substring String.length]. split; [rewrite Hl; reflexivity|].
      exists rest. rewrite string_app_cons, <- Hr. reflexivity. }
  unfold middleware.truncateString. split.
  - intros Hm. destruct (Z.leb_spec (Z.of_nat (String.length s)) maxLen).
    + exists s. split; [reflexivity|].
      split; [intros _; reflexivity | intros; lia].
    + destruct (Z.ltb_spec maxLen 0); [lia|].
      eexists. split; [reflexivity|]. split; [intros; lia|]. intros _.
      destruct (Hsub (Z.to_nat maxLen) s ltac:(lia)) as (Hl & rest & Hr).
      split.
      * rewrite string_app_length, Hl. simpl. lia.
      * exists rest. split; [exact Hr | reflexivity].
  - intros Hm. destruct (Z.leb_spec (Z.of_nat (String.length s)) maxLen);
      [lia|].
    destruct (Z.ltb_spec maxLen 0); [reflexivity | lia].
Qed.

(** ** What the protocol and the worker leave as it is *)

Section Keeps.
Context {F : Type} `{Float64Ops F} (env : Env F).
Context (R : World F -> World F -> Prop) (HR : Frame R).

Lemma keeps_ret {A} (a : A) : keeps R (ret a).
Proof. intros w. apply (frame_refl R HR). Qed.

Lemma keeps_fail {A} (e : error) : keeps R (fail (A := A) e).
Proof. intros w. apply (frame_refl R HR). Qed.

Lemma keeps_get : keeps R get.
Proof. intros w. apply (frame_refl R HR). Qed.

Lemma keeps_bind {A B} (m : M F A) (k : A -> M F B) :
  keeps R m -> (forall a, keeps R (k a)) -> keeps R (bind m k).
Proof.
  intros Hm Hk w. unfold bind. specialize (Hm w).
  destruct (m w) as [[a|e] w1]; simpl in *; [|exact Hm].
  eapply (frame_trans R HR); [exact Hm | apply Hk].
Qed.

Lemma keeps_catch {A} (m : M F A) : keeps R m -> keeps R (catch m).
Proof.
  intros Hm w. unfold catch. specialize (Hm w).
  destruct (m w) as [r w1]. exact Hm.
Qed.

Lemma keeps_ignore {A} (m : M F A) : keeps R m -> keeps R (ignore m).
Proof.
  intros Hm w. unfold ignore. specialize (Hm w).
  destruct (m w) as [r w1]. exact Hm.
Qed.

Lemma keeps_on_error {A} (wrap : error -> error) (m : M F A) :
  keeps R m -> keeps R (on_error wrap m).
Proof.
  intros Hm w. unfold on_error. specialize (Hm w).
  destruct (m w) as [[a|e] w1]; exact Hm.
Qed.

Lemma keeps_modify (f : World F -> World F) :
  (forall w, R w (f w)) -> keeps R (modify f).
Proof. intros Hf w. apply Hf. Qed.

Lemma keeps_storage {A} (q : Z -> DB F -> result A * DB F) :
  (forall w, R w (set_db (q (clock w) (db w)).2 w)) ->
  keeps R (storage env q).
Proof.
  intros Hq w. unfold storage.
  pose proof (frame_db_calls R HR w (S (db_calls w))) as Hc.
  destruct (db_fault env (db_calls w)); [exact Hc|].
  specialize (Hq (set_db_calls (S (db_calls w)) w)).
  cbn [clock db set_db_calls] in Hq.
  destruct (q (clock w) (db w)) as [r d]. cbn [snd] in *.
  eapply (frame_trans R HR); eassumption.
Qed.

Lemma keeps_exec (upd : Z -> DB F -> DB F) :
  (forall w, R w (set_db (upd (clock w) (db w)) w)) ->
  keeps R (exec env upd).
Proof. intros Hu. apply keeps_storage. exact Hu. Qed.

Lemma keeps_generateContent (msgs : list Message) :
  (forall w l, R w (set_gen_calls l w)) ->
  keeps R (generateContent env msgs).
Proof.
  intros Hg w. unfold generateContent.
  destruct (GenerateContentWithMessages env _ msgs); apply Hg.
Qed.

Lemma keeps_embedContent (text : string) : keeps R (embedContent env text).
Proof. intros w. apply (frame_emb_calls R HR). Qed.

Lemma keeps_randFloat64 : keeps R (randFloat64 env).
Proof. intros w. apply (frame_rand_calls R HR). Qed.

Lemma keeps_progress (evalID title : string) (step total : Z) :
  keeps R (SendEvaluationProgress evalID title step total).
Proof. intros w. apply (frame_sse_events R HR). Qed.

Lemma keeps_complete (evalID diagnostico : string) (d : F) :
  keeps R (SendEvaluationComplete evalID diagnostico d).
Proof. intros w. apply (frame_sse_events R HR). Qed.

Lemma keeps_mailerSend (to subject body : string) :
  (forall w l, R w (set_mails l w)) ->
  keeps R (mailerSend env to subject body).
Proof.
  intros Hm w. unfold mailerSend. destruct (mailer_Send env _); apply Hm.
Qed.

End Keeps.

(** Walks a computation down to its calls; [side] closes what a call
    must be shown to leave. *)
Ltac keeps_walk HR side :=
  repeat first
    [ apply (keeps_ret _ HR)
    | apply (keeps_fail _ HR)
    | apply (keeps_get _ HR)
    | apply (keeps_embedContent _ _ HR)
    | apply (keeps_randFloat64 _ _ HR)
    | apply (keeps_progress _ HR)
    | apply (keeps_complete _ HR)
    | assumption
    | match goal with
      | L : forall a b, keeps _ (RunEvaluationProtocol _ a b) |- _ => apply L
      | L : forall a, keeps _ (dispatch _ a) |- _ => apply L
      | L : forall a, keeps _ (processJobWithMetrics _ a) |- _ => apply L
      end
    | apply keeps_catch
    | apply keeps_ignore
    | apply keeps_on_error
    | apply (keeps_bind _ HR); [|intros ?]
    | apply (keeps_exec _ _ HR); side
    | apply (keeps_storage _ _ HR); side
    | apply keeps_generateContent; side
    | apply keeps_mailerSend; side
    | apply keeps_modify; side
    | match goal with
      | IH : forall a b c d, keeps _ (callWithRetry_loop _ _ a b c d) |- _ =>
          apply IH
      | L : forall a b c, keeps _ (callWithRetry _ a b c) |- _ => apply L
      end
    | match goal with
      | |- keeps _ (match ?x with _ => _ end) => destruct x
      | |- keeps _ (if ?b then _ else _) => destruct b
      | |- keeps _ (let '(_, _) := ?x in _) => destruct x
      end ].

Ltac open_storage :=
  unfold saveIteration, saveCheckpointWithEmbeddings, clearCheckpointRetry,
    updateCheckpointRetry, saveCheckpoint, loadCheckpoint, CreateIteration,
    UpdateCheckpointPhase, UpdateCheckpointMessages,
    UpdateCheckpointEmbeddings, UpdateCheckpointDivergence, CreateAudit,
    UpdateEvaluationStatus, ClearCheckpointRetry, UpdateCheckpointRetry,
    CreateCheckpoint, GetCheckpoint.

Section KeepsProtocol.
Context {F : Type} `{Float64Ops F} (env : Env F).
Context (R : World F -> World F -> Prop) (HR : Frame R).

(** What the protocol writes: the model is asked, the checkpoint and the
    iterations and audits are written, the status of the evaluation is
    set to one of [retrying], [completed]. *)
Hypothesis R_gen : forall w l, R w (set_gen_calls l w).
Hypothesis R_checkpoint :
  forall w f evalID, R w (set_db (on_checkpoint evalID f (db w)) w).
Hypothesis R_checkpoints :
  forall w c, R w (set_db (set_evaluation_checkpoints c (db w)) w).
Hypothesis R_iterations :
  forall w l, R w (set_db (set_iterations l (db w)) w).
Hypothesis R_audits : forall w l, R w (set_db (set_audits l (db w)) w).
Hypothesis R_same_db : forall w, R w (set_db (db w) w).
Hypothesis R_status :
  forall w evalID status,
    status <> "processing" ->
    R w (set_db (on_evaluation evalID (set_status status) (db w)) w).

Ltac protocol_side :=
  first
    [ intros; apply R_gen
    | intros; apply R_checkpoint
    | intros; apply R_checkpoints
    | intros; apply R_iterations
    | intros; apply R_audits
    | intros; apply R_status; discriminate
    | intros;
      match goal with
      | |- R ?w (set_db (match ?x with _ => _ end).2 ?w) =>
          destruct x; apply R_same_db
      end ].

Lemma keeps_callWithRetry_loop (remaining : nat) :
  forall attempt lastErr evalID msgs,
    keeps R (callWithRetry_loop env remaining attempt lastErr evalID msgs).
Proof.
  induction remaining as [|n IH]; intros attempt lastErr evalID msgs;
    cbn [callWithRetry_loop].
  - apply (keeps_fail _ HR).
  - open_storage. keeps_walk HR protocol_side.
Qed.

Lemma keeps_callWithRetry (evalID phase : string) msgs :
  keeps R (callWithRetry env evalID phase msgs).
Proof. apply keeps_callWithRetry_loop. Qed.

Lemma keeps_RunEvaluationProtocol (evalID prompt : string) :
  keeps R (RunEvaluationProtocol env evalID prompt).
Proof.
  pose proof keeps_callWithRetry as Hcall.
  unfold RunEvaluationProtocol, RunEvaluationProtocolWithCheckpoint.
  open_storage.
  apply (keeps_bind _ HR); [keeps_walk HR protocol_side|]. intros checkpoint.
  apply (keeps_bind _ HR); [keeps_walk HR protocol_side|]. intros w0.
  apply (keeps_bind _ HR); [keeps_walk HR protocol_side|].
  intros [[[mensagens currentPhase] emb1] emb3].
  unfold case_inicial, case_inversao, case_confronto, case_calculo,
    case_purga, runPhaseInicial, runPhaseInversao, runPhaseConfronto,
    runPhaseCalculo, runPhasePurga.
  open_storage. keeps_walk HR protocol_side.
Qed.

End KeepsProtocol.

Section Frames.
Context {F : Type} `{Float64Ops F}.

Lemma Frame_keeps_none_processing : Frame (keeps_none_processing (F := F)).
Proof.
  split; unfold keeps_none_processing; intros; auto.
Qed.

Lemma Frame_same_queue : Frame (same_queue (F := F)).
Proof.
  split; unfold same_queue; intros; try (repeat split; reflexivity).
  repeat match goal with H : _ /\ _ |- _ => destruct H end.
  repeat split; congruence.
Qed.

Lemma Frame_same_slots : Frame (same_slots (F := F)).
Proof.
  split; unfold same_slots; intros; try (repeat split; reflexivity).
  repeat match goal with H : _ /\ _ |- _ => destruct H end.
  repeat split; congruence.
Qed.

Lemma Frame_same_requests : Frame (same_requests (F := F)).
Proof.
  split; unfold same_requests; intros; try reflexivity. congruence.
Qed.

Lemma none_processing_set_status (d : DB F) (evalID status : string) :
  status <> "processing" ->
  none_processing d ->
  none_processing (on_evaluation evalID (set_status status) d).
Proof.
  intros Hs Hn id evaluation Hl. unfold on_evaluation in Hl.
  cbn [evaluations set_evaluations] in Hl.
  destruct (decide (id = evalID)) as [->|Hne].
  - rewrite lookup_alter_eq in Hl.
    destruct (evaluations d !! evalID) as [e0|]; [|discriminate].
    injection Hl as <-. exact Hs.
  - rewrite lookup_alter_ne in Hl by congruence. exact (Hn id evaluation Hl).
Qed.

Lemma none_processing_rows (d : DB F) (now : Z) :
  none_processing d -> GetEvaluationsToRetry_rows now d = [].
Proof.
  intros Hn. unfold GetEvaluationsToRetry_rows.
  assert (Hall : forall rows : list (string * Evaluation),
            (forall row, row ∈ rows -> eval_status row.2 <> "processing") ->
            filter
              (fun row : string * Evaluation =>
                 String.eqb (eval_status row.2) "processing"
                 && match evaluation_checkpoints d !! row.1 with
                    | Some cp =>
                        match next_retry_at cp with
                        | Some t => (t <=? now)%Z
                        | None => false
                        end
                    | None => false
                    end = true) rows = []).
  { induction rows as [|row rows IH]; intros Hrows; [reflexivity|].
    rewrite filter_cons.
    destruct (decide _) as [Hyes|_].
    - exfalso. apply andb_true_iff in Hyes. destruct Hyes as [Hyes _].
      apply String.eqb_eq in Hyes.
      exact (Hrows row ltac:(left) Hyes).
    - apply IH. intros r Hr. apply Hrows. right. exact Hr. }
  rewrite Hall; [reflexivity|].
  intros [id e] Hin. apply elem_of_map_to_list in Hin. exact (Hn id e Hin).
Qed.

End Frames.

(** X17.  The protocol works on the checkpoint, the iterations, the audits
    and the status of the evaluation only: whatever the model and the store
    do, a run leaves the jobs, the idempotency ledger, the mails and the
    semaphores as they are. *)
Theorem protocol_leaves_the_queue_alone {F} `{Float64Ops F} (env : Env F)
  (evalID prompt : string) (w : World F) :
  let w' := (RunEvaluationProtocol env evalID prompt w).2 in
  jobs (db w') = jobs (db w)
  /\ processed_jobs (db w') = processed_jobs (db w)
  /\ mails w' = mails w
  /\ (geminiSemaphore w', emailSemaphore w', genericSemaphore w')
     = (geminiSemaphore w, emailSemaphore w, genericSemaphore w).
Proof.
  cbv zeta.
  assert (Hq : keeps same_queue (RunEvaluationProtocol env evalID prompt)).
  { apply (keeps_RunEvaluationProtocol env _ Frame_same_queue);
      intros; repeat split; reflexivity. }
  assert (Hs : keeps same_slots (RunEvaluationProtocol env evalID prompt)).
  { apply (keeps_RunEvaluationProtocol env _ Frame_same_slots);
      intros; repeat split; reflexivity. }
  destruct (Hq w) as (Hj & Hp & Hm & _). destruct (Hs w) as (Hg & He & Hx).
  repeat split; try assumption. rewrite Hg, He, Hx. reflexivity.
Qed.

Section KeepsWorker.
Context {F : Type} `{Float64Ops F} (env : Env F).
Context (R : World F -> World F -> Prop) (HR : Frame R).

Hypothesis R_gen : forall w l, R w (set_gen_calls l w).
Hypothesis R_checkpoint :
  forall w f evalID, R w (set_db (on_checkpoint evalID f (db w)) w).
Hypothesis R_checkpoints :
  forall w c, R w (set_db (set_evaluation_checkpoints c (db w)) w).
Hypothesis R_iterations :
  forall w l, R w (set_db (set_iterations l (db w)) w).
Hypothesis R_audits : forall w l, R w (set_db (set_audits l (db w)) w).
Hypothesis R_same_db : forall w, R w (set_db (db w) w).
Hypothesis R_status :
  forall w evalID status,
    status <> "processing" ->
    R w (set_db (on_evaluation evalID (set_status status) (db w)) w).
Hypothesis R_mails : forall w l, R w (set_mails l w).
Hypothesis R_handled : forall w l, R w (set_handled l w).
Hypothesis R_job : forall w id f, R w (set_db (on_job id f (db w)) w).
Hypothesis R_transaction :
  forall id,
    keeps R
      (ignore
         (tx <- BeginTx env ;;
          tx <- qtx_RecordJobProcessed env id tx ;;
          tx <- qtx_CompleteJob env id tx ;;
          Commit env tx)).

Ltac worker_side :=
  first
    [ intros; apply R_gen
    | intros; apply R_mails
    | intros; apply R_handled
    | intros; apply R_job
    | intros; apply R_same_db
    | intros; apply R_status; discriminate
    | intros;
      match goal with
      | |- R ?w (set_db (match ?x with _ => _ end).2 ?w) =>
          destruct x; apply R_same_db
      | |- R ?w (set_db (_, ?d).2 ?w) => apply R_same_db
      end ].

Lemma keeps_dispatch (job : Job) : keeps R (dispatch env job).
Proof.
  pose proof (keeps_RunEvaluationProtocol env R HR R_gen R_checkpoint
                R_checkpoints R_iterations R_audits R_same_db R_status)
    as Hrun.
  unfold dispatch, invoke, handleRunEvaluation, handleSendEmail,
    handleSendPasswordResetEmail, handleSendVerificationEmail,
    handleProcessAI, handleProcessWebhook, json_Unmarshal,
    NewEvaluationService, UpdateEvaluationStatus.
  keeps_walk HR worker_side.
Qed.

Lemma keeps_dispatch_processNext (job : Job) :
  keeps R (dispatch_processNext env job).
Proof.
  pose proof (keeps_RunEvaluationProtocol env R HR R_gen R_checkpoint
                R_checkpoints R_iterations R_audits R_same_db R_status)
    as Hrun.
  unfold dispatch_processNext, invoke, handleRunEvaluation, handleSendEmail,
    handleSendPasswordResetEmail, handleSendVerificationEmail,
    handleProcessAI, handleProcessWebhook, json_Unmarshal,
    NewEvaluationService, UpdateEvaluationStatus.
  keeps_walk HR worker_side.
Qed.

Lemma keeps_processJobWithMetrics (job : Job) :
  keeps R (processJobWithMetrics env job).
Proof.
  pose proof keeps_dispatch as Hd. pose proof R_transaction as Htx.
  unfold processJobWithMetrics, moveToDeadLetterQueue, FailJob.
  apply (keeps_bind _ HR); [apply Hd|]. intros [err|].
  - keeps_walk HR worker_side.
  - apply Htx.
Qed.

Lemma keeps_processNext (pick : option Job) : keeps R (processNext env pick).
Proof.
  pose proof keeps_dispatch_processNext as Hd.
  pose proof R_transaction as Htx.
  unfold processNext, PickNextJob, IsJobProcessed, CompleteJob, FailJob.
  apply (keeps_bind _ HR); [keeps_walk HR worker_side|]. intros [job|e];
    [|apply (keeps_ret _ HR)].
  apply (keeps_bind _ HR); [keeps_walk HR worker_side|]. intros processed.
  assert (Hrest : keeps R
            (errProcessing <- dispatch_processNext env job ;;
             match errProcessing with
             | Some err =>
                 ignore (exec env (fun _ : Z =>
                           on_job (job_id job) (fail_job (Some (Error err)))))
             | None =>
                 ignore
                   (tx <- BeginTx env ;;
                    tx <- qtx_RecordJobProcessed env (job_id job) tx ;;
                    tx <- qtx_CompleteJob env (job_id job) tx ;;
                    Commit env tx)
             end)).
  { apply (keeps_bind _ HR); [apply Hd|]. intros [err|];
      [keeps_walk HR worker_side | apply Htx]. }
  destruct processed as [[| [| |] |]|]; try exact Hrest.
  keeps_walk HR worker_side.
Qed.

Lemma keeps_requeue (evaluations : list (string * Evaluation)) :
  (forall w j, R w (set_db (set_jobs j (db w)) w)) ->
  keeps R (requeue env evaluations).
Proof.
  intros R_jobs.
  induction evaluations as [|eval rest IH]; cbn [requeue].
  - apply (keeps_ret _ HR).
  - unfold CreateJob.
    apply (keeps_bind _ HR); [|intros _; exact IH].
    apply keeps_ignore, (keeps_storage _ _ HR). intros w. apply R_jobs.
Qed.

End KeepsWorker.

Section WorkerTotal.
Context {F : Type} `{Float64Ops F} (env : Env F).

(** [processJobWithMetrics] has no error to return. *)
Lemma processJobWithMetrics_returns (job : Job) (w : World F) :
  (processJobWithMetrics env job w).1 = Ok tt.
Proof.
  unfold processJobWithMetrics, dispatch. unfold bind at 1.
  unfold bind at 1. unfold catch.
  match goal with
  | |- context [let '(r, w') := ?m w in _] => destruct (m w) as [[[]|e] w1]
  end; cbn [ret].
  - unfold ignore.
    match goal with
    | |- context [let '(_, w') := ?m w1 in _] => destruct (m w1)
    end. reflexivity.
  - unfold bind, get, moveToDeadLetterQueue, ignore.
    destruct (shouldMoveToDeadLetterQueue (clock w1) job);
      match goal with
      | |- context [let '(_, w') := ?m w1 in _] => destruct (m w1)
      end; reflexivity.
Qed.

End WorkerTotal.

Section WorkerInvariants.
Context {F : Type} `{Float64Ops F} (env : Env F).

Lemma transaction_evaluations (id : Z) (w : World F) :
  let tx := ignore
              (tx <- BeginTx env ;;
               tx <- qtx_RecordJobProcessed env id tx ;;
               tx <- qtx_CompleteJob env id tx ;;
               Commit env tx) in
  evaluations (db (tx w).2) = evaluations (db w)
  /\ evaluation_checkpoints (db (tx w).2) = evaluation_checkpoints (db w).
Proof.
  cbv zeta.
  unfold ignore, bind, BeginTx, qtx_RecordJobProcessed, qtx_CompleteJob,
    tx_exec, Commit, storage.
  destruct (db_fault env (db_calls w)); simpl; [split; reflexivity|].
  destruct (db_fault env (S (db_calls w))); simpl; [split; reflexivity|].
  destruct (db_fault env (S (S (db_calls w)))); simpl; [split; reflexivity|].
  destruct (db_fault env (S (S (S (db_calls w))))); simpl; split; reflexivity.
Qed.

Ltac status_side :=
  first
    [ intros ? ? ? ? Hnp; apply none_processing_set_status; assumption
    | intros; intros Hnp; exact Hnp
    | intros ? ? ? Hnp; exact Hnp
    | intros ? ? Hnp; exact Hnp
    | intros ? Hnp; exact Hnp ].

Lemma keeps_none_processing_transaction (id : Z) :
  keeps keeps_none_processing
    (ignore
       (tx <- BeginTx env ;;
        tx <- qtx_RecordJobProcessed env id tx ;;
        tx <- qtx_CompleteJob env id tx ;;
        Commit env tx)).
Proof.
  intros w Hn i e Hl.
  rewrite (proj1 (transaction_evaluations id w)) in Hl. exact (Hn i e Hl).
Qed.

Lemma keeps_none_processing_processJobWithMetrics (job : Job) :
  keeps keeps_none_processing (processJobWithMetrics env job).
Proof.
  apply (keeps_processJobWithMetrics env _ Frame_keeps_none_processing);
    try (unfold keeps_none_processing; status_side).
  apply keeps_none_processing_transaction.
Qed.

Lemma keeps_none_processing_processNext (pick : option Job) :
  keeps keeps_none_processing (processNext env pick).
Proof.
  apply (keeps_processNext env _ Frame_keeps_none_processing);
    try (unfold keeps_none_processing; status_side).
  apply keeps_none_processing_transaction.
Qed.

Lemma keeps_none_processing_processNextWithRateLimit (pick : option Job) :
  keeps keeps_none_processing (processNextWithRateLimit env pick).
Proof.
  pose proof keeps_none_processing_processJobWithMetrics as Hjob.
  unfold processNextWithRateLimit, PickNextJob, IsJobProcessed, CompleteJob.
  keeps_walk (Frame_keeps_none_processing (F := F))
    ltac:(first [ intros w0 Hnp;
                  match goal with
                  | |- context [set_slots ?s _ _] => destruct s; exact Hnp
                  end
                | intros w0 Hnp; exact Hnp
                | intros w0 Hnp;
                  match goal with
                  | |- context [match ?x with _ => _ end] =>
                      destruct x; exact Hnp
                  end ]).
Qed.

Lemma keeps_none_processing_processEvaluationRetries :
  keeps keeps_none_processing (processEvaluationRetries env).
Proof.
  unfold processEvaluationRetries, NewEvaluationService,
    GetEvaluationsToRetry.
  pose proof (fun evs =>
                keeps_requeue env _ Frame_keeps_none_processing evs
                  (fun w j Hnp => Hnp)) as Hre.
  keeps_walk (Frame_keeps_none_processing (F := F))
    ltac:(intros w0 Hnp; exact Hnp).
  all: apply Hre.
Qed.

Lemma keeps_none_processing_StartEvaluation (uuid tenantID : string)
  (userID : Z) (prompt : string) :
  keeps keeps_none_processing
    (StartEvaluation env uuid tenantID userID prompt).
Proof.
  unfold StartEvaluation, CreateEvaluation, CreateJob.
  keeps_walk (Frame_keeps_none_processing (F := F))
    ltac:(first
            [ intros w0 Hnp; exact Hnp
            | intros w0 Hnp; cbn [db set_db];
              destruct (evaluations (db w0) !! uuid) eqn:E;
              [exact Hnp|];
              intros id e Hl; cbn [snd evaluations set_evaluations] in Hl;
              destruct (decide (id = uuid)) as [->|Hne];
              [ rewrite lookup_insert_eq in Hl; injection Hl as <-;
                discriminate
              | rewrite lookup_insert_ne in Hl by congruence;
                exact (Hnp id e Hl) ] ]).
Qed.

End WorkerInvariants.

(** X18.  No statement of the worker, of the protocol or of
    [StartEvaluation] puts an evaluation in status [processing]: when no
    evaluation is in that status, none is after a job has been processed,
    after the retry scan or after an evaluation has been started, whatever
    the model and the store do. [GetEvaluationsToRetry], which selects that
    status only, then returns no row, so that the retry scan creates no job. *)
Theorem no_evaluation_becomes_processing {F} `{Float64Ops F} (env : Env F)
  (w : World F) :
  none_processing (db w) ->
  (forall pick,
     none_processing (db (processNextWithRateLimit env pick w).2)
     /\ none_processing (db (processNext env pick w).2))
  /\ (forall uuid tenantID userID prompt,
        none_processing
          (db (StartEvaluation env uuid tenantID userID prompt w).2))
  /\ none_processing (db (processEvaluationRetries env w).2)
  /\ (forall now, GetEvaluationsToRetry_rows now (db w) = [])
  /\ jobs (db (processEvaluationRetries env w).2) = jobs (db w).
Proof.
  intros Hn. split; [|split; [|split; [|split]]].
  - intros pick. split.
    + apply (keeps_none_processing_processNextWithRateLimit env pick w Hn).
    + apply (keeps_none_processing_processNext env pick w Hn).
  - intros uuid tenantID userID prompt.
    apply (keeps_none_processing_StartEvaluation env uuid tenantID userID
             prompt w Hn).
  - apply (keeps_none_processing_processEvaluationRetries env w Hn).
  - intros now. apply none_processing_rows. exact Hn.
  - pose proof (none_processing_rows (db w) (clock w) Hn) as Hrows.
    unfold GetEvaluationsToRetry_rows in Hrows.
    apply map_eq_nil in Hrows. fold (to_retry (clock w) (db w)) in Hrows.
    unfold processEvaluationRetries, NewEvaluationService,
      GetEvaluationsToRetry, bind, catch, ret, fail, storage.
    destruct (NewGeminiClient env); [reflexivity|].
    cbn [db_calls set_db_calls].
    destruct (db_fault env (db_calls w)); [reflexivity|].
    rewrite Hrows. reflexivity.
Qed.

Section Admission.
Context {F : Type} `{Float64Ops F} (env : Env F).

Lemma keeps_same_slots_processJobWithMetrics (job : Job) :
  keeps same_slots (processJobWithMetrics env job).
Proof.
  apply (keeps_processJobWithMetrics env _ Frame_same_slots);
    try (intros; repeat split; reflexivity).
  intros id.
  unfold BeginTx, qtx_RecordJobProcessed, qtx_CompleteJob, tx_exec, Commit.
  keeps_walk (Frame_same_slots (F := F)) ltac:(intros; repeat split; reflexivity).
Qed.

Lemma set_slots_slots (s : semaphore) (n : nat) (w : World F) :
  slots s (set_slots s n w) = n.
Proof. destruct s; reflexivity. Qed.

Lemma set_slots_restore (s : semaphore) (w w2 : World F) :
  same_slots (set_slots s (S (slots s w)) w) w2 ->
  same_slots w (set_slots s (Nat.pred (slots s w2)) w2).
Proof.
  unfold same_slots. intros (Hg & He & Hx).
  destruct s; cbn in *; rewrite ?Hg, ?He, ?Hx; repeat split; reflexivity.
Qed.

End Admission.

(** X19.  Admission by the semaphores. Whatever the job, the model and the
    store do, [processNextWithRateLimit] leaves each semaphore with as many
    slots taken as before: the slot acquired is released. And when the
    semaphore of a picked job's type is full, nothing is done for the job:
    no handler is entered, no mail is sent, no request goes to the model,
    and no statement follows the pick and the lookup in the ledger, so that
    the tables stay as these two left them (in the model, where the pick
    changes no row: as they were). *)
Theorem semaphore_admission {F} `{Float64Ops F} (env : Env F)
  (pick : option Job) (w : World F) :
  let w' := (processNextWithRateLimit env pick w).2 in
  (geminiSemaphore w', emailSemaphore w', genericSemaphore w')
  = (geminiSemaphore w, emailSemaphore w, genericSemaphore w)
  /\ forall job,
       pick = Some job ->
       job_id job ∉ processed_jobs (db w) ->
       (capacity (getSemaphoreForJob (job_type job))
        <= slots (getSemaphoreForJob (job_type job)) w)%nat ->
       db w' = db w /\ handled w' = handled w /\ mails w' = mails w
       /\ gen_calls w' = gen_calls w.
Proof.
  cbv zeta. split.
  - assert (Hs : same_slots w (processNextWithRateLimit env pick w).2).
    { unfold processNextWithRateLimit, PickNextJob, IsJobProcessed,
        CompleteJob.
      revert w.
      change (keeps same_slots
                (r <- catch (storage env
                               (fun _ d =>
                                  match pick with
                                  | Some j => (Ok j, d)
                                  | None => (Err (Sentinel sql_ErrNoRows), d)
                                  end)) ;;
                 match r with
                 | Err _ => ret tt
                 | Ok job =>
                     processed <-
                       catch (storage env
                                (fun _ d =>
                                   (Ok (if decide (job_id job
                                                   ∈ processed_jobs d)
                                        then 1 else 0)%Z, d))) ;;
                     match processed with
                     | Ok 1%Z =>
                         ignore (exec env (fun _ =>
                                   on_job (job_id job) complete_job))
                     | _ =>
                         let semaphore := getSemaphoreForJob (job_type job) in
                         w <- get ;;
                         if (slots semaphore w <? capacity semaphore)%nat
                         then
                           modify (fun w =>
                             set_slots semaphore (S (slots semaphore w)) w) ;;;
                           processJobWithMetrics env job ;;;
                           modify (fun w =>
                             set_slots semaphore
                               (Nat.pred (slots semaphore w)) w)
                         else ret tt
                     end
                 end)).
      apply (keeps_bind _ Frame_same_slots);
        [keeps_walk (Frame_same_slots (F := F))
           ltac:(intros; repeat split; reflexivity)|].
      intros [job|e]; [|apply (keeps_ret _ Frame_same_slots)].
      apply (keeps_bind _ Frame_same_slots);
        [keeps_walk (Frame_same_slots (F := F))
           ltac:(intros; repeat split; reflexivity)|].
      intros processed.
      assert (Hentry : keeps same_slots
                (let semaphore := getSemaphoreForJob (job_type job) in
                 w <- get ;;
                 if (slots semaphore w <? capacity semaphore)%nat
                 then
                   modify (fun w =>
                     set_slots semaphore (S (slots semaphore w)) w) ;;;
                   processJobWithMetrics env job ;;;
                   modify (fun w =>
                     set_slots semaphore (Nat.pred (slots semaphore w)) w)
                 else ret tt)).
      { cbv zeta. intros w0. unfold bind at 1. unfold get.
        destruct (slots _ w0 <? capacity _)%nat.
        - unfold bind, modify.
          pose proof (processJobWithMetrics_returns env job
                        (set_slots (getSemaphoreForJob (job_type job))
                           (S (slots (getSemaphoreForJob (job_type job)) w0))
                           w0)) as Hret.
          pose proof (keeps_same_slots_processJobWithMetrics env job
                        (set_slots (getSemaphoreForJob (job_type job))
                           (S (slots (getSemaphoreForJob (job_type job)) w0))
                           w0)) as Hkeep.
          destruct (processJobWithMetrics env job _) as [r w2].
          cbn [fst snd] in *. subst r. cbn [snd].
          apply set_slots_restore. exact Hkeep.
        - apply (frame_refl _ Frame_same_slots). }
      destruct processed as [[| [| |] |]|]; try exact Hentry.
      keeps_walk (Frame_same_slots (F := F))
        ltac:(intros; repeat split; reflexivity). }
    destruct Hs as (Hg & He & Hx). rewrite Hg, He, Hx. reflexivity.
  - intros job -> Hnew Hfull.
    assert (Hentry : forall w0 : World F,
              slots (getSemaphoreForJob (job_type job)) w0
              = slots (getSemaphoreForJob (job_type job)) w ->
              (let semaphore := getSemaphoreForJob (job_type job) in
               w <- get ;;
               if (slots semaphore w <? capacity semaphore)%nat
               then
                 modify (fun w =>
                   set_slots semaphore (S (slots semaphore w)) w) ;;;
                 processJobWithMetrics env job ;;;
                 modify (fun w =>
                   set_slots semaphore (Nat.pred (slots semaphore w)) w)
               else ret tt) w0 = (Ok tt, w0)).
    { intros w0 Hsame. cbv zeta. unfold bind at 1. unfold get.
      rewrite Hsame.
      replace (slots (getSemaphoreForJob (job_type job)) w
               <? capacity (getSemaphoreForJob (job_type job)))%nat
        with false by (symmetry; apply Nat.ltb_ge; exact Hfull).
      reflexivity. }
    assert (Hrun : exists w',
              processNextWithRateLimit env (Some job) w = (Ok tt, w')
              /\ db w' = db w /\ handled w' = handled w
              /\ mails w' = mails w /\ gen_calls w' = gen_calls w).
    { unfold processNextWithRateLimit, PickNextJob, IsJobProcessed.
      unfold bind at 1. unfold catch at 1.
      destruct (db_fault env (db_calls w)) as [msg|] eqn:E0.
      { rewrite (storage_fault env _ w msg E0). cbn. eexists.
        split; [reflexivity|]. repeat split. }
      rewrite (storage_ok env _ w E0). cbn [fst snd].
      unfold bind at 1. unfold catch at 1.
      set (w1 := set_db (db w) (set_db_calls (S (db_calls w)) w)).
      destruct (db_fault env (db_calls w1)) as [msg|] eqn:E1.
      { rewrite (storage_fault env _ w1 msg E1).
        rewrite Hentry by (destruct (getSemaphoreForJob (job_type job));
                           reflexivity).
        eexists. split; [reflexivity|]. repeat split. }
      rewrite (storage_ok env _ w1 E1). cbn [fst snd].
      change (db w1) with (db w).
      destruct (decide (job_id job ∈ processed_jobs (db w)));
        [contradiction|].
      rewrite Hentry by (destruct (getSemaphoreForJob (job_type job));
                         reflexivity).
      eexists. split; [reflexivity|]. repeat split. }
    destruct Hrun as (w' & -> & Hrest). exact Hrest.
Qed.

(** ** How many requests a run sends *)

Section Requests.
Context {F : Type} `{Float64Ops F} (env : Env F).

Lemma requests_keeps {A} (m : M F A) : keeps same_requests m -> requests 0 m.
Proof.
  intros Hm w. exists []. split; [exact (Hm w) | simpl; lia].
Qed.

Lemma requests_weaken {A} (a b : nat) (m : M F A) :
  (a <= b)%nat -> requests a m -> requests b m.
Proof.
  intros Hab Hm w. destruct (Hm w) as (new & Hnew & Hlen).
  exists new. split; [exact Hnew | lia].
Qed.

Lemma requests_bind {A B} (a b : nat) (m : M F A) (k : A -> M F B) :
  requests a m -> (forall x, requests b (k x)) -> requests (a + b) (bind m k).
Proof.
  intros Hm Hk w. unfold bind. destruct (Hm w) as (new & Hnew & Hlen).
  destruct (m w) as [[x|e] w1]; cbn [snd] in *.
  - destruct (Hk x w1) as (new2 & Hnew2 & Hlen2).
    exists (new2 ++ new)%list. rewrite Hnew2, Hnew, app_assoc.
    split; [reflexivity | rewrite length_app; lia].
  - exists new. split; [exact Hnew | lia].
Qed.

Lemma requests_on_error {A} (n : nat) (wrap : error -> error) (m : M F A) :
  requests n m -> requests n (on_error wrap m).
Proof.
  intros Hm w. unfold on_error. specialize (Hm w).
  destruct (m w) as [[a|e] w1]; exact Hm.
Qed.

Ltac no_request :=
  apply requests_keeps;
  open_storage;
  keeps_walk (Frame_same_requests (F := F)) ltac:(intros; reflexivity).

(** A model-call step sends the same transcript each time, at least once
    and at most as often as the loop has iterations. *)
Lemma callWithRetry_loop_requests (n : nat) :
  forall attempt lastErr evalID msgs (w : World F),
    exists k,
      gen_calls (callWithRetry_loop env n attempt lastErr evalID msgs w).2
      = (repeat msgs k ++ gen_calls w)%list
      /\ (k <= n)%nat /\ ((0 < n)%nat -> (1 <= k)%nat).
Proof.
  induction n as [|n IH]; intros attempt lastErr evalID msgs w;
    cbn [callWithRetry_loop].
  - exists 0%nat. cbn. split; [reflexivity | lia].
  - unfold bind at 1. unfold catch, generateContent.
    destruct (GenerateContentWithMessages env (length (gen_calls w)) msgs)
      as [text|err].
    + assert (Hz : requests 0
                (_ <- (if (0 <? attempt)%Z
                       then ignore (clearCheckpointRetry env evalID)
                       else ret tt) ;; ret text)) by no_request.
      destruct (Hz (set_gen_calls (msgs :: gen_calls w) w))
        as (new & Hnew & Hlen).
      destruct new; [|simpl in Hlen; lia].
      exists 1%nat. rewrite Hnew. cbn. split; [reflexivity | lia].
    + destruct (isRateLimitError err).
      * match goal with
        | |- context [gen_calls (?m ?w0).2] =>
            assert (Hz : requests 0 m) by no_request;
            destruct (Hz w0) as (new & Hnew & Hlen)
        end.
        destruct new; [|simpl in Hlen; lia].
        exists 1%nat. rewrite Hnew. cbn. split; [reflexivity | lia].
      * destruct (IH (attempt + 1)%Z (Some err) evalID msgs
                    (set_gen_calls (msgs :: gen_calls w) w))
          as (k & Hk & Hle & _).
        exists (S k). rewrite Hk. cbn [gen_calls set_gen_calls].
        rewrite repeat_snoc. cbn [repeat app].
        split; [reflexivity | lia].
Qed.

Lemma requests_callWithRetry (evalID phase : string) msgs :
  requests 10 (callWithRetry env evalID phase msgs).
Proof.
  intros w. unfold callWithRetry.
  destruct (callWithRetry_loop_requests MaxRetries 0 None evalID msgs w)
    as (k & Hk & Hle & _).
  exists (repeat msgs k). split; [exact Hk|].
  rewrite repeat_length. exact Hle.
Qed.

Ltac phase_requests :=
  apply (requests_bind 0 10); [no_request|]; intros _;
  apply (requests_bind 10 0);
    [apply requests_on_error, requests_callWithRetry|];
  intros ?; no_request.

Lemma requests_runPhaseInicial (evalID prompt : string) msgs :
  requests 10 (runPhaseInicial env evalID prompt msgs).
Proof. unfold runPhaseInicial. phase_requests. Qed.

Lemma requests_runPhaseInversao (evalID : string) msgs :
  requests 10 (runPhaseInversao env evalID msgs).
Proof. unfold runPhaseInversao. phase_requests. Qed.

Lemma requests_runPhaseConfronto (evalID : string) msgs :
  requests 10 (runPhaseConfronto env evalID msgs).
Proof. unfold runPhaseConfronto. phase_requests. Qed.

Lemma requests_runPhaseCalculo (evalID : string) emb1 emb3 :
  requests 0 (runPhaseCalculo env evalID emb1 emb3).
Proof. unfold runPhaseCalculo. no_request. Qed.

Lemma requests_runPhasePurga (evalID : string) d diag msgs emb1 emb3 :
  requests 10 (runPhasePurga env evalID d diag msgs emb1 emb3).
Proof. unfold runPhasePurga. phase_requests. Qed.

Lemma requests_case_calculo (evalID : string) msgs emb1 emb3 :
  requests 10 (case_calculo env evalID msgs emb1 emb3).
Proof.
  unfold case_calculo, case_purga. apply (requests_bind 0 10).
  - apply requests_runPhaseCalculo.
  - intros r. apply requests_runPhasePurga.
Qed.

Lemma requests_case_confronto (evalID : string) msgs emb1 :
  requests 20 (case_confronto env evalID msgs emb1).
Proof.
  unfold case_confronto. apply (requests_bind 10 10).
  - apply requests_runPhaseConfronto.
  - intros r. apply requests_case_calculo.
Qed.

Lemma requests_case_inversao (evalID : string) msgs emb1 :
  requests 30 (case_inversao env evalID msgs emb1).
Proof.
  unfold case_inversao. apply (requests_bind 10 20).
  - apply requests_runPhaseInversao.
  - intros r. apply requests_case_confronto.
Qed.

Lemma requests_case_inicial (evalID prompt : string) msgs :
  requests 40 (case_inicial env evalID prompt msgs).
Proof.
  unfold case_inicial. apply (requests_bind 10 30).
  - apply requests_runPhaseInicial.
  - intros r. apply requests_case_inversao.
Qed.

Lemma requests_RunEvaluationProtocol (evalID prompt : string) :
  requests 40 (RunEvaluationProtocol env evalID prompt).
Proof.
  unfold RunEvaluationProtocol, RunEvaluationProtocolWithCheckpoint.
  apply (requests_bind 0 40); [no_request|]. intros checkpoint.
  apply (requests_bind 0 40); [no_request|]. intros w0.
  apply (requests_bind 0 40); [no_request|].
  intros [[[mensagens currentPhase] emb1] emb3]. cbv zeta.
  destruct (String.eqb currentPhase "inicial");
    [apply requests_case_inicial|].
  destruct (String.eqb currentPhase "inversao");
    [apply (requests_weaken 30 40); [lia | apply requests_case_inversao]|].
  destruct (String.eqb currentPhase "confronto");
    [apply (requests_weaken 20 40); [lia | apply requests_case_confronto]|].
  destruct (String.eqb currentPhase "calculo");
    [apply (requests_weaken 10 40); [lia | apply requests_case_calculo]|].
  destruct (String.eqb currentPhase "purga");
    [apply (requests_weaken 10 40); [lia | apply requests_runPhasePurga]|].
  apply (requests_weaken 0 40); [lia | no_request].
Qed.

End Requests.

(** X20.  Whatever the model and the store do, a model-call step sends its
    transcript at least once and at most ten times, and a run of the
    protocol sends at most forty requests to the model. *)
Theorem run_sends_at_most_forty_requests {F} `{Float64Ops F} (env : Env F)
  (evalID prompt phase : string) (msgs : list Message) (w : World F) :
  (exists k,
     gen_calls (callWithRetry env evalID phase msgs w).2
     = (repeat msgs k ++ gen_calls w)%list
     /\ (1 <= k <= 10)%nat)
  /\ exists new,
       gen_calls (RunEvaluationProtocol env evalID prompt w).2
       = (new ++ gen_calls w)%list
       /\ (length new <= 40)%nat.
Proof.
  split.
  - destruct (callWithRetry_loop_requests env MaxRetries 0 None evalID msgs w)
      as (k & Hk & Hle & Hge).
    exists k. split; [exact Hk|]. unfold MaxRetries in *. lia.
  - apply requests_RunEvaluationProtocol.
Qed.

(** ** The retry scan *)

Section RetryScan.
Context {F : Type} `{Float64Ops F} (env : Env F).

Lemma next_job_id_fresh (d : DB F) : jobs d !! next_job_id d = None.
Proof.
  unfold next_job_id.
  assert (Hmax : forall id j,
            jobs d !! id = Some j ->
            (id <= map_fold (fun id (_ : Job) largest => Z.max id largest)
                     0 (jobs d))%Z).
  { apply (map_fold_weak_ind
             (fun r (m : gmap Z Job) =>
                forall id j, m !! id = Some j -> (id <= r)%Z)).
    - intros id j Hl. rewrite lookup_empty in Hl. discriminate.
    - intros i x m r Hi IH id j Hl.
      destruct (decide (id = i)) as [->|Hne]; [lia|].
      rewrite lookup_insert_ne in Hl by congruence.
      specialize (IH id j Hl). lia. }
  destruct (jobs d !! (1 + _)%Z) as [j|] eqn:E; [|reflexivity].
  specialize (Hmax _ j E). lia.
Qed.

Lemma requeue_spec (evaluations0 : list (string * Evaluation)) :
  forall w : World F,
    let r := requeue env evaluations0 w in
    r.1 = Ok tt
    /\ evaluations (db r.2) = evaluations (db w)
    /\ evaluation_checkpoints (db r.2) = evaluation_checkpoints (db w)
    /\ processed_jobs (db r.2) = processed_jobs (db w)
    /\ clock r.2 = clock w
    /\ db_calls r.2 = (db_calls w + length evaluations0)%nat
    /\ (forall id j, jobs (db w) !! id = Some j ->
                     jobs (db r.2) !! id = Some j)
    /\ (forall id j,
          jobs (db r.2) !! id = Some j -> jobs (db w) !! id = None ->
          retry_job j
          /\ exists evaluation,
               (p_evaluation_id (job_payload j), evaluation) ∈ evaluations0
               /\ p_tenant_id (job_payload j) = eval_tenant_id evaluation
               /\ p_user_id (job_payload j) = eval_user_id evaluation
               /\ p_prompt (job_payload j) = eval_prompt_base evaluation)
    /\ ((forall i, (i < length evaluations0)%nat ->
           db_fault env (db_calls w + i) = None) ->
        size (jobs (db r.2))
        = (size (jobs (db w)) + length evaluations0)%nat).
Proof.
  induction evaluations0 as [|eval rest IH]; intros w; cbn [requeue].
  - cbn. repeat split; try lia; try congruence.
  - cbv zeta. unfold bind, ignore, CreateJob, storage.
    destruct (db_fault env (db_calls w)) as [msg|] eqn:E0.
    + cbv beta iota zeta.
      specialize (IH (set_db_calls (S (db_calls w)) w)). cbv zeta in IH.
      cbn [db clock db_calls set_db_calls] in IH.
      destruct IH as (Hok & He & Hc & Hp & Hk & Hn & Hold & Hnew & Hsize).
      split; [exact Hok|]. split; [exact He|]. split; [exact Hc|].
      split; [exact Hp|]. split; [exact Hk|].
      split; [rewrite Hn; cbn [length]; lia|].
      split; [exact Hold|]. split.
      * intros id j Hl Hnone. destruct (Hnew id j Hl Hnone)
          as (Hr & e & Hin & Hpr).
        split; [exact Hr|]. exists e. split; [right; exact Hin | exact Hpr].
      * intros Hnf. specialize (Hnf 0%nat ltac:(cbn [length]; lia)).
        rewrite Nat.add_0_r in Hnf. congruence.
    + set (job := {| job_id := next_job_id (db w);
                     job_type := "run_evaluation";
                     job_payload :=
                       evaluation_payload eval.1 (eval_tenant_id eval.2)
                         (eval_user_id eval.2) (eval_prompt_base eval.2) true;
                     job_status := "pending";
                     job_attempt_count := Some 0%Z;
                     job_last_error := None;
                     job_created_at := Some (clock w) |}).
      cbv beta iota zeta. cbn [fst snd].
      specialize (IH (set_db (set_jobs (<[job_id job := job]> (jobs (db w)))
                                (db w))
                        (set_db_calls (S (db_calls w)) w))).
      cbv zeta in IH.
      cbn [db clock db_calls set_db_calls set_db jobs set_jobs evaluations
           evaluation_checkpoints processed_jobs] in IH.
      destruct IH as (Hok & He & Hc & Hp & Hk & Hn & Hold & Hnew & Hsize).
      pose proof (next_job_id_fresh (db w)) as Hfresh.
      change (next_job_id (db w)) with (job_id job) in Hfresh.
      split; [exact Hok|]. split; [exact He|]. split; [exact Hc|].
      split; [exact Hp|]. split; [exact Hk|].
      split; [rewrite Hn; cbn [length]; lia|].
      split; [|split].
      * intros id j Hl. apply Hold.
        rewrite lookup_insert_ne by congruence. exact Hl.
      * intros id j Hl Hnone.
        destruct (decide (id = job_id job)) as [->|Hne].
        -- assert (Hj : j = job).
           { specialize (Hold (job_id job) job
                           ltac:(apply lookup_insert_eq)).
             congruence. }
           subst j. split; [repeat split|].
           exists eval.2. split; [|repeat split].
           apply elem_of_cons. left. destruct eval; reflexivity.
        -- destruct (Hnew id j Hl) as (Hr & e & Hin & Hpr).
           { rewrite lookup_insert_ne by congruence. exact Hnone. }
           split; [exact Hr|]. exists e.
           split; [right; exact Hin | exact Hpr].
      * intros Hnf. rewrite Hsize.
        -- rewrite map_size_insert_None by exact Hfresh.
           cbn [length]. lia.
        -- intros i Hi. specialize (Hnf (S i) ltac:(cbn [length]; lia)).
           replace (S (db_calls w) + i)%nat with (db_calls w + S i)%nat
             by lia.
           exact Hnf.
Qed.

Lemma processEvaluationRetries_run (w : World F) :
  processEvaluationRetries env w
  = match NewGeminiClient env with
    | Some _ => (Ok tt, w)
    | None =>
        match db_fault env (db_calls w) with
        | Some _ => (Ok tt, set_db_calls (S (db_calls w)) w)
        | None =>
            requeue env (to_retry (clock w) (db w))
              (set_db_calls (S (db_calls w)) w)
        end
    end.
Proof.
  unfold processEvaluationRetries, NewEvaluationService,
    GetEvaluationsToRetry, bind, catch, ret, fail, storage.
  destruct (NewGeminiClient env); [reflexivity|].
  cbn [db_calls set_db_calls].
  destruct (db_fault env (db_calls w)); [reflexivity|].
  cbn [db clock set_db_calls].
  replace (set_db (db w) (set_db_calls (S (db_calls w)) w))
    with (set_db_calls (S (db_calls w)) w) by (destruct w; reflexivity).
  destruct (to_retry (clock w) (db w)) as [|row rows]; reflexivity.
Qed.

End RetryScan.

Lemma processEvaluationRetries_frame {F} `{Float64Ops F}
  (env : Env F) (w : World F) :
  let w' := (processEvaluationRetries env w).2 in
  evaluations (db w') = evaluations (db w)
  /\ evaluation_checkpoints (db w') = evaluation_checkpoints (db w)
  /\ processed_jobs (db w') = processed_jobs (db w)
  /\ to_retry (clock w') (db w') = to_retry (clock w) (db w).
Proof.
  intros w'.
  assert (Hframe :
            evaluations (db w') = evaluations (db w)
            /\ evaluation_checkpoints (db w') = evaluation_checkpoints (db w)
            /\ processed_jobs (db w') = processed_jobs (db w)
            /\ clock w' = clock w).
  { subst w'. rewrite processEvaluationRetries_run.
    destruct (NewGeminiClient env); [repeat split|].
    destruct (db_fault env (db_calls w)); [repeat split|].
    destruct (requeue_spec env (to_retry (clock w) (db w))
                (set_db_calls (S (db_calls w)) w))
      as (_ & He & Hc & Hp & Hk & _).
    repeat split; assumption. }
  destruct Hframe as (He & Hc & Hp & Hk).
  repeat split; try assumption.
  unfold to_retry. rewrite He, Hc, Hk. reflexivity.
Qed.

Lemma processEvaluationRetries_count {F} `{Float64Ops F}
  (env : Env F) (w : World F) :
  NewGeminiClient env = None ->
  (forall i, (i <= length (to_retry (clock w) (db w)))%nat ->
             db_fault env (db_calls w + i) = None) ->
  size (jobs (db (processEvaluationRetries env w).2))
  = (size (jobs (db w)) + length (to_retry (clock w) (db w)))%nat.
Proof.
  intros Hclient Hnf. rewrite processEvaluationRetries_run.
  rewrite Hclient.
  pose proof (Hnf 0%nat ltac:(lia)) as H0.
  rewrite Nat.add_0_r in H0. rewrite H0.
  destruct (requeue_spec env (to_retry (clock w) (db w))
              (set_db_calls (S (db_calls w)) w))
    as (_ & _ & _ & _ & _ & _ & _ & _ & Hsize).
  apply Hsize. intros i Hi. cbn [db_calls set_db_calls].
  replace (S (db_calls w) + i)%nat with (db_calls w + S i)%nat by lia.
  apply Hnf. lia.
Qed.

(** X21.  The retry scan of the worker changes no evaluation, no checkpoint
    and no entry of the ledger, so that the query selects the same rows
    after it as before; it leaves every job of the queue as it is; every job
    it adds is a pending [run_evaluation] job with no attempt, marked
    [is_retry], for an evaluation that the query selected, with the prompt
    of that evaluation; and when the client can be made and no storage call
    fails, it adds exactly one job for each selected evaluation. *)
Theorem retry_scan_enqueues_the_due_evaluations {F} `{Float64Ops F}
  (env : Env F) (w : World F) :
  let rows := to_retry (clock w) (db w) in
  let w' := (processEvaluationRetries env w).2 in
  (evaluations (db w') = evaluations (db w)
   /\ evaluation_checkpoints (db w') = evaluation_checkpoints (db w)
   /\ processed_jobs (db w') = processed_jobs (db w)
   /\ to_retry (clock w') (db w') = rows)
  /\ (forall id j, jobs (db w) !! id = Some j -> jobs (db w') !! id = Some j)
  /\ (forall id j,
        jobs (db w') !! id = Some j -> jobs (db w) !! id = None ->
        retry_job j
        /\ exists evaluation,
             (p_evaluation_id (job_payload j), evaluation) ∈ rows
             /\ p_tenant_id (job_payload j) = eval_tenant_id evaluation
             /\ p_user_id (job_payload j) = eval_user_id evaluation
             /\ p_prompt (job_payload j) = eval_prompt_base evaluation)
  /\ (NewGeminiClient env = None ->
      (forall i, (i <= length rows)%nat ->
                 db_fault env (db_calls w + i) = None) ->
      size (jobs (db w')) = (size (jobs (db w)) + length rows)%nat).
Proof.
  intros rows w'. split; [|split; [|split]].
  - exact (processEvaluationRetries_frame env w).
  - subst w'. rewrite processEvaluationRetries_run.
    destruct (NewGeminiClient env); [tauto|].
    destruct (db_fault env (db_calls w)); [tauto|].
    destruct (requeue_spec env (to_retry (clock w) (db w))
                (set_db_calls (S (db_calls w)) w))
      as (_ & _ & _ & _ & _ & _ & Hold & _).
    exact Hold.
  - subst w'. rewrite processEvaluationRetries_run.
    destruct (NewGeminiClient env); [cbn; congruence|].
    destruct (db_fault env (db_calls w)); [cbn; congruence|].
    destruct (requeue_spec env (to_retry (clock w) (db w))
                (set_db_calls (S (db_calls w)) w))
      as (_ & _ & _ & _ & _ & _ & _ & Hnew & _).
    exact Hnew.
  - intros Hclient Hnf.
    exact (processEvaluationRetries_count env w Hclient Hnf).
Qed.

(** X22.  The scan marks nothing, so a second scan finds the same
    evaluations and enqueues each of them again: when the client can be made
    and no storage call fails, two scans in a row leave the queue longer by
    twice the number of the evaluations due, a first job for an evaluation
    not keeping the scan from adding the next one. *)
Theorem retry_scan_enqueues_again {F} `{Float64Ops F}
  (env : Env F) (w : World F) :
  NewGeminiClient env = None ->
  (forall n, db_fault env n = None) ->
  let w1 := (processEvaluationRetries env w).2 in
  let w2 := (processEvaluationRetries env w1).2 in
  to_retry (clock w1) (db w1) = to_retry (clock w) (db w)
  /\ size (jobs (db w2))
     = (size (jobs (db w)) + 2 * length (to_retry (clock w) (db w)))%nat.
Proof.
  intros Hclient Hnf w1 w2.
  destruct (processEvaluationRetries_frame env w) as (_ & _ & _ & Hrows).
  cbv zeta in Hrows. fold w1 in Hrows.
  split; [exact Hrows|].
  subst w2.
  rewrite (processEvaluationRetries_count env w1 Hclient (fun i _ => Hnf _)).
  subst w1.
  rewrite (processEvaluationRetries_count env w Hclient (fun i _ => Hnf _)).
  rewrite Hrows. lia.
Qed.

(** The evaluation of [world_with cp_retry11] is due at time 2000: one
    scan adds a job for it, the next one a second job. *)
Lemma retry_scan_enqueues_again_witness :
  let w := world_with cp_retry11 in
  let w1 := (processEvaluationRetries quietEnv w).2 in
  let w2 := (processEvaluationRetries quietEnv w1).2 in
  length (to_retry (clock w) (db w)) = 1%nat
  /\ size (jobs (db w)) = 1%nat
  /\ size (jobs (db w2)) = 3%nat.
Proof.
  cbv zeta. split; [reflexivity|]. split; [reflexivity|].
  rewrite (proj2 (retry_scan_enqueues_again quietEnv (world_with cp_retry11)
                    eq_refl (fun _ => eq_refl))).
  reflexivity.
Defined.

(** ** The first processor *)

Section FirstProcessor.
Context {F : Type} `{Float64Ops F} (env : Env F).

Lemma dispatch_processNext_unknown (job : Job) (w : World F) :
  known_job_type (job_type job) = false ->
  dispatch_processNext env job w = (Ok None, w).
Proof.
  unfold known_job_type. intros Hk.
  repeat (apply orb_false_elim in Hk; destruct Hk as [Hk ?]).
  unfold dispatch_processNext, bind, catch.
  repeat match goal with Heq : String.eqb _ _ = false |- _ =>
                           rewrite Heq; clear Heq end.
  reflexivity.
Qed.

End FirstProcessor.

(** X23.  [processNext], the processor without semaphores, treats a job of a
    type it has no case for as a success: when no storage call fails the job
    ends [completed] and in the idempotency ledger, and no handler was
    entered. [processNextWithRateLimit], given the same job, a free slot and
    a ledger without the job, ends with the job [failed] and the ledger as
    it was. *)
Theorem processNext_completes_unknown_job_types {F} `{Float64Ops F}
  (env : Env F) (job : Job) (w : World F) :
  known_job_type (job_type job) = false ->
  (forall n, db_fault env n = None) ->
  jobs (db w) !! job_id job = Some job ->
  (let w' := (processNext env (Some job) w).2 in
   jobs (db w') !! job_id job = Some (complete_job job)
   /\ job_id job ∈ processed_jobs (db w')
   /\ handled w' = handled w)
  /\ (job_id job ∉ processed_jobs (db w) ->
      (genericSemaphore w < MaxConcurrentGenericJobs)%nat ->
      let w' := (processNextWithRateLimit env (Some job) w).2 in
      job_status <$> jobs (db w') !! job_id job = Some "failed"
      /\ processed_jobs (db w') = processed_jobs (db w)).
Proof.
  intros Hk Hnf Hin. split.
  - cbv zeta.
    unfold processNext, bind, catch, ignore, PickNextJob, IsJobProcessed,
      CompleteJob, exec, storage.
    rewrite !Hnf. cbn [db db_calls set_db set_db_calls clock fst snd].
    destruct (decide (job_id job ∈ processed_jobs (db w))) as [Hled|Hled].
    + rewrite !Hnf. cbn.
      rewrite lookup_alter_eq, Hin. repeat split. exact Hled.
    + rewrite (dispatch_processNext_unknown env job _ Hk).
      unfold BeginTx, qtx_RecordJobProcessed, qtx_CompleteJob, tx_exec,
        Commit, storage, bind.
      cbn [db db_calls set_db set_db_calls clock fst snd].
      rewrite !Hnf. cbn.
      rewrite lookup_alter_eq, Hin. repeat split.
      apply elem_of_union. left. apply elem_of_singleton. reflexivity.
  - intros Hled Hfree. cbv zeta.
    assert (Hsem : getSemaphoreForJob (job_type job) = GenericSem).
    { unfold known_job_type in Hk.
      repeat (apply orb_false_elim in Hk; destruct Hk as [Hk ?]).
      unfold getSemaphoreForJob.
      repeat match goal with Heq : String.eqb _ _ = false |- _ =>
                               rewrite Heq; clear Heq end.
      reflexivity. }
    unfold processNextWithRateLimit, bind, catch, ignore, PickNextJob,
      IsJobProcessed, storage, get, modify.
    rewrite !Hnf. cbn [db db_calls set_db set_db_calls clock fst snd].
    destruct (decide (job_id job ∈ processed_jobs (db w))) as [?|_];
      [contradiction|].
    rewrite Hsem. cbn [slots capacity genericSemaphore set_db set_db_calls].
    apply Nat.ltb_lt in Hfree. rewrite Hfree.
    match goal with |- context [processJobWithMetrics env job ?W] =>
      set (w0 := W) end.
    rewrite (processJobWithMetrics_failure env job w0 w0 _
               (dispatch_unknown env job w0 Hk)).
    match goal with |- context [ignore (FailJob env ?m ?i) w0] =>
      destruct (ignore_FailJob env m i w0)
        as (Hok & _ & _ & _ & _ & Hp & _ & Hj);
      destruct (ignore (FailJob env m i) w0) as [r w1]
    end.
    cbn [fst snd] in Hok, Hp, Hj. subst r. cbn [fst snd].
    replace (db (set_slots GenericSem (Nat.pred (genericSemaphore w1)) w1))
      with (db w1) by reflexivity.
    rewrite Hj, Hp, Hnf. split; [|reflexivity].
    change (jobs (db w0)) with (jobs (db w)).
    rewrite lookup_alter_eq, Hin. reflexivity.
Qed.

(** ** Starting an evaluation *)

Section Starting.
Context {F : Type} `{Float64Ops F} (env : Env F).

Lemma rows_are_processing (d : DB F) (now : Z) (id : string) :
  id ∈ GetEvaluationsToRetry_rows now d ->
  exists evaluation,
    evaluations d !! id = Some evaluation
    /\ eval_status evaluation = "processing".
Proof.
  unfold GetEvaluationsToRetry_rows. intros Hin.
  apply list_elem_of_In, in_map_iff in Hin.
  destruct Hin as ([id' e] & Hid & Hin). cbn in Hid. subst id'.
  apply list_elem_of_In, list_elem_of_filter in Hin.
  destruct Hin as [Hyes Hin]. cbn in Hyes.
  apply andb_true_iff in Hyes. destruct Hyes as [Hyes _].
  apply String.eqb_eq in Hyes.
  apply elem_of_map_to_list in Hin. exists e. split; assumption.
Qed.

End Starting.

(** X24.  When the identifier drawn is not in use and neither of the two
    storage calls fails, [StartEvaluation] returns the identifier, stores
    the evaluation under it with the tenant, the user and the prompt given
    and the status [pending], and adds one job to the queue, under an
    identifier no job had: a pending [run_evaluation] job that carries the
    same identifier, tenant, user and prompt and is not marked as a retry. *)
Theorem StartEvaluation_stores_and_enqueues {F} `{Float64Ops F}
  (env : Env F) (uuid tenantID : string) (userID : Z) (prompt : string)
  (w : World F) :
  evaluations (db w) !! uuid = None ->
  db_fault env (db_calls w) = None ->
  db_fault env (S (db_calls w)) = None ->
  let r := StartEvaluation env uuid tenantID userID prompt w in
  r.1 = Ok uuid
  /\ evaluations (db r.2)
     = <[uuid := {| eval_tenant_id := tenantID; eval_user_id := userID;
                    eval_prompt_base := prompt;
                    eval_status := "pending" |}]> (evaluations (db w))
  /\ exists id job,
       jobs (db w) !! id = None
       /\ jobs (db r.2) = <[id := job]> (jobs (db w))
       /\ job_id job = id
       /\ job_type job = "run_evaluation"
       /\ job_status job = "pending"
       /\ job_payload job
          = evaluation_payload uuid tenantID userID prompt false.
Proof.
  intros Hfresh Hf1 Hf2. cbv zeta.
  unfold StartEvaluation, bind, on_error, CreateEvaluation, CreateJob,
    storage, ret.
  rewrite Hf1. cbn [db db_calls set_db set_db_calls clock fst snd].
  rewrite Hfresh. cbn [db db_calls set_db set_db_calls clock fst snd].
  rewrite Hf2. cbn [db db_calls set_db set_db_calls clock fst snd
                      evaluations set_evaluations jobs set_jobs job_id].
  split; [reflexivity|]. split; [reflexivity|].
  eexists _, _. split; [|split; [reflexivity|repeat split]].
  apply (next_job_id_fresh
           (set_evaluations
              (<[uuid := {| eval_tenant_id := tenantID;
                            eval_user_id := userID;
                            eval_prompt_base := prompt;
                            eval_status := "pending" |}]>
                 (evaluations (db w))) (db w))).
Qed.

(** X25.  [StartEvaluation] is not atomic. When the evaluation is stored and
    the storage call that creates the job fails, the call returns the error
    wrapped as [failed to create evaluation job: ...], yet the evaluation
    stays in the table, [pending], the queue is as it was, and the retry
    query never selects the evaluation: nothing is left that would run it. *)
Theorem StartEvaluation_is_not_atomic {F} `{Float64Ops F}
  (env : Env F) (uuid tenantID : string) (userID : Z) (prompt : string)
  (w : World F) (msg : string) :
  evaluations (db w) !! uuid = None ->
  db_fault env (db_calls w) = None ->
  db_fault env (S (db_calls w)) = Some msg ->
  let r := StartEvaluation env uuid tenantID userID prompt w in
  r.1 = Err (Errorf_w "failed to create evaluation job: " (ErrorString msg))
  /\ evaluations (db r.2) !! uuid
     = Some {| eval_tenant_id := tenantID; eval_user_id := userID;
               eval_prompt_base := prompt; eval_status := "pending" |}
  /\ jobs (db r.2) = jobs (db w)
  /\ forall now, uuid ∉ GetEvaluationsToRetry_rows now (db r.2).
Proof.
  intros Hfresh Hf1 Hf2. cbv zeta.
  assert (Hrun :
    StartEvaluation env uuid tenantID userID prompt w
    = (Err (Errorf_w "failed to create evaluation job: " (ErrorString msg)),
       set_db_calls (S (S (db_calls w)))
         (set_db
            (set_evaluations
               (<[uuid := {| eval_tenant_id := tenantID;
                             eval_user_id := userID;
                             eval_prompt_base := prompt;
                             eval_status := "pending" |}]>
                  (evaluations (db w))) (db w))
            (set_db_calls (S (db_calls w)) w)))).
  { unfold StartEvaluation, bind, on_error, CreateEvaluation, CreateJob,
      storage, ret.
    rewrite Hf1. cbn [db db_calls set_db set_db_calls clock fst snd].
    rewrite Hfresh. cbn [db db_calls set_db set_db_calls clock fst snd].
    rewrite Hf2. reflexivity. }
  rewrite Hrun. cbn [fst snd db set_db set_db_calls evaluations
                       set_evaluations jobs].
  split; [reflexivity|]. split; [apply lookup_insert_eq|].
  split; [reflexivity|].
  intros now Hin. apply rows_are_processing in Hin.
  destruct Hin as (e & He & Hs). cbn in He.
  rewrite lookup_insert_eq in He. injection He as <-. discriminate.
Qed.

Lemma none_processing_world_pending : none_processing (db world_pending).
Proof.
  intros id evaluation Hl. cbn in Hl.
  apply lookup_singleton_Some in Hl. destruct Hl as [_ <-]. discriminate.
Qed.

(** In a world whose only evaluation is pending, running its job leaves
    no evaluation in status [processing]. *)
Lemma no_evaluation_becomes_processing_witness :
  none_processing (db world_pending)
  /\ none_processing
       (db (processNextWithRateLimit quietEnv (Some job_eval)
              world_pending).2).
Proof.
  split; [exact none_processing_world_pending|].
  destruct (no_evaluation_becomes_processing quietEnv world_pending
              none_processing_world_pending) as (Hpick & _).
  exact (proj1 (Hpick (Some job_eval))).
Defined.

(** The job [job_unknown5], of type [resize_image], is completed by
    [processNext]. *)
Lemma processNext_completes_unknown_job_types_witness :
  let w := mkWorld 2000 (mkDB [job_unknown5] [] []) in
  job_status <$> jobs (db (processNext quietEnv (Some job_unknown5) w).2) !! 1%Z
  = Some "completed".
Proof.
  cbv zeta.
  destruct (processNext_completes_unknown_job_types quietEnv job_unknown5
              (mkWorld 2000 (mkDB [job_unknown5] [] []))
              eq_refl (fun _ => eq_refl) eq_refl) as ((Hjob & _) & _).
  cbv zeta in Hjob. change (job_id job_unknown5) with 1%Z in Hjob.
  rewrite Hjob. reflexivity.
Defined.

(** A first evaluation in an empty world. *)
Lemma StartEvaluation_stores_and_enqueues_witness :
  (StartEvaluation quietEnv "eval-2" "acme" 1 "X"
     (mkWorld 2000 (mkDB [] [] []))).1 = Ok "eval-2".
Proof.
  exact (proj1 (StartEvaluation_stores_and_enqueues quietEnv "eval-2" "acme"
                  1 "X" (mkWorld 2000 (mkDB [] [] []))
                  eq_refl eq_refl eq_refl)).
Defined.

(** The second storage call, which creates the job, fails. *)
Lemma StartEvaluation_is_not_atomic_witness :
  let r := StartEvaluation lookupFailsEnv "eval-2" "acme" 1 "X"
             (mkWorld 2000 (mkDB [] [] [])) in
  eval_status <$> evaluations (db r.2) !! "eval-2" = Some "pending"
  /\ jobs (db r.2) = ∅.
Proof.
  cbv zeta.
  destruct (StartEvaluation_is_not_atomic lookupFailsEnv "eval-2" "acme"
              1 "X" (mkWorld 2000 (mkDB [] [] [])) "database is locked"
              eq_refl eq_refl eq_refl) as (_ & Heval & Hjobs & _).
  cbv zeta in Heval, Hjobs. rewrite Heval, Hjobs. split; reflexivity.
Defined.

(** ** Mail jobs *)

Section MailJobs.
Context {F : Type} `{Float64Ops F} (env : Env F).

Lemma dispatch_mail (job : Job) (mail : string * string * string)
  (w : World F) :
  mail_of job = Some mail ->
  json_valid (job_payload job) = true ->
  dispatch env job w
  = (Ok (mailer_Send env (length (mails w))),
     set_mails (mail :: mails w)
       (set_handled (job_type job :: handled w) w)).
Proof.
  unfold mail_of. intros Hmail Hvalid.
  unfold dispatch, bind, catch, invoke, modify.
  destruct (String.eqb (job_type job) "send_email") eqn:E1.
  { injection Hmail as <-.
    unfold handleSendEmail, bind, json_Unmarshal, ret, mailerSend.
    rewrite Hvalid. cbn [mails set_handled].
    destruct (mailer_Send env (length (mails w))); reflexivity. }
  destruct (String.eqb (job_type job) "send_password_reset_email") eqn:E2.
  { injection Hmail as <-.
    unfold handleSendPasswordResetEmail, bind, json_Unmarshal, ret,
      mailerSend.
    rewrite Hvalid. cbn [mails set_handled].
    destruct (mailer_Send env (length (mails w))); reflexivity. }
  destruct (String.eqb (job_type job) "send_verification_email") eqn:E3;
    [|discriminate].
  injection Hmail as <-.
  unfold handleSendVerificationEmail, bind, json_Unmarshal, ret, mailerSend.
  rewrite Hvalid. cbn [mails set_handled].
  destruct (mailer_Send env (length (mails w))); reflexivity.
Qed.

Lemma transaction_mails (id : Z) (w : World F) :
  mails (ignore
           (tx <- BeginTx env ;;
            tx <- qtx_RecordJobProcessed env id tx ;;
            tx <- qtx_CompleteJob env id tx ;;
            Commit env tx) w).2 = mails w.
Proof.
  unfold ignore, bind, BeginTx, qtx_RecordJobProcessed, qtx_CompleteJob,
    tx_exec, Commit, storage.
  destruct (db_fault env (db_calls w)); simpl; [reflexivity|].
  destruct (db_fault env (S (db_calls w))); simpl; [reflexivity|].
  destruct (db_fault env (S (S (db_calls w)))); simpl; [reflexivity|].
  destruct (db_fault env (S (S (S (db_calls w))))); reflexivity.
Qed.

Lemma FailJob_mails (msg : option string) (id : Z) (w : World F) :
  mails (ignore (FailJob env msg id) w).2 = mails w.
Proof.
  unfold ignore, FailJob, exec, storage.
  destruct (db_fault env (db_calls w)); reflexivity.
Qed.

Lemma mail_job_semaphore (job : Job) (mail : string * string * string) :
  mail_of job = Some mail -> getSemaphoreForJob (job_type job) = EmailSem.
Proof.
  unfold mail_of. intros Hmail.
  destruct (String.eqb_spec (job_type job) "send_email") as [->|_];
    [reflexivity|].
  destruct (String.eqb_spec (job_type job) "send_password_reset_email")
    as [->|_]; [reflexivity|].
  destruct (String.eqb_spec (job_type job) "send_verification_email")
    as [->|_]; [reflexivity | discriminate].
Qed.

(** One run of [processJobWithMetrics] on a mail job. *)
Lemma processJobWithMetrics_mail (job : Job)
  (mail : string * string * string) (w : World F) :
  mail_of job = Some mail ->
  json_valid (job_payload job) = true ->
  let w' := (processJobWithMetrics env job w).2 in
  mails w' = mail :: mails w
  /\ same_slots w w'
  /\ (mailer_Send env (length (mails w)) = None ->
      (db_fault env (db_calls w) <> None
       \/ db_fault env (S (db_calls w)) <> None
       \/ db_fault env (S (S (db_calls w))) <> None
       \/ db_fault env (S (S (S (db_calls w)))) <> None) ->
      db w' = db w).
Proof.
  intros Hmail Hvalid. cbv zeta.
  pose proof (dispatch_mail job mail w Hmail Hvalid) as Hd.
  split; [|split].
  - destruct (mailer_Send env (length (mails w))) as [e|].
    + rewrite (processJobWithMetrics_failure env job w _ e Hd).
      rewrite FailJob_mails. reflexivity.
    + rewrite (processJobWithMetrics_success env job w _ Hd).
      rewrite transaction_mails. reflexivity.
  - apply keeps_same_slots_processJobWithMetrics.
  - intros Hsent Hfault. rewrite Hsent in Hd.
    rewrite (processJobWithMetrics_success env job w _ Hd).
    destruct (success_transaction env job
                (set_mails (mail :: mails w)
                   (set_handled (job_type job :: handled w) w)))
      as (_ & _ & [(H0 & H1 & H2 & H3 & _) | (_ & Hsame)]).
    + cbn [db_calls set_mails set_handled] in H0, H1, H2, H3.
      destruct Hfault as [Hf | [Hf | [Hf | Hf]]]; congruence.
    + exact Hsame.
Qed.

(** A job that is not in the ledger and finds a free slot is run, the
    lookup in the ledger failing or not. *)
Lemma processNextWithRateLimit_admitted (job : Job) (w : World F) :
  db_fault env (db_calls w) = None ->
  job_id job ∉ processed_jobs (db w) ->
  (slots (getSemaphoreForJob (job_type job)) w
   < capacity (getSemaphoreForJob (job_type job)))%nat ->
  let semaphore := getSemaphoreForJob (job_type job) in
  let w0 := set_slots semaphore (S (slots semaphore w))
              (set_db_calls (S (S (db_calls w))) w) in
  let w1 := (processJobWithMetrics env job w0).2 in
  processNextWithRateLimit env (Some job) w
  = (Ok tt, set_slots semaphore (Nat.pred (slots semaphore w1)) w1).
Proof.
  intros Hpick Hled Hfree. cbv zeta.
  apply Nat.ltb_lt in Hfree.
  unfold processNextWithRateLimit.
  unfold bind at 1. unfold catch at 1. unfold PickNextJob.
  rewrite (storage_ok env _ w Hpick). cbn [fst snd].
  unfold bind at 1. unfold catch at 1. unfold IsJobProcessed, storage.
  cbn [db db_calls set_db set_db_calls clock].
  assert (Hw : forall n,
            set_db (db w) (set_db_calls n (set_db (db w)
                             (set_db_calls (S (db_calls w)) w)))
            = set_db_calls n w).
  { intros n. destruct w; reflexivity. }
  assert (Hgo :
    (let semaphore := getSemaphoreForJob (job_type job) in
     w2 <- get ;;
     if (slots semaphore w2 <? capacity semaphore)%nat
     then
       modify (fun w => set_slots semaphore (S (slots semaphore w)) w) ;;;
       processJobWithMetrics env job ;;;
       modify (fun w => set_slots semaphore
                          (Nat.pred (slots semaphore w)) w)
     else ret tt) (set_db_calls (S (S (db_calls w))) w)
    = (Ok tt,
       set_slots (getSemaphoreForJob (job_type job))
         (Nat.pred
            (slots (getSemaphoreForJob (job_type job))
               (processJobWithMetrics env job
                  (set_slots (getSemaphoreForJob (job_type job))
                     (S (slots (getSemaphoreForJob (job_type job)) w))
                     (set_db_calls (S (S (db_calls w))) w))).2))
         (processJobWithMetrics env job
            (set_slots (getSemaphoreForJob (job_type job))
               (S (slots (getSemaphoreForJob (job_type job)) w))
               (set_db_calls (S (S (db_calls w))) w))).2)).
  { cbv zeta. unfold bind, get, modify.
    replace (slots (getSemaphoreForJob (job_type job))
               (set_db_calls (S (S (db_calls w))) w))
      with (slots (getSemaphoreForJob (job_type job)) w)
      by (destruct (getSemaphoreForJob (job_type job)); reflexivity).
    rewrite Hfree.
    pose proof (processJobWithMetrics_returns env job
                  (set_slots (getSemaphoreForJob (job_type job))
                     (S (slots (getSemaphoreForJob (job_type job)) w))
                     (set_db_calls (S (S (db_calls w))) w))) as Hret.
    destruct (processJobWithMetrics env job _) as [r w1].
    cbn [fst snd] in Hret |- *. subst r. reflexivity. }
  destruct (db_fault env (S (db_calls w))) as [msg|].
  - replace (set_db_calls (S (S (db_calls w)))
               (set_db (db w) (set_db_calls (S (db_calls w)) w)))
      with (set_db_calls (S (S (db_calls w))) w)
      by (destruct w; reflexivity).
    exact Hgo.
  - destruct (decide (job_id job ∈ processed_jobs (db w))) as [?|_];
      [contradiction|].
    cbn [fst snd]. rewrite Hw. exact Hgo.
Qed.

End MailJobs.

(** X26.  The idempotency ledger does not keep a mail from being sent twice.
    A mail job whose payload parses, that is not in the ledger and finds a
    free slot, has its message handed to the mailer, the one of its handler;
    when the mailer accepts it and one of the four storage calls of the
    transaction that follows fails, the slot is released and the tables are
    as they were, the message being out all the same; and when the job is
    picked again, the message is handed to the mailer a second time. *)
Theorem mail_is_sent_again_after_a_failed_transaction {F} `{Float64Ops F}
  (env : Env F) (job : Job) (mail : string * string * string)
  (w : World F) :
  mail_of job = Some mail ->
  json_valid (job_payload job) = true ->
  job_id job ∉ processed_jobs (db w) ->
  (emailSemaphore w < MaxConcurrentEmailJobs)%nat ->
  db_fault env (db_calls w) = None ->
  mailer_Send env (length (mails w)) = None ->
  (let n := S (S (db_calls w)) in
   db_fault env n <> None \/ db_fault env (S n) <> None
   \/ db_fault env (S (S n)) <> None \/ db_fault env (S (S (S n))) <> None) ->
  let w' := (processNextWithRateLimit env (Some job) w).2 in
  mails w' = mail :: mails w
  /\ db w' = db w
  /\ emailSemaphore w' = emailSemaphore w
  /\ (db_fault env (db_calls w') = None ->
      mails (processNextWithRateLimit env (Some job) w').2
      = mail :: mail :: mails w).
Proof.
  intros Hmail Hvalid Hled Hfree Hpick Hsent Hfault. cbv zeta in Hfault.
  pose proof (mail_job_semaphore job mail Hmail) as Hsem.
  assert (Hrun : forall w0 : World F,
            job_id job ∉ processed_jobs (db w0) ->
            (emailSemaphore w0 < MaxConcurrentEmailJobs)%nat ->
            db_fault env (db_calls w0) = None ->
            let w1 := (processJobWithMetrics env job
                         (set_slots EmailSem (S (emailSemaphore w0))
                            (set_db_calls (S (S (db_calls w0))) w0))).2 in
            processNextWithRateLimit env (Some job) w0
            = (Ok tt, set_slots EmailSem (Nat.pred (emailSemaphore w1)) w1)).
  { intros w0 Hl Hf Hp.
    pose proof (processNextWithRateLimit_admitted env job w0 Hp Hl) as Ha.
    rewrite Hsem in Ha. exact (Ha Hf). }
  cbv zeta in Hrun.
  set (w0 := set_slots EmailSem (S (emailSemaphore w))
               (set_db_calls (S (S (db_calls w))) w)).
  destruct (processJobWithMetrics_mail env job mail w0 Hmail Hvalid)
    as (Hm & Hs & Hd).
  cbv zeta in Hm, Hs, Hd.
  specialize (Hd Hsent Hfault).
  cbv zeta. rewrite (Hrun w Hled Hfree Hpick). fold w0. cbn [snd].
  set (w1 := (processJobWithMetrics env job w0).2) in *.
  assert (Hslot : emailSemaphore
                    (set_slots EmailSem (Nat.pred (emailSemaphore w1)) w1)
                  = emailSemaphore w).
  { destruct Hs as (_ & He & _). cbn [set_slots set_semaphores emailSemaphore].
    rewrite He. reflexivity. }
  split; [exact Hm|]. split; [exact Hd|]. split; [exact Hslot|].
  intros Hagain.
  rewrite Hrun.
  - cbn [snd set_slots set_semaphores mails].
    match goal with |- mails (processJobWithMetrics env job ?w2).2 = _ =>
      destruct (processJobWithMetrics_mail env job mail w2 Hmail Hvalid)
        as (Hm2 & _)
    end.
    cbv zeta in Hm2. rewrite Hm2. cbn [set_slots set_semaphores mails
                                        set_db_calls].
    rewrite Hm. reflexivity.
  - cbn [db set_slots set_semaphores]. rewrite Hd. exact Hled.
  - rewrite Hslot. exact Hfree.
  - exact Hagain.
Qed.

(** The commit fails after the mail went out: [job_mail] is as it was
    picked, and the next pick sends the mail a second time. *)
Lemma mail_is_sent_again_after_a_failed_transaction_witness :
  let w := mkWorld 2000 (mkDB [job_mail] [] []) in
  let w' := (processNextWithRateLimit commitFailsEnv (Some job_mail) w).2 in
  mails w' = [("ana@example.org", "Welcome", "Hello")]
  /\ db w' = db w
  /\ mails (processNextWithRateLimit commitFailsEnv (Some job_mail) w').2
     = [("ana@example.org", "Welcome", "Hello");
        ("ana@example.org", "Welcome", "Hello")].
Proof.
  cbv zeta.
  destruct (mail_is_sent_again_after_a_failed_transaction commitFailsEnv
              job_mail ("ana@example.org", "Welcome", "Hello")
              (mkWorld 2000 (mkDB [job_mail] [] []))
              eq_refl eq_refl)
    as (Hone & Hdb & _ & Htwo).
  - cbn. apply not_elem_of_empty.
  - cbn. unfold MaxConcurrentEmailJobs. lia.
  - reflexivity.
  - reflexivity.
  - cbv zeta. right. right. right. discriminate.
  - cbv zeta in Hone, Hdb, Htwo.
    split; [exact Hone|]. split; [exact Hdb|]. apply Htwo. reflexivity.
Defined.
